(** * LaunchPad: the process supervisor of [launchpad.py]

    A shallow embedding of the [StackController] class (process table,
    spawn / terminate, the health monitor and its restart timers, the
    port-conflict flow, the HTTP reachability probe and the start / stop
    orchestration) together with the properties of its specification.

    Modelling conventions.
    - Python objects are shared and mutable: every [Proc] object lives in
      an object store ([heap]) and is named by its address; the process
      table [procs] maps a service key to an address, in insertion
      order, as a Python [dict] does.
    - A method is a computation in a state-and-exception monad [M]: it
      takes the controller state and gives back the state it leaves and
      either a value or the exception that escapes the method.
    - The operating system, the network, the Tk dialogs and the callbacks
      handed to the constructor are an [Environment] of oracles.  Every
      consultation carries a sequence number, so an oracle may answer
      differently each time it is asked.
    - Time is a virtual clock in milliseconds that only [time.sleep] and
      the blocking waits advance.
    - [with self.lock:] blocks run atomically: the model is one
      interleaving at the granularity of whole methods, monitor
      iterations and timer callbacks. *)

From Stdlib Require Import ZArith Ascii String List Bool Lia.
From stdpp Require Import base list strings pretty.
Import ListNotations.

#[local] Open Scope string_scope.
#[local] Open Scope Z_scope.

(** ** Exceptions *)

Inductive Exn :=
| FileNotFoundError (msg : string)
| PermissionError (msg : string)
| OSError (msg : string)
| ValueError (msg : string)
| IndexError (msg : string)
| RuntimeError (msg : string).

(** [except OSError] also catches the subclasses of [OSError]. *)
Definition is_OSError (e : Exn) : bool :=
  match e with
  | FileNotFoundError _ | PermissionError _ | OSError _ => true
  | _ => false
  end.

Definition exn_str (e : Exn) : string :=
  match e with
  | FileNotFoundError m | PermissionError m | OSError m
  | ValueError m | IndexError m | RuntimeError m => m
  end.

(** ** Process handles *)

Inductive ProcessStatus := STOPPED | STARTING | RUNNING | FAILED.

Definition status_eqb (a b : ProcessStatus) : bool :=
  match a, b with
  | STOPPED, STOPPED | STARTING, STARTING | RUNNING, RUNNING | FAILED, FAILED => true
  | _, _ => false
  end.

Definition status_value (s : ProcessStatus) : string :=
  match s with
  | STOPPED => "stopped" | STARTING => "starting"
  | RUNNING => "running" | FAILED => "failed"
  end.

(** A [subprocess.Popen] object is named by its index in the list of
    processes launched so far; a [Proc] object by its address. *)
Abbreviation popen_ref := nat (only parsing).
Abbreviation loc := nat (only parsing).

Definition environ := list (string * string).

Record Proc := mkProc {
  name : string;
  args : list string;
  cwd : string;
  env : environ;
  p : option popen_ref;
  status : ProcessStatus;
  auto_restart : bool;
  start_time : option Z;
  restart_count : Z;
  last_error : option string
}.

(** [Proc.__init__] *)
Definition Proc_init (nm : string) (a : list string) (d : string) (e : environ)
    (ar : bool) : Proc :=
  mkProc nm a d e None STOPPED ar None 0 None.

#[global] Instance Proc_inhabited : Inhabited Proc :=
  populate (Proc_init "" [] "" [] false).

Definition with_p (v : option popen_ref) (h : Proc) : Proc :=
  mkProc (name h) (args h) (cwd h) (env h) v (status h) (auto_restart h)
         (start_time h) (restart_count h) (last_error h).
Definition with_status (v : ProcessStatus) (h : Proc) : Proc :=
  mkProc (name h) (args h) (cwd h) (env h) (p h) v (auto_restart h)
         (start_time h) (restart_count h) (last_error h).
Definition with_start_time (v : option Z) (h : Proc) : Proc :=
  mkProc (name h) (args h) (cwd h) (env h) (p h) (status h) (auto_restart h)
         v (restart_count h) (last_error h).
Definition with_restart_count (v : Z) (h : Proc) : Proc :=
  mkProc (name h) (args h) (cwd h) (env h) (p h) (status h) (auto_restart h)
         (start_time h) v (last_error h).
Definition with_last_error (v : option string) (h : Proc) : Proc :=
  mkProc (name h) (args h) (cwd h) (env h) (p h) (status h) (auto_restart h)
         (start_time h) (restart_count h) v.

(** ** Operating-system processes *)

(** What the supervisor can see of a launched process through its
    [Popen] object: from instant [po_exit_at] on, [poll()] reports
    [po_returncode]; [po_term_delay] is the time the process takes to
    exit once it receives SIGTERM ([None]: it ignores the signal). *)
Record Popen := mkPopen {
  po_args : list string;
  po_exit_at : option Z;
  po_returncode : Z;
  po_term_delay : option Z
}.

#[global] Instance Popen_inhabited : Inhabited Popen :=
  populate (mkPopen [] (Some 0) 0 None).

(** The answer of the process launcher to one [subprocess.Popen(...)]:
    a process with a life time ([None]: it runs until signalled), an
    exit code and a reaction time to SIGTERM, or an exception. *)
Inductive LaunchResult :=
| Launched (lifetime : option Z) (code : Z) (term_delay : option Z)
| LaunchFails (e : Exn).

Inductive HttpResult :=
| Response (status_code : Z)
| HttpFails (e : Exn).

Inductive RootResult := HasRoot | NoRoot | RootRaises (e : Exn).
Inductive AskResult := Answer (yes : bool) | AskRaises (e : Exn).

(** ** Observable effects *)

Inductive Task :=
| Pump (pp : popen_ref) (tag : string)
| Waiter
| Opener
| StopWorker.

Inductive TimerAction :=
| CallStartDaphne
| CallStartCeleryBeat
| CallStartCeleryWorker
| CallStartFrontend
| CallRestartKey.

Inductive Event :=
| UiLog (ts : Z) (line tag : string)
| StatusCb (key : string) (s : ProcessStatus)
| NotifyCb (msg sev : string)
| PopenCall (a : list string) (d : string)
| SigTerm (pp : popen_ref)
| SigKill (pp : popen_ref)
| ForeignSignal (pid sig : Z)
| AskYesNo (title msg : string) (r : AskResult)
| Slept (ms : Z)
| ThreadStart (t : Task)
| TimerStart (delay : Z) (a : TimerAction)
| Removed (path : string).

(** ** Controller state *)

Record State := mkState {
  procs : list (string * loc);
  heap : list Proc;
  _browser_opened : bool;
  _stop_monitoring : bool;
  monitor_key : option string;
  now : Z;
  os : list Popen;
  asked : nat;
  timers : list (Z * TimerAction);
  trace : list Event
}.

(** [StackController.__init__], before the monitor thread is started. *)
Definition init_state : State :=
  mkState [] [] false false None 0 [] 0 [] [].

Definition with_procs (v : list (string * loc)) (s : State) : State :=
  mkState v (heap s) (_browser_opened s) (_stop_monitoring s) (monitor_key s)
          (now s) (os s) (asked s) (timers s) (trace s).
Definition with_heap (v : list Proc) (s : State) : State :=
  mkState (procs s) v (_browser_opened s) (_stop_monitoring s) (monitor_key s)
          (now s) (os s) (asked s) (timers s) (trace s).
Definition with_browser_opened (v : bool) (s : State) : State :=
  mkState (procs s) (heap s) v (_stop_monitoring s) (monitor_key s)
          (now s) (os s) (asked s) (timers s) (trace s).
Definition with_stop_monitoring (v : bool) (s : State) : State :=
  mkState (procs s) (heap s) (_browser_opened s) v (monitor_key s)
          (now s) (os s) (asked s) (timers s) (trace s).
Definition with_monitor_key (v : option string) (s : State) : State :=
  mkState (procs s) (heap s) (_browser_opened s) (_stop_monitoring s) v
          (now s) (os s) (asked s) (timers s) (trace s).
Definition with_now (v : Z) (s : State) : State :=
  mkState (procs s) (heap s) (_browser_opened s) (_stop_monitoring s) (monitor_key s)
          v (os s) (asked s) (timers s) (trace s).
Definition with_os (v : list Popen) (s : State) : State :=
  mkState (procs s) (heap s) (_browser_opened s) (_stop_monitoring s) (monitor_key s)
          (now s) v (asked s) (timers s) (trace s).
Definition with_asked (v : nat) (s : State) : State :=
  mkState (procs s) (heap s) (_browser_opened s) (_stop_monitoring s) (monitor_key s)
          (now s) (os s) v (timers s) (trace s).
Definition with_timers (v : list (Z * TimerAction)) (s : State) : State :=
  mkState (procs s) (heap s) (_browser_opened s) (_stop_monitoring s) (monitor_key s)
          (now s) (os s) (asked s) v (trace s).
Definition with_trace (v : list Event) (s : State) : State :=
  mkState (procs s) (heap s) (_browser_opened s) (_stop_monitoring s) (monitor_key s)
          (now s) (os s) (asked s) (timers s) v.

(** ** The process table: a [dict] in insertion order *)

Fixpoint tbl_get (key : string) (t : list (string * loc)) : option loc :=
  match t with
  | [] => None
  | (k, l) :: t' => if String.eqb k key then Some l else tbl_get key t'
  end.

(** [d[key] = l]: an existing key keeps its position. *)
Fixpoint tbl_set (key : string) (l : loc) (t : list (string * loc)) : list (string * loc) :=
  match t with
  | [] => [(key, l)]
  | (k, l0) :: t' =>
      if String.eqb k key then (k, l) :: t' else (k, l0) :: tbl_set key l t'
  end.

(** [d.pop(key, None)] *)
Fixpoint tbl_pop (key : string) (t : list (string * loc)) : list (string * loc) :=
  match t with
  | [] => []
  | (k, l0) :: t' => if String.eqb k key then t' else (k, l0) :: tbl_pop key t'
  end.

(** ** The monad of methods *)

Inductive Outcome (A : Type) :=
| Returned (a : A)
| Raised (e : Exn).
Arguments Returned {A} a.
Arguments Raised {A} e.

Definition M (A : Type) : Type := State -> Outcome A * State.

Definition ret {A} (a : A) : M A := fun s => (Returned a, s).

Definition bind {A B} (m : M A) (f : A -> M B) : M B := fun s =>
  match m s with
  | (Returned a, s') => f a s'
  | (Raised e, s') => (Raised e, s')
  end.

Declare Scope method_scope.
Delimit Scope method_scope with method.
Bind Scope method_scope with M.
Notation "x ← y ; z" := (bind y (fun x => z))
  (at level 20, y at level 100, z at level 200, only parsing) : method_scope.
Notation "y ;; z" := (bind y (fun _ => z))
  (at level 100, z at level 200, only parsing, right associativity) : method_scope.
#[local] Open Scope method_scope.

Definition gets {A} (f : State -> A) : M A := fun s => (Returned (f s), s).
Definition modify (f : State -> State) : M unit := fun s => (Returned tt, f s).
Definition raise {A} (e : Exn) : M A := fun s => (Raised e, s).

(** [try: m  except <the exceptions h accepts> as e: h e] *)
Definition catch {A} (m : M A) (h : Exn -> option (M A)) : M A := fun s =>
  match m s with
  | (Raised e, s') =>
      match h e with
      | Some k => k s'
      | None => (Raised e, s')
      end
  | r => r
  end.

(** [try: m  except Exception: pass] *)
Definition suppress (m : M unit) : M unit :=
  catch m (fun _ => Some (ret tt)).

(** [for x in xs: body x]; an exception leaves the loop. *)
Fixpoint for_each {A} (xs : list A) (body : A -> M unit) : M unit :=
  match xs with
  | [] => ret tt
  | x :: xs' => body x ;; for_each xs' body
  end.

Definition emit (e : Event) : M unit :=
  modify (fun s => with_trace (trace s ++ [e]) s).

(** [time.sleep(ms / 1000)] *)
Definition sleep (ms : Z) : M unit :=
  modify (fun s => with_now (now s + ms) (with_trace (trace s ++ [Slept ms]) s)).

(** The sequence number of the next consultation of the environment. *)
Definition ask : M nat :=
  fun s => (Returned (asked s), with_asked (S (asked s)) s).

Definition deref (l : loc) : M Proc := gets (fun s => heap s !!! l).

Definition update (l : loc) (f : Proc -> Proc) : M unit :=
  modify (fun s => with_heap (<[l := f (heap s !!! l)]> (heap s)) s).

(** [Proc(...)]: a new object in the store. *)
Definition new_proc (h : Proc) : M loc :=
  fun s => (Returned (length (heap s)), with_heap (heap s ++ [h]) s).

(** [threading.Thread(target=t, daemon=True).start()] *)
Definition start_thread (t : Task) : M unit := emit (ThreadStart t).

(** [threading.Timer(delay, a).start()] *)
Definition start_timer (delay : Z) (a : TimerAction) : M unit :=
  modify (fun s => with_timers (timers s ++ [(now s + delay, a)])
                     (with_trace (trace s ++ [TimerStart delay a]) s)).

(** ** [Popen] methods *)

(** [p.poll()]: [None] while the process runs, its return code after. *)
Definition poll_at (t : Z) (o : Popen) : option Z :=
  match po_exit_at o with
  | Some d => if d <=? t then Some (po_returncode o) else None
  | None => None
  end.

(** A reference always names a launched process; any other index
    stands for a process that is gone. *)
Definition poll_in (s : State) (pp : popen_ref) : option Z :=
  match os s !! pp with
  | Some o => poll_at (now s) o
  | None => Some 0
  end.

Definition poll (pp : popen_ref) : M (option Z) :=
  gets (fun s => poll_in s pp).

(** The process as it is after one signal reached it at instant [t]:
    it exits [d] after the signal with status [code], unless it exits
    before that by itself. *)
Definition signalled (t : Z) (delay : option Z) (code : Z) (o : Popen) : Popen :=
  match delay with
  | None => o
  | Some d =>
      match po_exit_at o with
      | Some x => if x <=? t + d then o
                  else mkPopen (po_args o) (Some (t + d)) code (po_term_delay o)
      | None => mkPopen (po_args o) (Some (t + d)) code (po_term_delay o)
      end
  end.

Definition sigterm (t : Z) (o : Popen) : Popen := signalled t (po_term_delay o) (-15) o.
Definition sigkill (t : Z) (o : Popen) : Popen := signalled t (Some 0) (-9) o.

(** [p.terminate()]: SIGTERM, unless the process has already exited. *)
Definition popen_terminate (pp : popen_ref) : M unit :=
  r ← poll pp;
  match r with
  | Some _ => ret tt
  | None =>
      emit (SigTerm pp) ;;
      modify (fun s => with_os (alter (sigterm (now s)) pp (os s)) s)
  end.

(** [p.kill()]: SIGKILL, unless the process has already exited. *)
Definition popen_kill (pp : popen_ref) : M unit :=
  r ← poll pp;
  match r with
  | Some _ => ret tt
  | None =>
      emit (SigKill pp) ;;
      modify (fun s => with_os (alter (sigkill (now s)) pp (os s)) s)
  end.

(** ** Configuration ([Paths]) *)

Record Paths := mkPaths {
  PROJECT_ROOT : string;
  FRONTEND_DIR : string;
  NPM_EXE : string;
  DOCKER_EXE : string;
  DJANGO_ASGI_APP : string;
  DAPHNE_HOST : string;
  DAPHNE_PORT : Z;
  FRONTEND_HOST : string;
  FRONTEND_PORT : Z;
  AUTO_OPEN_BROWSER : bool;
  REDIS_HOST : string;
  REDIS_PORT : Z;
  REDIS_DOCKER_NAME : string;
  FETCH_OPENAPI : bool;
  OPENAPI_REL : string;
  CELERY_QUEUE : string;
  CELERY_POOL : string;
  CELERY_CONCURRENCY : Z;
  MIGRATION_POLICY : string;
  DOCKER_MEMORY_LIMIT : string;
  (* a float in the source; only its printed form [str(...)] is used *)
  DOCKER_CPU_LIMIT : string
}.

Fixpoint last_char (s : string) : option ascii :=
  match s with
  | EmptyString => None
  | String c EmptyString => Some c
  | String _ s' => last_char s'
  end.

(** [os.path.join(a, b)] for a relative, non-empty [b] (every use in
    [Paths] joins a constant relative component). *)
Definition path_join (windows : bool) (a b : string) : string :=
  match last_char a with
  | None => b
  | Some c =>
      if windows then
        if Ascii.eqb c "\"%char || Ascii.eqb c "/"%char || Ascii.eqb c ":"%char then a +:+ b
        else a +:+ "\" +:+ b
      else
        if Ascii.eqb c "/"%char then a +:+ b else a +:+ "/" +:+ b
  end.

Definition VENV_DIR (w : bool) (c : Paths) : string :=
  path_join w (PROJECT_ROOT c) "venv".
Definition _venv_bin (w : bool) (c : Paths) : string :=
  if w then path_join w (VENV_DIR w c) "Scripts" else path_join w (VENV_DIR w c) "bin".
Definition PYTHON_EXE (w : bool) (c : Paths) : string :=
  path_join w (_venv_bin w c) (if w then "python.exe" else "python").
Definition CELERY_EXE (w : bool) (c : Paths) : string :=
  path_join w (_venv_bin w c) (if w then "celery.exe" else "celery").
Definition DAPHNE_EXE (w : bool) (c : Paths) : string :=
  path_join w (_venv_bin w c) (if w then "daphne.exe" else "daphne").
Definition FRONTEND_URL (c : Paths) : string :=
  "http://" +:+ FRONTEND_HOST c +:+ ":" +:+ pretty (FRONTEND_PORT c).
Definition CELERY_BEAT_SCHEDULE_PATH (w : bool) (c : Paths) : string :=
  path_join w (PROJECT_ROOT c) "celerybeat-schedule".

(** A launched process joins the list of processes; its [Popen] object
    is its index there. *)
Definition register_process (a : list string) (life : option Z) (code : Z)
    (td : option Z) : M popen_ref :=
  fun s =>
    (Returned (length (os s)),
     with_os (os s ++ [mkPopen a (option_map (Z.add (now s)) life) code td]) s).

(** ** The environment of the supervisor *)

Record Environment := mkEnv {
  IS_WINDOWS : bool;
  HAS_PSUTIL : bool;
  os_environ : environ;
  (* subprocess.Popen(args, cwd=..., env=...) *)
  launcher : nat -> list string -> string -> environ -> LaunchResult;
  (* socket.create_connection((host, port)) succeeds *)
  tcp_connect : nat -> string -> Z -> bool;
  (* the (pid, name, cmdline) rows psutil or lsof report for a port *)
  net_listeners : nat -> Z -> list (Z * string * string);
  path_exists : nat -> string -> bool;
  os_remove : nat -> string -> option Exn;
  tk_default_root : nat -> RootResult;
  askyesno : nat -> string -> string -> AskResult;
  psutil_terminate : nat -> Z -> option Exn;
  (* time spent in wait(timeout=3) and the exception it ends with, if any *)
  psutil_wait : nat -> Z -> Z * option Exn;
  psutil_kill : nat -> Z -> option Exn;
  os_kill : nat -> Z -> Z -> option Exn;
  (* conn.request("GET", path); conn.getresponse() *)
  http_get : nat -> string -> Z -> string -> HttpResult;
  (* the builtin int(str) *)
  py_int : string -> option Z
}.

(** ** Strings as the methods use them *)

Definition nl : string := String (Ascii.ascii_of_nat 10) EmptyString.

(** ASCII white space, as [str.strip()] removes it. *)
Definition is_space (c : ascii) : bool :=
  let n := nat_of_ascii c in
  (Nat.leb 9 n && Nat.leb n 13) || (Nat.leb 28 n && Nat.leb n 32).

Fixpoint lstrip (s : string) : string :=
  match s with
  | EmptyString => EmptyString
  | String c s' => if is_space c then lstrip s' else s
  end.

Fixpoint rstrip (s : string) : string :=
  match s with
  | EmptyString => EmptyString
  | String c s' =>
      match rstrip s' with
      | EmptyString => if is_space c then EmptyString else String c EmptyString
      | r => String c r
      end
  end.

Definition strip (s : string) : string := lstrip (rstrip s).

Fixpoint string_drop (n : nat) (s : string) : string :=
  match n, s with
  | O, _ => s
  | S n', String _ s' => string_drop n' s'
  | S _, EmptyString => EmptyString
  end.

(** [s.split(sep, 1)] for a non-empty [sep]: the text before and after
    the first occurrence of [sep], or [None] when [sep] does not occur
    (the list then has the single element [s]). *)
Fixpoint split_once (sep s : string) : option (string * string) :=
  if String.prefix sep s then Some (EmptyString, string_drop (String.length sep) s)
  else
    match s with
    | EmptyString => None
    | String c s' =>
        match split_once sep s' with
        | Some (a, b) => Some (String c a, b)
        | None => None
        end
    end.

(** [s.split(c)] for a one-character separator. *)
Fixpoint split_char (c : ascii) (s : string) : list string :=
  match s with
  | EmptyString => [EmptyString]
  | String x s' =>
      let r := split_char c s' in
      if Ascii.eqb x c then EmptyString :: r
      else
        match r with
        | h :: t => String x h :: t
        | [] => [String x EmptyString]
        end
  end.

(** [d[k] = v] on an environment mapping. *)
Fixpoint environ_set (k v : string) (ev : environ) : environ :=
  match ev with
  | [] => [(k, v)]
  | (k0, v0) :: ev' =>
      if String.eqb k0 k then (k0, v) :: ev' else (k0, v0) :: environ_set k v ev'
  end.

(** The pending timer that fires first (the older one on a tie), and
    the timers that stay pending. *)
Fixpoint pop_earliest (ts : list (Z * TimerAction))
    : option ((Z * TimerAction) * list (Z * TimerAction)) :=
  match ts with
  | [] => None
  | x :: r =>
      match pop_earliest r with
      | None => Some (x, [])
      | Some (y, r') => if fst y <? fst x then Some (y, x :: r') else Some (x, r)
      end
  end.

(** The loop that keeps the first row of every pid. *)
Fixpoint dedup_pids (seen : list Z) (rows : list (Z * string * string))
    : list (Z * string * string) :=
  match rows with
  | [] => []
  | (pid, nm, cmd) :: rows' =>
      if existsb (Z.eqb pid) seen then dedup_pids seen rows'
      else (pid, nm, cmd) :: dedup_pids (pid :: seen) rows'
  end.

Section Controller.

Variable E : Environment.
Variable cfg : Paths.
(** The two optional callbacks of the constructor; [Some e] is the
    exception the call ends with. *)
Variable status_callback : option (nat -> string -> ProcessStatus -> option Exn).
Variable notify_callback : option (nat -> string -> string -> option Exn).

(** [self.log(line)]: the sink receives the time stamp and the line. *)
Definition log (line : string) : M unit :=
  t ← gets now; emit (UiLog t line "INFO").

(** [if self.status_callback: self.status_callback(key, proc.status)] *)
Definition call_status (key : string) (l : loc) : M unit :=
  match status_callback with
  | None => ret tt
  | Some cb =>
      h ← deref l;
      n ← ask;
      emit (StatusCb key (status h)) ;;
      match cb n key (status h) with
      | Some e => raise e
      | None => ret tt
      end
  end.

(** [if self.notify_callback: self.notify_callback(msg, sev)] *)
Definition call_notify (msg sev : string) : M unit :=
  match notify_callback with
  | None => ret tt
  | Some cb =>
      n ← ask;
      emit (NotifyCb msg sev) ;;
      match cb n msg sev with
      | Some e => raise e
      | None => ret tt
      end
  end.

(** [subprocess.Popen(args, cwd=cwd, env=env, ...)] *)
Definition Popen_init (a : list string) (d : string) (ev : environ) : M popen_ref :=
  n ← ask;
  emit (PopenCall a d) ;;
  match launcher E n a d ev with
  | LaunchFails e => raise e
  | Launched life code td => register_process a life code td
  end.

(** [key in self.procs and self.procs[key].p and
     self.procs[key].p.poll() is None] *)
Definition tracked_live (key : string) : M bool :=
  t ← gets procs;
  match tbl_get key t with
  | None => ret false
  | Some l =>
      h ← deref l;
      match p h with
      | None => ret false
      | Some pp =>
          r ← poll pp;
          ret (match r with None => true | Some _ => false end)
      end
  end.

(** The closing [with self.lock:] block of [_spawn]. *)
Definition commit_running (key : string) (l : loc) (pp : popen_ref) : M unit :=
  update l (with_p (Some pp)) ;;
  update l (with_status RUNNING) ;;
  modify (fun s => with_procs (tbl_set key l (procs s)) s).

(** The [try: ... except FileNotFoundError as e: ...] statement of
    [_spawn]: the reference of the launched process, or [None] when the
    handler ran (it ends with [return]). *)
Definition try_launch (key : string) (l : loc) (proc : Proc) : M (option popen_ref) :=
  catch
    (pp ← Popen_init (args proc) (cwd proc) (env proc);
     t ← gets now;
     update l (with_start_time (Some t)) ;;
     ret (Some pp))
    (fun e =>
       match e with
       | FileNotFoundError msg => Some (
           log ("ERROR: " +:+ name proc +:+ " not found: " +:+ msg) ;;
           update l (with_status FAILED) ;;
           update l (with_last_error (Some msg)) ;;
           call_status key l ;;
           call_notify (name proc +:+ " failed to start") "error" ;;
           ret None)
       | _ => None
       end).

(** [_spawn] after its early return: the launch and what follows
    it. *)
Definition launch_and_track (key : string) (l : loc) (proc : Proc) : M unit :=
  update l (with_status STARTING) ;;
  call_status key l ;;
  log ("Starting " +:+ name proc +:+ "…") ;;
  launched ← try_launch key l proc;
  match launched with
  | None => ret tt
  | Some pp =>
      start_thread (Pump pp (name proc)) ;;
      commit_running key l pp ;;
      call_status key l ;;
      call_notify (name proc +:+ " started successfully") "success"
  end.

Definition _spawn (key : string) (l : loc) : M unit :=
  live ← tracked_live key;
  proc ← deref l;
  if live then log (name proc +:+ " already running.")
  else launch_and_track key l proc.

(** [for _ in range(n): if proc.p.poll() is not None: break;
     time.sleep(0.2)] *)
Fixpoint wait_exit (n : nat) (pp : popen_ref) : M unit :=
  match n with
  | O => ret tt
  | S n' =>
      r ← poll pp;
      match r with
      | Some _ => ret tt
      | None => sleep 200 ;; wait_exit n' pp
      end
  end.

(** The body of [if proc.p.poll() is None:] in [_terminate]. *)
Definition graceful_stop (nm : string) (pp : popen_ref) : M unit :=
  log ("Stopping " +:+ nm +:+ "…") ;;
  suppress (popen_terminate pp) ;;
  wait_exit 20 pp ;;
  r ← poll pp;
  match r with
  | None => suppress (popen_kill pp)
  | Some _ => ret tt
  end ;;
  log (nm +:+ " stopped.").

(** The closing [with self.lock:] block of [_terminate]. *)
Definition commit_stopped (key : string) (l : loc) : M unit :=
  update l (with_status STOPPED) ;;
  call_status key l ;;
  modify (fun s => with_procs (tbl_pop key (procs s)) s).

Definition _terminate (key : string) : M unit :=
  t ← gets procs;
  match tbl_get key t with
  | None => ret tt
  | Some l =>
      proc ← deref l;
      match p proc with
      | None => ret tt
      | Some pp =>
          r ← poll pp;
          match r with
          | None => graceful_stop (name proc) pp
          | Some _ => ret tt
          end ;;
          commit_stopped key l
      end
  end.

(** [socket.create_connection] succeeds, or [OSError] is caught. *)
Definition _tcp_open (host : string) (port : Z) (timeout : Z) : M bool :=
  n ← ask; ret (tcp_connect E n host port).

(** The rows psutil (or the lsof fallback) reports, without repeated
    pids; the environment supplies the rows as the code collects them. *)
Definition _find_pids_on_port (port : Z) : M (list (Z * string * string)) :=
  n ← ask; ret (dedup_pids [] (net_listeners E n port)).

(** [psutil.Process(pid).terminate()] *)
Definition ps_terminate (pid : Z) : M unit :=
  n ← ask;
  emit (ForeignSignal pid 15) ;;
  match psutil_terminate E n pid with
  | Some e => raise e
  | None => ret tt
  end.

(** [psutil.Process(pid).wait(timeout=3)] *)
Definition ps_wait (pid : Z) : M unit :=
  n ← ask;
  modify (fun s => with_now (now s + Z.max 0 (Z.min 3000 (fst (psutil_wait E n pid)))) s) ;;
  match snd (psutil_wait E n pid) with
  | Some e => raise e
  | None => ret tt
  end.

(** [psutil.Process(pid).kill()] *)
Definition ps_kill (pid : Z) : M unit :=
  n ← ask;
  emit (ForeignSignal pid 9) ;;
  match psutil_kill E n pid with
  | Some e => raise e
  | None => ret tt
  end.

(** [os.kill(pid, sig)] *)
Definition kill_signal (pid sig : Z) : M unit :=
  n ← ask;
  emit (ForeignSignal pid sig) ;;
  match os_kill E n pid sig with
  | Some e => raise e
  | None => ret tt
  end.

(** The body of the loop over the conflicting processes; the result
    tells whether [killed_any] was set. *)
Definition terminate_pid (port : Z) (row : Z * string * string) : M bool :=
  catch
    ((if HAS_PSUTIL E then
        ps_terminate (fst (fst row)) ;;
        catch (ps_wait (fst (fst row))) (fun _ => Some (ps_kill (fst (fst row))))
      else
        kill_signal (fst (fst row)) 15 ;;
        sleep 1000 ;;
        suppress (kill_signal (fst (fst row)) 0 ;; kill_signal (fst (fst row)) 9)) ;;
     log ("Terminated PID " +:+ pretty (fst (fst row)) +:+ " (" +:+ snd (fst row)
          +:+ ") holding port " +:+ pretty port) ;;
     ret true)
    (fun e => Some (
       log ("Failed to terminate PID " +:+ pretty (fst (fst row)) +:+ ": " +:+ exn_str e) ;;
       ret false)).

Fixpoint terminate_pids (port : Z) (pids : list (Z * string * string)) : M bool :=
  match pids with
  | [] => ret false
  | row :: rest =>
      k ← terminate_pid port row;
      ks ← terminate_pids port rest;
      ret (k || ks)
  end.

Definition conflict_details (pids : list (Z * string * string)) : string :=
  String.concat nl
    (map (fun row => strip ("PID " +:+ pretty (fst (fst row)) +:+ " - "
                            +:+ snd (fst row) +:+ "  " +:+ snd row)) pids).

Definition conflict_msg (port : Z) (pids : list (Z * string * string))
    (service_name : string) : string :=
  "Port " +:+ pretty port +:+ " required by " +:+ service_name
  +:+ " is already in use." +:+ nl +:+ nl
  +:+ "The following process(es) are listening on this port:" +:+ nl +:+ nl
  +:+ conflict_details pids +:+ nl +:+ nl
  +:+ "Do you want to terminate them now?".

(** The confirmation step: [answer] is true only when a Tk root exists
    and [messagebox.askyesno] returned true. *)
Definition confirm_kill (msg : string) : M bool :=
  n ← ask;
  match tk_default_root E n with
  | HasRoot =>
      n' ← ask;
      emit (AskYesNo "Port In Use" msg (askyesno E n' "Port In Use" msg)) ;;
      ret (match askyesno E n' "Port In Use" msg with
           | Answer b => b
           | AskRaises _ => false
           end)
  | NoRoot | RootRaises _ =>
      log msg ;; ret false
  end.

Definition _prompt_kill_pids (port : Z) (pids : list (Z * string * string))
    (service_name : string) : M bool :=
  match pids with
  | [] => ret false
  | _ :: _ =>
      answer ← confirm_kill (conflict_msg port pids service_name);
      if negb answer then ret false
      else terminate_pids port pids
  end.

Definition check_port_conflict (port : Z) (service_name : string) : M bool :=
  o ← _tcp_open "127.0.0.1" port 200;
  if o then
    log ("⚠️ Port " +:+ pretty port +:+ " is already in use! " +:+ service_name
         +:+ " may fail to start.") ;;
    call_notify ("⚠️ Port " +:+ pretty port +:+ " is already in use! " +:+ service_name
                 +:+ " may fail to start.") "warning" ;;
    pids ← _find_pids_on_port port;
    match pids with
    | [] => ret true
    | _ :: _ =>
        _prompt_kill_pids port pids service_name ;;
        o' ← _tcp_open "127.0.0.1" port 200;
        if o' then ret true
        else log ("Port " +:+ pretty port +:+ " has been freed. Continuing…") ;; ret false
    end
  else ret false.

(** The status test of [_http_ok]. *)
Definition status_ok (st : Z) : bool := (200 <=? st) && (st <? 500).

(** The pieces [_http_ok] cuts a URL into: host, port text and path. *)
Definition url_parts (url : string) : Outcome (string * string * string) :=
  match split_once "//" url with
  | None => Raised (IndexError "list index out of range")
  | Some (_, rest) =>
      let host_port :=
        match split_once "/" rest with
        | Some (a, _) => a
        | None => rest
        end in
      match split_char ":" host_port with
      | [host; port] =>
          match split_once host_port url with
          | None => Raised (IndexError "list index out of range")
          | Some (_, EmptyString) => Returned (host, port, "/")
          | Some (_, path) => Returned (host, port, path)
          end
      | _ => Raised (ValueError "not enough or too many values to unpack")
      end
  end.

Definition _http_ok (url : string) (timeout : Z) : M bool :=
  catch
    (match url_parts url with
     | Raised e => raise e
     | Returned (host, port, path) =>
         match py_int E port with
         | None => raise (ValueError "invalid literal for int()")
         | Some pn =>
             n ← ask;
             match http_get E n host pn path with
             | HttpFails e => raise e
             | Response st => ret (status_ok st)
             end
         end
     end)
    (fun _ => Some (ret false)).

(** ** Starting the services *)

(** [Proc(name, args, cwd, env, auto_restart)] with
    [self.env = env or os.environ.copy()]. *)
Definition make_proc (nm : string) (a : list string) (d : string)
    (ev : option environ) (ar : bool) : M loc :=
  new_proc (Proc_init nm a d
              (match ev with
               | Some (x :: r) => x :: r
               | Some [] | None => os_environ E
               end) ar).

Definition migrate_db : M unit :=
  log "Running Django migrations…" ;;
  l ← make_proc "migrate"
        [PYTHON_EXE (IS_WINDOWS E) cfg;
         path_join (IS_WINDOWS E) (PROJECT_ROOT cfg) "manage.py";
         "migrate"; "--noinput"]
        (PROJECT_ROOT cfg) None false;
  _spawn "migrate" l.

(** [for _ in range(n): if self._tcp_open(...): log; return;
     time.sleep(0.25)]; the result tells whether Redis answered. *)
Fixpoint wait_redis (n : nat) : M bool :=
  match n with
  | O => ret false
  | S n' =>
      o ← _tcp_open (REDIS_HOST cfg) (REDIS_PORT cfg) 500;
      if o then log "Redis is up." ;; ret true
      else sleep 250 ;; wait_redis n'
  end.

Definition ensure_redis : M unit :=
  o ← _tcp_open (REDIS_HOST cfg) (REDIS_PORT cfg) 500;
  if o then
    log ("Redis already available at " +:+ REDIS_HOST cfg +:+ ":"
         +:+ pretty (REDIS_PORT cfg) +:+ ".")
  else
    docker ← (if String.eqb (DOCKER_EXE cfg) "" then ret false
              else n ← ask; ret (path_exists E n (DOCKER_EXE cfg)));
    if negb docker then
      log "Redis not detected and DOCKER_EXE not configured/exists. Start Redis manually."
    else
      log "Redis not detected; attempting to launch Docker Redis…" ;;
      l ← make_proc "redis(docker)"
            [DOCKER_EXE cfg; "run"; "--rm"; "-d";
             "--name"; REDIS_DOCKER_NAME cfg;
             "-p"; pretty (REDIS_PORT cfg) +:+ ":6379";
             "--memory"; DOCKER_MEMORY_LIMIT cfg;
             "--cpus"; DOCKER_CPU_LIMIT cfg;
             "redis:7"]
            (PROJECT_ROOT cfg) None false;
      _spawn "redis_docker" l ;;
      up ← wait_redis 40;
      if up then ret tt
      else log "WARNING: Redis still not reachable. Check logs or start your service manually.".

Definition start_daphne : M unit :=
  check_port_conflict (DAPHNE_PORT cfg) "Daphne" ;;
  l ← make_proc "daphne"
        [DAPHNE_EXE (IS_WINDOWS E) cfg; DJANGO_ASGI_APP cfg;
         "--port"; pretty (DAPHNE_PORT cfg);
         "--bind"; DAPHNE_HOST cfg]
        (PROJECT_ROOT cfg)
        (Some (environ_set "PYTHONUNBUFFERED" "1" (os_environ E))) true;
  _spawn "daphne" l ;;
  start_thread Waiter.

Definition start_celery_beat : M unit :=
  catch
    (n ← ask;
     if path_exists E n (CELERY_BEAT_SCHEDULE_PATH (IS_WINDOWS E) cfg) then
       n' ← ask;
       emit (Removed (CELERY_BEAT_SCHEDULE_PATH (IS_WINDOWS E) cfg)) ;;
       match os_remove E n' (CELERY_BEAT_SCHEDULE_PATH (IS_WINDOWS E) cfg) with
       | Some e => raise e
       | None => ret tt
       end
     else ret tt)
    (fun e => Some (log ("WARNING: could not remove old beat schedule: " +:+ exn_str e))) ;;
  l ← make_proc "celery-beat"
        [CELERY_EXE (IS_WINDOWS E) cfg; "-A"; "scanner_backend.celery:app";
         "beat"; "-l"; "info"; "-s"; CELERY_BEAT_SCHEDULE_PATH (IS_WINDOWS E) cfg]
        (PROJECT_ROOT cfg) None true;
  _spawn "celery_beat" l.

Definition start_celery_worker : M unit :=
  l ← make_proc "celery-worker"
        ([CELERY_EXE (IS_WINDOWS E) cfg; "-A"; "scanner_backend.celery:app"; "worker";
          "-Q"; CELERY_QUEUE cfg; "-l"; "info";
          "-P"; CELERY_POOL cfg; "-c"; pretty (CELERY_CONCURRENCY cfg)]
         ++ (if String.eqb (CELERY_POOL cfg) "eventlet"
                || String.eqb (CELERY_POOL cfg) "gevent"
             then ["--without-gossip"; "--without-mingle"; "--without-heartbeat"]
             else []))
        (PROJECT_ROOT cfg) None true;
  _spawn "celery_worker" l.

(** The port check of [start_frontend]; the result tells whether the
    stage goes on to spawn. *)
Definition frontend_port_clear : M bool :=
  o ← _tcp_open "127.0.0.1" (FRONTEND_PORT cfg) 200;
  if o then
    log ("⚠️ Frontend port " +:+ pretty (FRONTEND_PORT cfg)
         +:+ " is already in use by another process.") ;;
    call_notify ("Frontend port " +:+ pretty (FRONTEND_PORT cfg) +:+ " already in use")
                "warning" ;;
    pids ← _find_pids_on_port (FRONTEND_PORT cfg);
    match pids with
    | [] => log "Could not identify process on port. Aborting frontend start." ;; ret false
    | _ :: _ =>
        killed ← _prompt_kill_pids (FRONTEND_PORT cfg) pids "Frontend";
        if killed then
          sleep 1000 ;;
          o' ← _tcp_open "127.0.0.1" (FRONTEND_PORT cfg) 200;
          if o' then log "Port still in use. Aborting frontend start." ;; ret false
          else ret true
        else log "Port conflict not resolved. Aborting frontend start." ;; ret false
    end
  else ret true.

Definition start_frontend : M unit :=
  live ← tracked_live "frontend";
  if live then log "Frontend is already running (managed)."
  else
    clear ← frontend_port_clear;
    if clear then
      l ← make_proc "frontend"
            [NPM_EXE cfg; "run"; "dev"; "--";
             "--port"; pretty (FRONTEND_PORT cfg);
             "--strictPort";
             "--host"; FRONTEND_HOST cfg]
            (FRONTEND_DIR cfg) None true;
      _spawn "frontend" l ;;
      if AUTO_OPEN_BROWSER cfg then start_thread Opener else ret tt
    else ret tt.

(** ** Orchestration *)

Definition start_backend : M unit :=
  ensure_redis ;;
  (if String.eqb (MIGRATION_POLICY cfg) "always"
   then migrate_db ;; sleep 1000
   else ret tt) ;;
  start_timer 1000 CallStartDaphne ;;
  start_timer 1500 CallStartCeleryBeat ;;
  start_timer 2000 CallStartCeleryWorker.

Definition start_all : M unit :=
  start_backend ;;
  start_timer 3000 CallStartFrontend.

(** The list [order] of [stop_all]. *)
Definition order : list string :=
  ["frontend"; "celery_worker"; "celery_beat"; "daphne"; "redis_docker"; "migrate"].

(** One turn of the loop of [stop_all]. *)
Definition stop_one (key : string) : M unit :=
  catch (_terminate key ;; sleep 500)
        (fun e => Some (log ("Error stopping " +:+ key +:+ ": " +:+ exn_str e))).

(** The function [worker] of [stop_all]. *)
Definition worker : M unit :=
  log "Stopping all services…" ;;
  for_each order stop_one ;;
  sleep 1000 ;;
  o ← _tcp_open "127.0.0.1" (FRONTEND_PORT cfg) 200;
  (if o then log ("⚠️ Warning: Frontend port " +:+ pretty (FRONTEND_PORT cfg)
                  +:+ " still in use after stop")
   else ret tt) ;;
  o' ← _tcp_open "127.0.0.1" (DAPHNE_PORT cfg) 200;
  (if o' then log ("⚠️ Warning: Daphne port " +:+ pretty (DAPHNE_PORT cfg)
                   +:+ " still in use after stop")
   else ret tt) ;;
  log "All services stopped.".

Definition stop_all : M unit := start_thread StopWorker.

(** ** The health monitor *)

Definition _restart_proc (key : string) : M unit :=
  t ← gets procs;
  match tbl_get key t with
  | None => ret tt
  | Some _ =>
      if String.eqb key "daphne" then start_daphne
      else if String.eqb key "celery_beat" then start_celery_beat
      else if String.eqb key "celery_worker" then start_celery_worker
      else if String.eqb key "frontend" then start_frontend
      else ret tt
  end.

(** The body of the loop [for key, proc in list(self.procs.items())].
    The loop variable [key] is the one the timer callback
    [lambda: self._restart_proc(key)] reads when it runs. *)
Definition check_proc (key : string) (l : loc) : M unit :=
  modify (with_monitor_key (Some key)) ;;
  proc ← deref l;
  crashed ← match p proc with
            | None => ret None
            | Some pp =>
                r ← poll pp;
                ret (match r with
                     | Some rc => if status_eqb (status proc) RUNNING then Some rc else None
                     | None => None
                     end)
            end;
  match crashed with
  | Some rc =>
      update l (with_status FAILED) ;;
      update l (with_last_error (Some ("Exited with code " +:+ pretty rc))) ;;
      log ("⚠️ " +:+ name proc +:+ " crashed!") ;;
      call_notify (name proc +:+ " stopped unexpectedly") "error" ;;
      if auto_restart proc && (restart_count proc <? 3) then
        update l (with_restart_count (restart_count proc + 1)) ;;
        log ("🔄 Auto-restarting " +:+ name proc +:+ " (attempt "
             +:+ pretty (restart_count proc + 1) +:+ "/3)...") ;;
        start_timer 2000 CallRestartKey
      else ret tt
  | None => ret tt
  end ;;
  call_status key l.

(** One turn of the loop of [monitor]: the sleep and the pass over a
    snapshot of the table. *)
Definition monitor_tick : M unit :=
  sleep 2000 ;;
  t ← gets procs;
  for_each t (fun kl => check_proc (fst kl) (snd kl)).

(** [while not self._stop_monitoring: ...], for at most [fuel] turns. *)
Fixpoint monitor (fuel : nat) : M unit :=
  match fuel with
  | O => ret tt
  | S fuel' =>
      stop ← gets _stop_monitoring;
      if stop then ret tt else monitor_tick ;; monitor fuel'
  end.

(** ** Timers *)

Definition run_timer (a : TimerAction) : M unit :=
  match a with
  | CallStartDaphne => start_daphne
  | CallStartCeleryBeat => start_celery_beat
  | CallStartCeleryWorker => start_celery_worker
  | CallStartFrontend => start_frontend
  | CallRestartKey =>
      k ← gets monitor_key;
      match k with
      | Some key => _restart_proc key
      | None => ret tt
      end
  end.

(** The pending timer that is due first fires; the clock moves to its
    due time when that lies ahead.  The callback runs on a thread of its
    own, so an exception ends that thread only. *)
Definition fire_next : M unit := fun s =>
  match pop_earliest (timers s) with
  | None => (Returned tt, s)
  | Some ((t, a), rest) =>
      suppress (run_timer a) (with_timers rest (with_now (Z.max (now s) t) s))
  end.

(** ** The states the supervisor can be in *)

(** What can happen to a controller: a call of one of its methods by
    the user interface, one turn of the monitor loop, or a timer that
    fires.  [DoSpawn] stands for any caller of [_spawn], which builds
    the [Proc] object it passes. *)
Inductive Op :=
| DoStartBackend
| DoStartAll
| DoStartFrontend
| DoMigrate
| DoStopWorker
| DoMonitorTick
| DoFireTimer
| DoSpawn (key nm : string) (a : list string) (d : string) (ev : option environ) (ar : bool)
| DoTerminate (key : string)
| DoStopMonitoring.

Definition run_op (o : Op) : M unit :=
  match o with
  | DoStartBackend => start_backend
  | DoStartAll => start_all
  | DoStartFrontend => start_frontend
  | DoMigrate => migrate_db
  | DoStopWorker => worker
  | DoMonitorTick => monitor_tick
  | DoFireTimer => fire_next
  | DoSpawn key nm a d ev ar => l ← make_proc nm a d ev ar; _spawn key l
  | DoTerminate key => _terminate key
  | DoStopMonitoring => modify (with_stop_monitoring true)
  end.

(** The state after a sequence of operations; an exception ends the
    operation it escapes from (a thread dies), not the controller. *)
Fixpoint run_ops (ops : list Op) (s : State) : State :=
  match ops with
  | [] => s
  | o :: ops' => run_ops ops' (snd (run_op o s))
  end.

Inductive reachable : State -> Prop :=
| reachable_init : reachable init_state
| reachable_step (o : Op) (s : State) : reachable s -> reachable (snd (run_op o s)).

End Controller.

(** ** Predicates of the specification *)

(** A table entry is in order when it names an object of the store
    that holds a [Popen] reference. *)
Definition tracked_ok (s : State) (kl : string * loc) : Prop :=
  (snd kl < length (heap s))%nat /\ p (heap s !!! snd kl) <> None.

(** The process table is a dictionary (no key twice) of entries in
    order. *)
Definition wf (s : State) : Prop :=
  List.NoDup (map fst (procs s)) /\ Forall (tracked_ok s) (procs s).

(** The number of sleeps of the polling loop of [_terminate]. *)
Fixpoint wait_rounds (n : nat) (t : Z) (o : Popen) : nat :=
  match n with
  | O => O
  | S n' =>
      match poll_at t o with
      | Some _ => O
      | None => S (wait_rounds n' (t + 200) o)
      end
  end.

(** The state after [k] sleeps of 0.2 s. *)
Definition slept (k : nat) (s : State) : State :=
  with_now (now s + 200 * Z.of_nat k) (with_trace (trace s ++ repeat (Slept 200) k) s).

Definition is_sleep (e : Event) : bool :=
  match e with Slept _ => true | _ => false end.

(** What [graceful_stop] adds to the trace when it starts at instant
    [t0], sleeps [k] times and does or does not kill. *)
Definition stop_events (nm : string) (pp : popen_ref) (t0 : Z) (k : nat) (killed : bool)
    : list Event :=
  [UiLog t0 ("Stopping " +:+ nm +:+ "…") "INFO"; SigTerm pp]
  ++ repeat (Slept 200) k
  ++ (if killed then [SigKill pp] else [])
  ++ [UiLog (t0 + 200 * Z.of_nat k) (nm +:+ " stopped.") "INFO"].

(** ** Relations between the state before and after a method *)

(** A method respects [R] when [R] relates every state to the state
    the method leaves, whether it returns or raises. *)
Definition respects (R : State -> State -> Prop) {A} (m : M A) : Prop :=
  forall s, R s (snd (m s)).

(** Neither the table nor the object store changes, and the
    environment is not asked less than before. *)
Definition same_table (s s' : State) : Prop :=
  procs s' = procs s /\ heap s' = heap s /\ (asked s <= asked s')%nat.

(** The table does not change. *)
Definition same_procs (s s' : State) : Prop :=
  procs s' = procs s /\ (asked s <= asked s')%nat.

(** The table stays in order and the store does not shrink, for a
    store that holds at least [v] objects. *)
Definition keeps_wf (v : nat) (s s' : State) : Prop :=
  (v <= length (heap s))%nat ->
  (wf s -> wf s') /\ (length (heap s) <= length (heap s'))%nat.

(** Only the objects in [ls] change. *)
Definition frame (ls : list nat) (s s' : State) : Prop :=
  forall l, ~ In l ls -> heap s' !!! l = heap s !!! l.

(** A method that never returns a value [Some _]. *)
Definition never_some {A} (m : M (option A)) : Prop :=
  forall s a, fst (m s) <> Returned (Some a).

(** A callback that returns normally whenever it is called (or no
    callback at all). *)
Definition status_quiet (cb : option (nat -> string -> ProcessStatus -> option Exn)) : Prop :=
  forall f, cb = Some f -> forall n key st, f n key st = None.

Definition notify_quiet (cb : option (nat -> string -> string -> option Exn)) : Prop :=
  forall f, cb = Some f -> forall n msg sev, f n msg sev = None.

(** From the consultation numbered [n0] on, the launcher answers every
    request for the command of [h] with the exception [e]. *)
Definition launch_fails_with (E : Environment) (n0 : nat) (h : Proc) (e : Exn) : Prop :=
  forall n, (n0 <= n)%nat -> launcher E n (args h) (cwd h) (env h) = LaunchFails e.

(** C3 as the specification states it: whatever the exception of the
    launch, [_spawn] returns normally with the handle Failed and the
    error recorded. *)
Definition spawn_captures_every_launch_failure : Prop :=
  forall (E : Environment) scb ncb (key : string) (l : loc) (s : State) (e : Exn),
    status_quiet scb -> notify_quiet ncb ->
    (l < length (heap s))%nat ->
    tracked_live key s = (Returned false, s) ->
    launch_fails_with E (asked s) (heap s !!! l) e ->
    fst (_spawn E scb ncb key l s) = Returned tt /\
    status (heap (snd (_spawn E scb ncb key l s)) !!! l) = FAILED /\
    last_error (heap (snd (_spawn E scb ncb key l s)) !!! l) = Some (exn_str e).

(** The process of handle [l] has exited while the handle says Running:
    what the monitor takes for a crash. *)
Definition crashed (s : State) (l : loc) : Prop :=
  exists pp rc,
    p (heap s !!! l) = Some pp /\ poll_in s pp = Some rc /\
    status (heap s !!! l) = RUNNING.

(** A handle that the turn of the monitor has to mark, or has marked. *)
Definition due (s : State) (l : loc) : Prop :=
  crashed s l \/ status (heap s !!! l) = FAILED.

(** Nothing the monitor looks at changes: table, store, clock and
    processes. *)
Definition still (s s' : State) : Prop :=
  procs s' = procs s /\ heap s' = heap s /\ now s' = now s /\ os s' = os s.

(** The clock and the processes stand still, no handle loses or changes
    its process reference, and a status changes to Failed only. *)
Definition marks (s s' : State) : Prop :=
  now s' = now s /\ os s' = os s /\
  length (heap s') = length (heap s) /\
  (forall l, p (heap s' !!! l) = p (heap s !!! l)) /\
  (forall l, status (heap s' !!! l) = status (heap s !!! l) \/
             status (heap s' !!! l) = FAILED).

(** A method that returns normally from every state. *)
Definition returns {A} (m : M A) : Prop :=
  forall s, exists a, fst (m s) = Returned a.

(** C4 as the specification states it: whatever happens while one
    service is processed, the turn of the monitor still checks the
    others, so every tracked handle whose process has exited while it
    was Running is Failed after the turn. *)
Definition tick_checks_every_service : Prop :=
  forall scb ncb (s : State) (key : string) (l : loc),
    wf s ->
    In (key, l) (procs s) ->
    crashed (snd (sleep 2000 s)) l ->
    status (heap (snd (monitor_tick scb ncb s)) !!! l) = FAILED.

(** A request to the operating system to signal a process that the
    supervisor does not own. *)
Definition is_foreign_signal (e : Event) : bool :=
  match e with ForeignSignal _ _ => true | _ => false end.

Definition is_yes (e : Event) : bool :=
  match e with AskYesNo _ _ (Answer true) => true | _ => false end.

(** Every signal to a foreign process comes after a yes of the
    confirmation prompt ([consent]: a yes came before [evs]). *)
Fixpoint guarded (consent : bool) (evs : list Event) : bool :=
  match evs with
  | [] => true
  | e :: evs' =>
      if is_yes e then guarded true evs'
      else if is_foreign_signal e then consent && guarded consent evs'
      else guarded consent evs'
  end.

(** The trace only grows. *)
Definition grows (s s' : State) : Prop :=
  exists evs : list Event, trace s' = (trace s ++ evs)%list.

(** The trace grows by events that signal no foreign process. *)
Definition harmless (s s' : State) : Prop :=
  exists evs : list Event,
    trace s' = (trace s ++ evs)%list /\ forallb (fun e => negb (is_foreign_signal e)) evs = true.

(** The trace grows by events in which every signal to a foreign
    process follows a yes. *)
Definition consented (s s' : State) : Prop :=
  exists evs : list Event, trace s' = (trace s ++ evs)%list /\ guarded false evs = true.

(** The status of the response [_http_ok] obtains for [url] in state
    [s], when it obtains one. *)
Definition http_response (E : Environment) (url : string) (s : State) : option Z :=
  match url_parts url with
  | Returned (host, port, path) =>
      match py_int E port with
      | Some pn =>
          match http_get E (asked s) host pn path with
          | Response st => Some st
          | HttpFails _ => None
          end
      | None => None
      end
  | Raised _ => None
  end.

(** C9 as the specification states it: reachable exactly when a
    response with a status under 500 is obtained. *)
Definition http_ok_iff_under_500 : Prop :=
  forall (E : Environment) (url : string) (timeout : Z) (s : State),
    fst (_http_ok E url timeout s) = Returned true <->
    exists st, http_response E url s = Some st /\ st < 500.

(** C10 as the specification states it: after a spawn that fails at
    launch, [_terminate] on the key does nothing. *)
Definition failed_launch_leaves_nothing_to_stop : Prop :=
  forall (E : Environment) (cfg : Paths) scb ncb (s : State) (key : string) (h : Proc),
    reachable E cfg scb ncb s ->
    (forall n, (asked s <= n)%nat ->
       exists e, launcher E n (args h) (cwd h) (env h) = LaunchFails e) ->
    let l := length (heap s) in
    let s1 := snd (_spawn E scb ncb key l (snd (new_proc h s))) in
    procs s1 = procs s /\
    (forall k, ~ In (k, l) (procs s1)) /\
    heap (snd (monitor_tick scb ncb s1)) !!! l = heap s1 !!! l /\
    _terminate scb key s1 = (Returned tt, s1).

(** ** Start and stop order *)

(** The keys of the stages in the order in which [start_all] starts
    them: [ensure_redis], [migrate_db], then the timers after 1.0, 1.5,
    2.0 and 3.0 seconds. *)
Definition pipeline : list string :=
  ["redis_docker"; "migrate"; "daphne"; "celery_beat"; "celery_worker"; "frontend"].

Fixpoint index_of (k : string) (l : list string) : option nat :=
  match l with
  | [] => None
  | x :: l' => if String.eqb x k then Some O else option_map S (index_of k l')
  end.

(** [a] and [b] both occur in [l], [a] first. *)
Definition before (a b : string) (l : list string) : bool :=
  match index_of a l, index_of b l with
  | Some i, Some j => Nat.ltb i j
  | _, _ => false
  end.

(** The keys the status callback was told are Starting, and Stopped,
    in the order of the calls. *)
Definition starting_keys (evs : list Event) : list string :=
  flat_map (fun e => match e with StatusCb k STARTING => [k] | _ => [] end) evs.

Definition stopped_keys (evs : list Event) : list string :=
  flat_map (fun e => match e with StatusCb k STOPPED => [k] | _ => [] end) evs.

Definition tracked (s : State) (key : string) : bool :=
  match tbl_get key (procs s) with Some _ => true | None => false end.

(** C2 as the specification states it, for the events of one run:
    whatever was started earlier is stopped later. *)
Definition stop_reverses_start (tr : list Event) : Prop :=
  forall A B, before A B (starting_keys tr) = true -> before B A (stopped_keys tr) = true.

(** ** The restart counter *)

(** The monitor has counted no restart on the handle, or it has counted
    one, at the moment it marked the handle Failed. *)
Definition counted_once (h : Proc) : Prop :=
  restart_count h = 0 \/ (restart_count h = 1 /\ status h <> RUNNING).

Definition counts_low (s : State) : Prop :=
  forall l, (l < length (heap s))%nat -> counted_once (heap s !!! l).

(** What every method but the monitor does to the counters: the objects
    of the store keep theirs, a new object starts at 0, and no object
    other than [l] becomes Running. *)
Definition leaves_counts (l : loc) (s s' : State) : Prop :=
  (length (heap s) <= length (heap s'))%nat /\
  (forall l', (l' < length (heap s))%nat ->
     restart_count (heap s' !!! l') = restart_count (heap s !!! l')) /\
  (forall l', (length (heap s) <= l' < length (heap s'))%nat ->
     restart_count (heap s' !!! l') = 0) /\
  (forall l', (l' < length (heap s))%nat -> l' <> l ->
     status (heap s' !!! l') = RUNNING -> status (heap s !!! l') = RUNNING).

(** The counters stay low. *)
Definition keeps_low (s s' : State) : Prop := counts_low s -> counts_low s'.

(** Only the log grows: store, timers and clock are as before. *)
Definition logs (s s' : State) : Prop :=
  heap s' = heap s /\ timers s' = timers s /\ now s' = now s /\
  exists tail : list Event, trace s' = (trace s ++ tail)%list.

(** What the monitor does to the handle [l] once it has marked it
    Failed: the handle stays Failed, and its counter keeps its value or
    becomes [c]. *)
Definition tallies (l : loc) (c : Z) (s s' : State) : Prop :=
  (status (heap s !!! l) = FAILED -> status (heap s' !!! l) = FAILED) /\
  (restart_count (heap s' !!! l) = restart_count (heap s !!! l) \/
   restart_count (heap s' !!! l) = c).

(** ** Concrete configurations, environments and runs *)

(** The defaults of the source ([DEFAULTS], POSIX). *)
Definition cfg_default : Paths :=
  mkPaths "/home/user/projects/scanner_backend" "/home/user/projects/scanner_frontend"
    "/usr/bin/npm" "/usr/bin/docker"
    "scanner_backend.asgi:application" "127.0.0.1" 8070
    "127.0.0.1" 5178 true
    "127.0.0.1" 6379 "local-redis-7"
    false "/api/schema/"
    "ingestion" "solo" 1
    "manual" "512m" "1.0".

(** The defaults with the migration policy "always". *)
Definition cfg_always : Paths :=
  mkPaths "/home/user/projects/scanner_backend" "/home/user/projects/scanner_frontend"
    "/usr/bin/npm" "/usr/bin/docker"
    "scanner_backend.asgi:application" "127.0.0.1" 8070
    "127.0.0.1" 5178 true
    "127.0.0.1" 6379 "local-redis-7"
    false "/api/schema/"
    "ingestion" "solo" 1
    "always" "512m" "1.0".

(** [int(s)] for a string of decimal digits. *)
Fixpoint decimal_value (acc : Z) (s : string) : option Z :=
  match s with
  | EmptyString => Some acc
  | String c s' =>
      let n := nat_of_ascii c in
      if Nat.leb 48 n && Nat.leb n 57
      then decimal_value (10 * acc + Z.of_nat (n - 48)) s'
      else None
  end.

Definition decimal_int (s : string) : option Z :=
  match s with
  | EmptyString => None
  | _ => decimal_value 0 s
  end.

(** A host without Windows, with psutil, where no port is open and no
    process listens; the launcher, the files, the Tk root, the answer of
    the prompt and the HTTP server are the parameters. *)
Definition host (launch : nat -> LaunchResult) (files : bool) (root : RootResult)
    (answer : AskResult) (http : HttpResult) : Environment :=
  mkEnv false true [("PATH", "/usr/bin")]
    (fun n _ _ _ => launch n)
    (fun _ _ _ => false)
    (fun _ _ => [])
    (fun _ _ => files)
    (fun _ _ => None)
    (fun _ => root)
    (fun _ _ _ => answer)
    (fun _ _ => None)
    (fun _ _ => (100, None))
    (fun _ _ => None)
    (fun _ _ _ => None)
    (fun _ _ _ _ => http)
    decimal_int.

Definition refused : HttpResult := HttpFails (OSError "[Errno 111] Connection refused").

(** Every launched process exits at once with status 1. *)
Definition env_crashing : Environment :=
  host (fun _ => Launched (Some 0) 1 (Some 0)) false NoRoot (Answer false) refused.

(** Every launched process runs until it is signalled and needs 0.1 s
    to exit on SIGTERM. *)
Definition env_steady : Environment :=
  host (fun _ => Launched None 0 (Some 100)) true NoRoot (Answer false) refused.

(** The executable is missing. *)
Definition env_missing : Environment :=
  host (fun _ => LaunchFails
          (FileNotFoundError "[Errno 2] No such file or directory: '/usr/bin/npm'"))
       false NoRoot (Answer false) refused.

(** The executable may not be executed. *)
Definition env_denied : Environment :=
  host (fun _ => LaunchFails (PermissionError "[Errno 13] Permission denied: '/usr/bin/npm'"))
       false NoRoot (Answer false) refused.

(** The executable disappears after the first launch. *)
Definition env_vanishing : Environment :=
  host (fun n => if Nat.leb n 1 then Launched (Some 0) 1 (Some 0)
                 else LaunchFails
                        (FileNotFoundError "[Errno 2] No such file or directory: '/usr/bin/npm'"))
       false NoRoot (Answer false) refused.

(** The server answers every request with the given status. *)
Definition env_http (st : Z) : Environment :=
  host (fun _ => Launched None 0 (Some 100)) true NoRoot (Answer false) (Response st).

(** A port is taken by a foreign process and there is no Tk root. *)
Definition env_conflict (root : RootResult) (answer : AskResult) : Environment :=
  mkEnv false true [("PATH", "/usr/bin")]
    (fun _ _ _ _ => Launched None 0 (Some 100))
    (fun _ _ _ => true)
    (fun _ _ => [(4242, "node", "node /usr/lib/node_modules/vite/bin/vite.js")])
    (fun _ _ => false)
    (fun _ _ => None)
    (fun _ => root)
    (fun _ _ _ => answer)
    (fun _ _ => None)
    (fun _ _ => (100, None))
    (fun _ _ => None)
    (fun _ _ _ => None)
    (fun _ _ _ _ => refused)
    decimal_int.

(** A notify callback that fails on every error notification. *)
Definition notify_failing : option (nat -> string -> string -> option Exn) :=
  Some (fun _ _ sev =>
          if String.eqb sev "error" then Some (RuntimeError "main thread is not in main loop")
          else None).

(** A status callback that returns normally. *)
Definition status_recording : option (nat -> string -> ProcessStatus -> option Exn) :=
  Some (fun _ _ _ => None).

(** The [Proc] object [start_frontend] builds for [cfg_default]. *)
Definition frontend_proc : Proc :=
  Proc_init "frontend"
    ["/usr/bin/npm"; "run"; "dev"; "--"; "--port"; "5178"; "--strictPort";
     "--host"; "127.0.0.1"]
    "/home/user/projects/scanner_frontend" [("PATH", "/usr/bin")] true.

(** The frontend is started by hand; then [n] times the monitor makes
    one turn and the restart timer fires. *)
Definition crash_loop (n : nat) : list Op :=
  DoStartFrontend :: concat (repeat [DoMonitorTick; DoFireTimer] n).

Definition is_popen_call (e : Event) : bool :=
  match e with PopenCall _ _ => true | _ => false end.

Definition is_restart_timer (e : Event) : bool :=
  match e with TimerStart _ CallRestartKey => true | _ => false end.

(** The frontend has crashed four times and has been restarted
    automatically each time; the process of the last launch has exited
    as well. *)
Definition restarted_four_times : State :=
  run_ops env_crashing cfg_default None None (crash_loop 4) init_state.

(** The state after the frontend was started by hand on [env_steady]. *)
Definition frontend_running : State :=
  run_ops env_steady cfg_default None None [DoStartFrontend] init_state.

(** Start Backend on [env_crashing] and the three timers: daphne,
    celery beat and celery worker are tracked and have all exited. *)
Definition backend_crashed : State :=
  run_ops env_crashing cfg_default None notify_failing
    [DoStartBackend; DoFireTimer; DoFireTimer; DoFireTimer] init_state.

(** The frontend was started once and has exited; the table still holds
    its handle. *)
Definition frontend_exited : State :=
  run_ops env_vanishing cfg_default None None [DoStartFrontend] init_state.

(** Start All, the four timers, then Stop All. *)
Definition full_run : State :=
  run_ops env_steady cfg_always status_recording None
    [DoStartAll; DoFireTimer; DoFireTimer; DoFireTimer; DoFireTimer; DoStopWorker]
    init_state.

(** * More of the supervisor, and the configuration code *)

(** ** Duration of a method *)

(** The method never moves the clock back and takes at most [d] ms,
    whether it returns or raises. *)
Definition lasts {A} (d : Z) (m : M A) : Prop :=
  forall s, now s <= now (snd (m s)) <= now s + d.

(** No handle changes its status, except to Stopped. *)
Definition stops (s s' : State) : Prop :=
  length (heap s') = length (heap s) /\
  forall l, status (heap s' !!! l) = status (heap s !!! l) \/
            status (heap s' !!! l) = STOPPED.

(** ** Launching *)

(** No process is launched and no [Proc] object is created or changed:
    the table, the store and the processes are as before, and the
    events that were added contain no call of [subprocess.Popen]. *)
Definition launches_nothing (s s' : State) : Prop :=
  procs s' = procs s /\ heap s' = heap s /\ os s' = os s /\
  exists evs : list Event,
    trace s' = (trace s ++ evs)%list /\ List.filter is_popen_call evs = [].

(** The callbacks and the log have spoken, nothing else has happened:
    table, store, processes, clock and timers are as before. *)
Definition reports (s s' : State) : Prop :=
  launches_nothing s s' /\ now s' = now s /\ timers s' = timers s /\
  (asked s <= asked s')%nat.

(** From the consultation numbered [n0] on, the launcher starts a
    process for the command of [h]. *)
Definition launch_succeeds_with (E : Environment) (n0 : nat) (h : Proc)
    (life : option Z) (code : Z) (td : option Z) : Prop :=
  forall n, (n0 <= n)%nat -> launcher E n (args h) (cwd h) (env h) = Launched life code td.

(** The handle after [_spawn] launched the process [pp] at instant [t]. *)
Definition mark_running (pp : popen_ref) (t : Z) (h : Proc) : Proc :=
  with_status RUNNING (with_p (Some pp) (with_start_time (Some t) (with_status STARTING h))).

(** ** Signals to foreign processes *)

(** The processes that were sent signal 15, in the order of the
    requests. *)
Definition term_signals (evs : list Event) : list Z :=
  flat_map (fun e => match e with ForeignSignal pid 15 => [pid] | _ => [] end) evs.

(** Whether it returns or raises, the method asks for signal 15 to be
    sent to the processes [ps], in this order, and to no other. *)
Definition sends_term (ps : list Z) {A} (m : M A) : Prop :=
  forall s, exists evs : list Event,
    trace (snd (m s)) = (trace s ++ evs)%list /\ term_signals evs = ps.

(** The [Proc] object [start_daphne] builds. *)
Definition daphne_proc (E : Environment) (cfg : Paths) : Proc :=
  Proc_init "daphne"
    [DAPHNE_EXE (IS_WINDOWS E) cfg; DJANGO_ASGI_APP cfg;
     "--port"; pretty (DAPHNE_PORT cfg);
     "--bind"; DAPHNE_HOST cfg]
    (PROJECT_ROOT cfg)
    (environ_set "PYTHONUNBUFFERED" "1" (os_environ E)) true.

(** ** The monitor *)

(** The loop variable [key] of the monitor keeps its value. *)
Definition same_key (s s' : State) : Prop := monitor_key s' = monitor_key s.

Definition is_status_cb (e : Event) : bool :=
  match e with StatusCb _ _ => true | _ => false end.

(** Nothing happens but calls of the status callback: the store, the
    timers and the clock are as before, nothing is logged and nobody is
    notified. *)
Definition only_status (s s' : State) : Prop :=
  heap s' = heap s /\ timers s' = timers s /\ now s' = now s /\ procs s' = procs s /\
  exists evs : list Event,
    trace s' = (trace s ++ evs)%list /\ forallb is_status_cb evs = true.

(** ** Orchestration *)

(** What the preflight of [start_backend] may do: no timer is started
    or cancelled, and no key of the table other than [redis_docker] and
    [migrate] changes. *)
Definition preflight (s s' : State) : Prop :=
  timers s' = timers s /\ now s <= now s' /\
  forall k, k <> "redis_docker" -> k <> "migrate" ->
    tbl_get k (procs s') = tbl_get k (procs s).

(** No timer is started and none is cancelled. *)
Definition same_timers (s s' : State) : Prop := timers s' = timers s.

(** * The configuration code *)

(** ** [Paths]: the OpenAPI URL *)

(** [Paths._normalized_rel] *)
Definition _normalized_rel (p : string) : string :=
  match p with
  | EmptyString => "/"
  | _ => if String.prefix "/" p then p else "/" +:+ p
  end.

Definition OPENAPI_URL (c : Paths) : string :=
  "http://" +:+ DAPHNE_HOST c +:+ ":" +:+ pretty (DAPHNE_PORT c)
  +:+ _normalized_rel (OPENAPI_REL c).

(** ** [ConfigManager._migrate] *)

(** The values [json.loads] produces.  A float is its exact value
    [num / den], or not finite (NaN, Infinity). *)
#[local] Unset Elimination Schemes.
Inductive Json :=
| JNull
| JBool (b : bool)
| JInt (n : Z)
| JFloat (num : Z) (den : positive)
| JNonFinite
| JStr (s : string)
| JList (l : list Json)
| JObj (l : list (string * Json)).
#[local] Set Elimination Schemes.

(** A [dict] with string keys, in insertion order. *)
Definition dict := list (string * Json).

Fixpoint dict_get (key : string) (d : dict) : option Json :=
  match d with
  | [] => None
  | (k, v) :: d' => if String.eqb k key then Some v else dict_get key d'
  end.

(** [d[key] = v]: an existing key keeps its position. *)
Fixpoint dict_set (key : string) (v : Json) (d : dict) : dict :=
  match d with
  | [] => [(key, v)]
  | (k, v0) :: d' =>
      if String.eqb k key then (k, v) :: d' else (k, v0) :: dict_set key v d'
  end.

(** The module constant [DEFAULTS]. *)
Definition DEFAULTS (windows : bool) : dict :=
  [("PROJECT_ROOT",
    JStr (if windows then "C:\path\to\scanner_backend"
          else "/home/user/projects/scanner_backend"));
   ("FRONTEND_DIR",
    JStr (if windows then "C:\path\to\scanner_frontend"
          else "/home/user/projects/scanner_frontend"));
   ("NPM_EXE",
    JStr (if windows then "C:\Program Files\nodejs\npm.cmd" else "/usr/bin/npm"));
   ("DOCKER_EXE",
    JStr (if windows then "C:\Program Files\Docker\Docker\resources\bin\docker.exe"
          else "/usr/bin/docker"));
   ("DJANGO_ASGI_APP", JStr "scanner_backend.asgi:application");
   ("DAPHNE_HOST", JStr "127.0.0.1");
   ("DAPHNE_PORT", JInt 8070);
   ("FRONTEND_HOST", JStr "127.0.0.1");
   ("FRONTEND_PORT", JInt 5178);
   ("AUTO_OPEN_BROWSER", JBool true);
   ("REDIS_HOST", JStr "127.0.0.1");
   ("REDIS_PORT", JInt 6379);
   ("REDIS_DOCKER_NAME", JStr "local-redis-7");
   ("FETCH_OPENAPI", JBool false);
   ("OPENAPI_REL", JStr "/api/schema/");
   ("CELERY_QUEUE", JStr "ingestion");
   ("CELERY_POOL", JStr "solo");
   ("CELERY_CONCURRENCY", JInt 1);
   ("MIGRATION_POLICY", JStr "manual");
   ("DOCKER_MEMORY_LIMIT", JStr "512m");
   ("DOCKER_CPU_LIMIT", JFloat 1 1)].

(** The keys [_migrate] converts with [int(...)]. *)
Definition int_keys : list string :=
  ["DAPHNE_PORT"; "FRONTEND_PORT"; "REDIS_PORT"; "CELERY_CONCURRENCY"].

(** What [urlparse(u)] gives for a string: [hostname], and [port] or
    the [ValueError] its property raises. *)
Record UrlParts := mkUrl {
  url_hostname : option string;
  url_port : Outcome (option Z)
}.

Section Migrate.

Variable windows : bool.
(** [int(s)] for a string, and [urlparse(s)] ([None]: it raises). *)
Variable py_int : string -> option Z.
Variable urlparse : string -> option UrlParts.

(** The builtin [int(v)]; [None] when it raises. *)
Definition int_of (v : Json) : option Z :=
  match v with
  | JInt n => Some n
  | JBool b => Some (if b then 1 else 0)
  | JFloat num den => Some (Z.quot num (Zpos den))
  | JStr s => py_int s
  | JNonFinite | JNull | JList _ | JObj _ => None
  end.

(** [for k in DEFAULTS.keys(): if k in data: migrated[k] = data[k]] *)
Definition copy_known (data migrated : dict) : dict :=
  fold_left
    (fun m k => match dict_get k data with
                | Some v => dict_set k v m
                | None => m
                end)
    (map fst (DEFAULTS windows)) migrated.

(** The block for the legacy key [FRONTEND_URL].  A value that is not
    a string leaves [migrated] alone: [urlparse] takes a falsy value
    for an empty URL and raises on any other. *)
Definition legacy_frontend_url (data migrated : dict) : dict :=
  match dict_get "FRONTEND_URL" data with
  | Some (JStr u) =>
      match urlparse u with
      | None => migrated
      | Some parts =>
          let m1 := match url_hostname parts with
                    | Some (String c h) => dict_set "FRONTEND_HOST" (JStr (String c h)) migrated
                    | Some EmptyString | None => migrated
                    end in
          match url_port parts with
          | Returned (Some pn) =>
              if pn =? 0 then m1 else dict_set "FRONTEND_PORT" (JInt pn) m1
          | Returned None | Raised _ => m1
          end
      end
  | _ => migrated
  end.

(** [try: migrated[k] = int(migrated[k])
     except Exception: migrated[k] = int(DEFAULTS[k])] *)
Definition ensure_int (migrated : dict) (k : string) : dict :=
  match match dict_get k migrated with Some v => int_of v | None => None end with
  | Some n => dict_set k (JInt n) migrated
  | None =>
      match match dict_get k (DEFAULTS windows) with Some v => int_of v | None => None end with
      | Some n => dict_set k (JInt n) migrated
      | None => migrated
      end
  end.

Definition valid_policy (v : option Json) : bool :=
  match v with
  | Some (JStr s) => String.eqb s "manual" || String.eqb s "always"
  | _ => false
  end.

Definition _migrate (data : dict) : dict :=
  let migrated := copy_known data (DEFAULTS windows) in
  let migrated := legacy_frontend_url data migrated in
  let migrated := fold_left ensure_int int_keys migrated in
  if valid_policy (dict_get "MIGRATION_POLICY" migrated) then migrated
  else dict_set "MIGRATION_POLICY" (JStr "manual") migrated.

End Migrate.

(** What [_migrate] guarantees of a configuration: exactly the keys of
    [DEFAULTS], in their order; integers under the four integer keys;
    a migration policy that is "manual" or "always". *)
Definition schema (windows : bool) (d : dict) : Prop :=
  map fst d = map fst (DEFAULTS windows) /\
  (forall k, In k int_keys -> exists n, dict_get k d = Some (JInt n)) /\
  valid_policy (dict_get "MIGRATION_POLICY" d) = true.

(** ** [ConfigDialog]: validation *)

(** The contents of the widgets of the dialog when Save is pressed. *)
Record Form := mkForm {
  e_backend : string;
  e_frontend : string;
  e_npm : string;
  e_docker : string;
  e_dhost : string;
  e_dport : string;
  e_fhost : string;
  e_fport : string;
  e_rhost : string;
  e_rport : string;
  e_cqueue : string;
  cb_cpool : string;
  e_cconc : string;
  cb_mig : string;
  var_fetch_openapi : bool;
  e_openapi_rel : string;
  var_auto_open : bool;
  e_docker_mem : string;
  e_docker_cpu : string
}.

(** [s or d] for strings. *)
Definition or_else (s d : string) : string :=
  match s with EmptyString => d | _ => s end.

(** [if bad: errs.append(msg)] *)
Definition report (bad : bool) (msg : string) (errs : list string) : list string :=
  if bad then (errs ++ [msg])%list else errs.

(** What [_save] ends with: the error dialog, or the call of [on_save]
    with the new configuration. *)
Inductive SaveResult :=
| Rejected (message : string)
| Saved (c : Paths).

Section Dialog.

Variable E : Environment.
(** [repr(s)] of a string. *)
Variable py_repr : string -> string.
(** [float(s)]: [None] when it raises, else whether the value is
    [<= 0], and its [str]. *)
Variable py_float : string -> option (bool * string).

(** [ConfigDialog._parse_port]; the second component is [errs] after
    the call. *)
Definition _parse_port (name value : string) (errs : list string) : Z * list string :=
  match py_int E value with
  | Some p =>
      if negb ((1 <=? p) && (p <=? 65535))
      then (0, errs ++ [name +:+ " must be an integer between 1 and 65535 (got "
                        +:+ py_repr value +:+ ")."])
      else (p, errs)
  | None => (0, errs ++ [name +:+ " must be an integer between 1 and 65535 (got "
                         +:+ py_repr value +:+ ")."])
  end%list.

(** [ConfigDialog._parse_int] *)
Definition _parse_int (name value : string) (min_v : Z) (errs : list string)
    : Z * list string :=
  match py_int E value with
  | Some v =>
      if v <? min_v
      then (0, errs ++ [name +:+ " must be an integer ≥ " +:+ pretty min_v +:+ " (got "
                        +:+ py_repr value +:+ ")."])
      else (v, errs)
  | None => (0, errs ++ [name +:+ " must be an integer ≥ " +:+ pretty min_v +:+ " (got "
                         +:+ py_repr value +:+ ")."])
  end%list.

(** [ConfigDialog._save]; [n0] numbers its first look at the file
    system. *)
Definition _save (f : Form) (n0 : nat) : SaveResult :=
  let w := IS_WINDOWS E in
  let proj := strip (e_backend f) in
  let fe := strip (e_frontend f) in
  let npm := strip (e_npm f) in
  let docker := strip (e_docker f) in
  let dhost := or_else (strip (e_dhost f)) "127.0.0.1" in
  let '(dport, errs) := _parse_port "Daphne Port" (strip (e_dport f)) [] in
  let fhost := or_else (strip (e_fhost f)) "127.0.0.1" in
  let '(fport, errs) := _parse_port "Frontend Port" (strip (e_fport f)) errs in
  let rhost := or_else (strip (e_rhost f)) "127.0.0.1" in
  let '(rport, errs) := _parse_port "Redis Port" (strip (e_rport f)) errs in
  let cqueue := or_else (strip (e_cqueue f)) "ingestion" in
  let cpool := or_else (strip (cb_cpool f)) "solo" in
  let '(cconc, errs) := _parse_int "Celery Concurrency" (strip (e_cconc f)) 1 errs in
  let mig_policy := or_else (strip (cb_mig f)) "manual" in
  let errs := report (negb (String.eqb mig_policy "manual" || String.eqb mig_policy "always"))
                "Migration Policy must be 'manual' or 'always'." errs in
  let openapi_rel := or_else (strip (e_openapi_rel f)) "/api/schema/" in
  let openapi_rel := if String.prefix "/" openapi_rel then openapi_rel
                     else "/" +:+ openapi_rel in
  let docker_mem := or_else (strip (e_docker_mem f)) "512m" in
  let docker_cpu_str := or_else (strip (e_docker_cpu f)) "1.0" in
  let '(docker_cpu, errs) :=
    match py_float docker_cpu_str with
    | Some (false, shown) => (shown, errs)
    | Some (true, _) | None =>
        ("1.0", errs ++ ["Docker CPU limit must be a positive number (got "
                         +:+ py_repr docker_cpu_str +:+ ")"])%list
    end in
  let errs := report (negb (path_exists E n0 proj)) ("PROJECT_ROOT not found: " +:+ proj) errs in
  let errs := report (negb (path_exists E (n0 + 1) fe)) ("FRONTEND_DIR not found: " +:+ fe) errs in
  let errs := report (negb (path_exists E (n0 + 2) npm)) ("NPM_EXE not found: " +:+ npm) errs in
  let venv_dir := path_join w proj "venv" in
  let venv_bin := path_join w venv_dir (if w then "Scripts" else "bin") in
  let py := path_join w venv_bin (if w then "python.exe" else "python") in
  let cel := path_join w venv_bin (if w then "celery.exe" else "celery") in
  let dph := path_join w venv_bin (if w then "daphne.exe" else "daphne") in
  let errs := report (negb (path_exists E (n0 + 3) py))
                ("Python venv not found: " +:+ py +:+ " (expected under PROJECT_ROOT/venv)")
                errs in
  let errs := report (negb (path_exists E (n0 + 4) cel))
                ("Celery executable not found: " +:+ cel) errs in
  let errs := report (negb (path_exists E (n0 + 5) dph))
                ("Daphne executable not found: " +:+ dph) errs in
  let pkg_json := path_join w fe "package.json" in
  let errs := report (negb (path_exists E (n0 + 6) pkg_json))
                ("package.json not found in FRONTEND_DIR: " +:+ fe) errs in
  let errs := report (String.eqb cpool "solo" && negb (cconc =? 1))
                "With Celery pool 'solo', concurrency must be 1." errs in
  match errs with
  | _ :: _ => Rejected ("Fix these issues:" +:+ nl +:+ nl +:+ String.concat nl errs)
  | [] =>
      Saved (mkPaths proj fe npm docker
               "scanner_backend.asgi:application" dhost dport
               fhost fport (var_auto_open f)
               rhost rport "local-redis-7"
               (var_fetch_openapi f) openapi_rel
               cqueue cpool cconc
               mig_policy docker_mem docker_cpu)
  end.

(** [App._sanity_check]: the text it appends to the log, and the text
    of the error dialog when it shows one; [n0] numbers its first look
    at the file system. *)
Definition _sanity_check (c : Paths) (show_dialog : bool) (n0 : nat)
    : string * option string :=
  let w := IS_WINDOWS E in
  let missing :=
    report (negb (path_exists E (n0 + 4) (path_join w (FRONTEND_DIR c) "package.json")))
      ("package.json not found in FRONTEND_DIR: " +:+ FRONTEND_DIR c)
      (report (negb (path_exists E (n0 + 3) (NPM_EXE c)))
         ("npm executable not found: " +:+ NPM_EXE c)
         (report (negb (path_exists E (n0 + 2) (DAPHNE_EXE w c)))
            ("Daphne executable not found: " +:+ DAPHNE_EXE w c)
            (report (negb (path_exists E (n0 + 1) (CELERY_EXE w c)))
               ("Celery executable not found: " +:+ CELERY_EXE w c)
               (report (negb (path_exists E n0 (PYTHON_EXE w c)))
                  ("Python venv executable not found: " +:+ PYTHON_EXE w c) [])))) in
  match missing with
  | _ :: _ =>
      let msg := "Config errors:" +:+ nl +:+ String.concat nl missing in
      (msg, if show_dialog then Some msg else None)
  | [] => ("Sanity checks passed ✅", None)
  end.

End Dialog.

(** * The background threads of the start methods *)

Section Threads.

Variable E : Environment.
Variable cfg : Paths.
(** [urllib.request.urlopen(url, timeout=5).read()] and
    [open(path, "wb").write(data)]; every consultation is numbered. *)
Variable url_fetch : nat -> string -> Outcome string.
Variable file_write : nat -> string -> string -> option Exn.

(** [StackController.fetch_openapi].  The result is the file it has
    written, with its contents, if any. *)
Definition fetch_openapi : M (option (string * string)) :=
  log "Fetching OpenAPI schema…" ;;
  catch
    (n ← ask;
     match url_fetch n (OPENAPI_URL cfg) with
     | Raised e => raise e
     | Returned data =>
         n' ← ask;
         match file_write n' (path_join (IS_WINDOWS E) (PROJECT_ROOT cfg) "openapi.json")
                 data with
         | Some e => raise e
         | None =>
             log ("OpenAPI saved → "
                  +:+ path_join (IS_WINDOWS E) (PROJECT_ROOT cfg) "openapi.json") ;;
             ret (Some (path_join (IS_WINDOWS E) (PROJECT_ROOT cfg) "openapi.json", data))
         end
     end)
    (fun e => Some (log ("OpenAPI fetch failed: " +:+ exn_str e) ;; ret None)).

(** The function [waiter] of [start_daphne], for [n] turns of its
    loop; the result is the file [fetch_openapi] has written, if any. *)
Fixpoint waiter_loop (n : nat) : M (option (string * string)) :=
  match n with
  | O => log "ERROR: Daphne did not become reachable in time." ;; ret None
  | S n' =>
      o ← _tcp_open E (DAPHNE_HOST cfg) (DAPHNE_PORT cfg) 500;
      if o then
        log ("Daphne reachable at http://" +:+ DAPHNE_HOST cfg +:+ ":"
             +:+ pretty (DAPHNE_PORT cfg)) ;;
        if FETCH_OPENAPI cfg && negb (String.eqb (OPENAPI_URL cfg) "")
        then fetch_openapi
        else ret None
      else sleep 500 ;; waiter_loop n'
  end.

Definition waiter : M (option (string * string)) := waiter_loop 120.

(** The function [opener] of [start_frontend], for [n] turns of its
    loop; the result tells whether [webbrowser.open] was called (what
    [webbrowser.open] itself returns is not used by the code). *)
Fixpoint opener_loop (n : nat) : M bool :=
  match n with
  | O => log "WARNING: Frontend URL did not become reachable in time." ;; ret false
  | S n' =>
      ok ← _http_ok E (FRONTEND_URL cfg) 500;
      if ok then
        opened ← gets _browser_opened;
        if negb opened then
          modify (with_browser_opened true) ;;
          log ("Opening browser → " +:+ FRONTEND_URL cfg) ;;
          ret true
        else ret false
      else sleep 500 ;; opener_loop n'
  end.

Definition opener : M bool := opener_loop 240.

End Threads.

(** The browser flag is not cleared. *)
Definition keeps_flag (s s' : State) : Prop :=
  _browser_opened s = true -> _browser_opened s' = true.

(** The [Proc] object [start_celery_beat] builds. *)
Definition beat_proc (E : Environment) (cfg : Paths) : Proc :=
  Proc_init "celery-beat"
    [CELERY_EXE (IS_WINDOWS E) cfg; "-A"; "scanner_backend.celery:app";
     "beat"; "-l"; "info"; "-s"; CELERY_BEAT_SCHEDULE_PATH (IS_WINDOWS E) cfg]
    (PROJECT_ROOT cfg) (os_environ E) true.

(** ** Inputs for the dialog and the threads *)

(** The form as the dialog shows it for the defaults. *)
Definition form_default : Form :=
  mkForm "/home/user/projects/scanner_backend" "/home/user/projects/scanner_frontend"
    "/usr/bin/npm" "/usr/bin/docker"
    "127.0.0.1" "8070" "127.0.0.1" "5178" "127.0.0.1" "6379"
    "ingestion" "solo" "1" "manual" false "api/schema/" true "512m" "1.0".

(** [repr] of a string without quotes or escapes. *)
Definition repr_plain (s : string) : string := "'" +:+ s +:+ "'".

(** [float] on the texts "1.0" and "0". *)
Definition float_sample (s : string) : option (bool * string) :=
  if String.eqb s "1.0" then Some (false, "1.0")
  else if String.eqb s "0" then Some (true, "0.0")
  else None.

(** The migration has been launched on [env_crashing] and has exited;
    its handle does not ask for a restart. *)
Definition migrate_exited : State :=
  run_ops env_crashing cfg_default None None [DoMigrate] init_state.

(** The schema is served, and the file can be written. *)
Definition fetch_sample (n : nat) (url : string) : Outcome string :=
  Returned "{}".
Definition write_sample (n : nat) (path data : string) : option Exn := None.

(** The defaults with [FETCH_OPENAPI] set. *)
Definition cfg_fetching : Paths :=
  mkPaths "/home/user/projects/scanner_backend" "/home/user/projects/scanner_frontend"
    "/usr/bin/npm" "/usr/bin/docker"
    "scanner_backend.asgi:application" "127.0.0.1" 8070
    "127.0.0.1" 5178 true
    "127.0.0.1" 6379 "local-redis-7"
    true "/api/schema/"
    "ingestion" "solo" 1
    "manual" "512m" "1.0".

(** [urlparse] on one URL with a host and a port; any other text has
    neither. *)
Definition urlparse_sample (u : string) : option UrlParts :=
  if String.eqb u "http://localhost:3000"
  then Some (mkUrl (Some "localhost") (Returned (Some 3000)))
  else Some (mkUrl None (Returned None)).

(** A configuration file of an older version. *)
Definition legacy_config : dict :=
  [("FRONTEND_URL", JStr "http://localhost:3000");
   ("DAPHNE_HOST", JStr "0.0.0.0");
   ("DAPHNE_PORT", JStr "9000");
   ("VENV_DIR", JStr ".venv")].

(** The old schedule file of Celery beat exists and may not be
    removed. *)
Definition env_stale : Environment :=
  mkEnv false true [("PATH", "/usr/bin")]
    (fun _ _ _ _ => Launched None 0 (Some 100))
    (fun _ _ _ => false)
    (fun _ _ => [])
    (fun _ _ => true)
    (fun _ _ => Some (PermissionError "[Errno 13] Permission denied: 'celerybeat-schedule'"))
    (fun _ => NoRoot)
    (fun _ _ _ => Answer false)
    (fun _ _ => None)
    (fun _ _ => (100, None))
    (fun _ _ => None)
    (fun _ _ _ => None)
    (fun _ _ _ _ => refused)
    decimal_int.

(** * Properties *)

(** ** The process table *)

Lemma tbl_get_In (key : string) (l : loc) (t : list (string * loc)) :
  tbl_get key t = Some l -> In (key, l) t.
Proof.
  induction t as [|[k l0] t IH]; simpl; [discriminate|].
  destruct (String.eqb_spec k key) as [->|_].
  - intros [= ->]. now left.
  - intros H. right. now apply IH.
Qed.

Lemma tbl_get_None (key : string) (t : list (string * loc)) :
  ~ In key (map fst t) -> tbl_get key t = None.
Proof.
  induction t as [|[k l0] t IH]; simpl; [reflexivity|].
  intros H. destruct (String.eqb_spec k key) as [->|_].
  - exfalso. apply H. now left.
  - apply IH. intros Hin. apply H. now right.
Qed.

Lemma tbl_pop_incl (key : string) (t : list (string * loc)) (x : string * loc) :
  In x (tbl_pop key t) -> In x t.
Proof.
  induction t as [|[k l0] t IH]; simpl; [tauto|].
  destruct (String.eqb k key); simpl; [tauto|].
  intros [H|H]; [now left|right; now apply IH].
Qed.

Lemma tbl_pop_keys (key k : string) (t : list (string * loc)) :
  In k (map fst (tbl_pop key t)) -> In k (map fst t).
Proof.
  rewrite !in_map_iff. intros [x [Hx Hin]]. exists x. split; [exact Hx|].
  eapply tbl_pop_incl; eassumption.
Qed.

Lemma tbl_pop_NoDup (key : string) (t : list (string * loc)) :
  List.NoDup (map fst t) -> List.NoDup (map fst (tbl_pop key t)).
Proof.
  induction t as [|[k l0] t IH]; simpl; [trivial|].
  intros H. apply List.NoDup_cons_iff in H as [Hk Ht].
  destruct (String.eqb k key); simpl; [exact Ht|].
  apply List.NoDup_cons_iff. split; [|now apply IH].
  intros Hin. apply Hk. eapply tbl_pop_keys; eassumption.
Qed.

Lemma tbl_get_pop (key : string) (t : list (string * loc)) :
  List.NoDup (map fst t) -> tbl_get key (tbl_pop key t) = None.
Proof.
  induction t as [|[k l0] t IH]; simpl; [reflexivity|].
  intros H. apply List.NoDup_cons_iff in H as [Hk Ht].
  destruct (String.eqb_spec k key) as [->|Hne].
  - now apply tbl_get_None.
  - simpl. destruct (String.eqb_spec k key); [contradiction|]. now apply IH.
Qed.

Lemma tbl_get_set (key : string) (l : loc) (t : list (string * loc)) :
  tbl_get key (tbl_set key l t) = Some l.
Proof.
  induction t as [|[k l0] t IH]; simpl.
  - now rewrite String.eqb_refl.
  - destruct (String.eqb_spec k key) as [->|Hne]; simpl.
    + now rewrite String.eqb_refl.
    + destruct (String.eqb_spec k key); [contradiction|exact IH].
Qed.

Lemma tbl_set_In (key : string) (l : loc) (t : list (string * loc)) (x : string * loc) :
  In x (tbl_set key l t) -> x = (key, l) \/ In x t.
Proof.
  induction t as [|[k l0] t IH]; simpl.
  - intros [H|[]]. now left.
  - destruct (String.eqb_spec k key) as [->|Hne]; simpl.
    + intros [H|H]; [now left|right; now right].
    + intros [H|H]; [right; now left|].
      destruct (IH H) as [?|?]; [now left|right; now right].
Qed.

Lemma tbl_set_keys (key k : string) (l : loc) (t : list (string * loc)) :
  In k (map fst (tbl_set key l t)) -> k = key \/ In k (map fst t).
Proof.
  rewrite !in_map_iff. intros [x [Hx Hin]].
  destruct (tbl_set_In _ _ _ _ Hin) as [->|H]; [left; now symmetry|].
  right. now exists x.
Qed.

Lemma tbl_set_NoDup (key : string) (l : loc) (t : list (string * loc)) :
  List.NoDup (map fst t) -> List.NoDup (map fst (tbl_set key l t)).
Proof.
  induction t as [|[k l0] t IH]; simpl.
  - intros _. apply List.NoDup_cons_iff. split; [intros []|constructor].
  - intros H. apply List.NoDup_cons_iff in H as [Hk Ht].
    destruct (String.eqb_spec k key) as [->|Hne]; simpl.
    + apply List.NoDup_cons_iff. now split.
    + apply List.NoDup_cons_iff. split; [|now apply IH].
      intros Hin.
      destruct (tbl_set_keys _ _ _ _ Hin) as [->|H]; [contradiction|].
      now apply Hk.
Qed.

Section Properties.

Variable E : Environment.
Variable cfg : Paths.
Variable status_callback : option (nat -> string -> ProcessStatus -> option Exn).
Variable notify_callback : option (nat -> string -> string -> option Exn).

(** ** spawn *)

(** C5. A second spawn for a key whose tracked handle holds a live OS
    process returns at once: nothing is launched, no handle and no table
    entry changes, and the only effect is the single line
    "<name> already running." in the log. *)
Theorem spawn_idempotent (key : string) (l l0 : loc) (pp : popen_ref) (s : State) :
  tbl_get key (procs s) = Some l0 ->
  p (heap s !!! l0) = Some pp ->
  poll_in s pp = None ->
  _spawn E status_callback notify_callback key l s =
    (Returned tt,
     with_trace
       (trace s ++ [UiLog (now s) (name (heap s !!! l) +:+ " already running.") "INFO"]) s).
Proof.
  intros Ht Hp Hlive.
  unfold _spawn, tracked_live, bind, gets, deref, poll, ret, log, emit, modify.
  rewrite Ht. simpl. rewrite Hp. simpl. rewrite Hlive. reflexivity.
Qed.

Lemma slept_0 (s : State) : slept 0 s = s.
Proof. destruct s. unfold slept. simpl. now rewrite Z.add_0_r, app_nil_r. Qed.

Lemma wait_exit_run (n : nat) (pp : popen_ref) (o : Popen) (s : State) :
  os s !! pp = Some o ->
  wait_exit n pp s = (Returned tt, slept (wait_rounds n (now s) o) s).
Proof.
  revert s. induction n as [|n IH]; intros s Ho.
  - simpl. now rewrite slept_0.
  - simpl. unfold bind, poll, gets, poll_in. rewrite Ho.
    destruct (poll_at (now s) o) eqn:Hp.
    + now rewrite slept_0.
    + unfold sleep, modify. rewrite IH by exact Ho. simpl. unfold slept. simpl.
      f_equal. unfold with_now, with_trace. simpl. f_equal; [lia|].
      now rewrite <- app_assoc.
Qed.

Lemma wait_rounds_le (n : nat) (t : Z) (o : Popen) : (wait_rounds n t o <= n)%nat.
Proof.
  revert t. induction n as [|n IH]; intros t; simpl; [lia|].
  destruct (poll_at t o); [lia|]. specialize (IH (t + 200)). lia.
Qed.

End Properties.

(** ** Running a method step by step *)

#[local] Arguments wait_rounds : simpl never.
#[local] Arguments wait_exit : simpl never.
#[local] Arguments poll_at : simpl never.
#[local] Arguments sigterm : simpl never.
#[local] Arguments sigkill : simpl never.
#[local] Arguments String.append : simpl never.

Lemma bind_ret {A B} (a : A) (k : A -> M B) (s : State) : bind (ret a) k s = k a s.
Proof. reflexivity. Qed.

Lemma bind_gets {A B} (f : State -> A) (k : A -> M B) (s : State) :
  bind (gets f) k s = k (f s) s.
Proof. reflexivity. Qed.

Lemma bind_modify {B} (f : State -> State) (k : unit -> M B) (s : State) :
  bind (modify f) k s = k tt (f s).
Proof. reflexivity. Qed.

Lemma bind_raise {A B} (e : Exn) (k : A -> M B) (s : State) :
  bind (raise e) k s = (Raised e, s).
Proof. reflexivity. Qed.

Lemma bind_emit {B} (e : Event) (k : unit -> M B) (s : State) :
  bind (emit e) k s = k tt (with_trace (trace s ++ [e]) s).
Proof. reflexivity. Qed.

Lemma bind_log {B} (line : string) (k : unit -> M B) (s : State) :
  bind (log line) k s = k tt (with_trace (trace s ++ [UiLog (now s) line "INFO"]) s).
Proof. reflexivity. Qed.

Lemma bind_sleep {B} (ms : Z) (k : unit -> M B) (s : State) :
  bind (sleep ms) k s
  = k tt (with_now (now s + ms) (with_trace (trace s ++ [Slept ms]) s)).
Proof. reflexivity. Qed.

Lemma bind_ask {B} (k : nat -> M B) (s : State) :
  bind ask k s = k (asked s) (with_asked (S (asked s)) s).
Proof. reflexivity. Qed.

Lemma bind_deref {B} (l : loc) (k : Proc -> M B) (s : State) :
  bind (deref l) k s = k (heap s !!! l) s.
Proof. reflexivity. Qed.

Lemma bind_update {B} (l : loc) (f : Proc -> Proc) (k : unit -> M B) (s : State) :
  bind (update l f) k s = k tt (with_heap (<[l := f (heap s !!! l)]> (heap s)) s).
Proof. reflexivity. Qed.

Lemma bind_poll {B} (pp : popen_ref) (k : option Z -> M B) (s : State) :
  bind (poll pp) k s = k (poll_in s pp) s.
Proof. reflexivity. Qed.

Lemma bind_bind {A B C} (m : M A) (f : A -> M B) (g : B -> M C) (s : State) :
  bind (bind m f) g s = bind m (fun a => bind (f a) g) s.
Proof. unfold bind. destruct (m s) as [[a|e] s']; reflexivity. Qed.

Lemma bind_returned {A B} (m : M A) (k : A -> M B) (s s' : State) (a : A) :
  m s = (Returned a, s') -> bind m k s = k a s'.
Proof. unfold bind. now intros ->. Qed.

Lemma bind_raised {A B} (m : M A) (k : A -> M B) (s s' : State) (e : Exn) :
  m s = (Raised e, s') -> bind m k s = (Raised e, s').
Proof. unfold bind. now intros ->. Qed.

Lemma suppress_returned (m : M unit) (s s' : State) :
  m s = (Returned tt, s') -> suppress m s = (Returned tt, s').
Proof. unfold suppress, catch. now intros ->. Qed.

Lemma suppress_run (m : M unit) (s : State) :
  suppress m s = (Returned tt, snd (m s)).
Proof. unfold suppress, catch. destruct (m s) as [[[]|e] s']; reflexivity. Qed.

Ltac mstep :=
  first
    [ rewrite bind_bind | rewrite bind_ret | rewrite bind_gets | rewrite bind_modify
    | rewrite bind_raise | rewrite bind_emit | rewrite bind_log | rewrite bind_sleep
    | rewrite bind_ask | rewrite bind_deref | rewrite bind_update | rewrite bind_poll ];
  cbv beta.

Lemma popen_terminate_live (pp : popen_ref) (s : State) :
  poll_in s pp = None ->
  popen_terminate pp s =
    (Returned tt, with_os (alter (sigterm (now s)) pp (os s))
                    (with_trace (trace s ++ [SigTerm pp]) s)).
Proof. intros H. unfold popen_terminate. mstep. rewrite H. reflexivity. Qed.

Lemma popen_kill_live (pp : popen_ref) (s : State) :
  poll_in s pp = None ->
  popen_kill pp s =
    (Returned tt, with_os (alter (sigkill (now s)) pp (os s))
                    (with_trace (trace s ++ [SigKill pp]) s)).
Proof. intros H. unfold popen_kill. mstep. rewrite H. reflexivity. Qed.

Lemma graceful_stop_run (nm : string) (pp : popen_ref) (o : Popen) (s : State) :
  os s !! pp = Some o ->
  poll_at (now s) o = None ->
  graceful_stop nm pp s =
    (Returned tt,
     let o1 := sigterm (now s) o in
     let k := wait_rounds 20 (now s) o1 in
     let t1 := now s + 200 * Z.of_nat k in
     match poll_at t1 o1 with
     | None =>
         with_now t1
           (with_os (alter (sigkill t1) pp (alter (sigterm (now s)) pp (os s)))
              (with_trace (trace s ++ stop_events nm pp (now s) k true) s))
     | Some _ =>
         with_now t1
           (with_os (alter (sigterm (now s)) pp (os s))
              (with_trace (trace s ++ stop_events nm pp (now s) k false) s))
     end).
Proof.
  intros Ho Hlive.
  assert (Ho1 : alter (sigterm (now s)) pp (os s) !! pp = Some (sigterm (now s) o)).
  { rewrite list_lookup_alter. rewrite decide_True by reflexivity.
    rewrite Ho. reflexivity. }
  unfold graceful_stop. mstep.
  erewrite bind_returned.
  2:{ apply suppress_returned, popen_terminate_live.
      unfold poll_in. simpl. now rewrite Ho. }
  erewrite bind_returned.
  2:{ apply wait_exit_run. simpl. exact Ho1. }
  mstep. unfold poll_in at 1. unfold slept at 1 2. simpl os. simpl now. rewrite Ho1.
  cbv zeta.
  destruct (poll_at (now s + 200 * Z.of_nat (wait_rounds 20 (now s) (sigterm (now s) o)))
              (sigterm (now s) o)) eqn:Hp.
  - cbv beta iota. mstep. unfold log. mstep. unfold emit, modify. destruct s. unfold stop_events. simpl.
    rewrite <- !app_assoc. reflexivity.
  - erewrite bind_returned.
    2:{ apply suppress_returned, popen_kill_live. unfold poll_in, slept. simpl.
        rewrite Ho1. exact Hp. }
    cbv beta iota. unfold log. mstep. unfold emit, modify. destruct s. unfold stop_events, slept. simpl.
    rewrite <- !app_assoc. reflexivity.
Qed.

Section Terminate.

Variable status_callback : option (nat -> string -> ProcessStatus -> option Exn).

Lemma poll_in_live (s : State) (pp : popen_ref) :
  poll_in s pp = None -> exists o, os s !! pp = Some o /\ poll_at (now s) o = None.
Proof.
  unfold poll_in. destruct (os s !! pp) as [o|]; [|discriminate].
  intros H. now exists o.
Qed.

(** What the closing block of [_terminate] does. *)
Lemma commit_stopped_run (key : string) (l : loc) (s : State) :
  let r := commit_stopped status_callback key l s in
  now (snd r) = now s /\ os (snd r) = os s /\
  heap (snd r) = <[l := with_status STOPPED (heap s !!! l)]> (heap s) /\
  (exists tail : list Event, trace (snd r) = (trace s ++ tail)%list /\ List.filter is_sleep tail = []) /\
  match fst r with
  | Returned _ => procs (snd r) = tbl_pop key (procs s)
  | Raised e =>
      procs (snd r) = procs s /\
      exists cb n st, status_callback = Some cb /\ cb n key st = Some e
  end.
Proof.
  unfold commit_stopped, call_status. mstep.
  destruct status_callback as [cb|].
  - repeat mstep.
    match goal with |- context [cb ?n ?k ?st] => destruct (cb n k st) as [e|] eqn:Hcb end.
    + mstep. simpl. repeat split; try reflexivity.
      * eexists. split; [reflexivity|]. reflexivity.
      * eauto.
    + mstep. simpl. repeat split; try reflexivity.
      eexists. split; [reflexivity|]. reflexivity.
  - mstep. simpl. repeat split; try reflexivity.
    exists []. now rewrite app_nil_r.
Qed.

Lemma wf_tracked (s : State) (key : string) (l : loc) :
  wf s -> tbl_get key (procs s) = Some l ->
  (l < length (heap s))%nat /\ p (heap s !!! l) <> None.
Proof.
  intros [_ Hall] Ht. apply tbl_get_In in Ht.
  rewrite List.Forall_forall in Hall. exact (Hall _ Ht).
Qed.

(** C6. terminate() on a tracked key either returns, and then the key
    is no longer in the table and the handle it named is Stopped, or it
    ends with the exception the status callback raised. *)
Theorem terminate_untracks (key : string) (l : loc) (s : State) :
  wf s ->
  tbl_get key (procs s) = Some l ->
  match _terminate status_callback key s with
  | (Returned _, s') =>
      tbl_get key (procs s') = None /\ status (heap s' !!! l) = STOPPED
  | (Raised e, _) => exists cb n st, status_callback = Some cb /\ cb n key st = Some e
  end.
Proof.
  intros Hwf Ht. destruct (wf_tracked _ _ _ Hwf Ht) as [Hl Hp].
  destruct Hwf as [Hnd _].
  assert (Hfin : forall s1, procs s1 = procs s -> heap s1 = heap s ->
    match commit_stopped status_callback key l s1 with
    | (Returned _, s') =>
        tbl_get key (procs s') = None /\ status (heap s' !!! l) = STOPPED
    | (Raised e, _) => exists cb n st, status_callback = Some cb /\ cb n key st = Some e
    end).
  { intros s1 Hprocs Hheap.
    pose proof (commit_stopped_run key l s1) as H. cbv zeta in H.
    destruct (commit_stopped status_callback key l s1) as [[[]|e] s']; simpl in H.
    - destruct H as (_ & _ & Hh & _ & Hpr). split.
      + rewrite Hpr, Hprocs. now apply tbl_get_pop.
      + rewrite Hh, Hheap. rewrite list_lookup_total_insert_eq by exact Hl. reflexivity.
    - destruct H as (_ & _ & _ & _ & _ & Hcb). exact Hcb. }
  unfold _terminate. mstep. rewrite Ht. mstep.
  destruct (p (heap s !!! l)) as [pp|] eqn:Hpp; [|congruence].
  mstep. destruct (poll_in s pp) eqn:Hpoll.
  - rewrite bind_ret. now apply Hfin.
  - destruct (poll_in_live _ _ Hpoll) as [o [Ho Hlive]].
    erewrite bind_returned by (apply graceful_stop_run; eassumption).
    cbv zeta. apply Hfin; destruct (poll_at _ (sigterm (now s) o)); reflexivity.
Qed.

Lemma filter_sleeps (k : nat) : List.filter is_sleep (repeat (Slept 200) k) = repeat (Slept 200) k.
Proof. induction k as [|k IH]; simpl; [reflexivity|]. now rewrite IH. Qed.

Lemma stop_events_sleeps (nm : string) (pp : popen_ref) (t0 : Z) (k : nat) (b : bool) :
  List.filter is_sleep (stop_events nm pp t0 k b) = repeat (Slept 200) k.
Proof.
  unfold stop_events. rewrite !List.filter_app, filter_sleeps.
  destruct b; simpl; now rewrite app_nil_r.
Qed.

(** C7. terminate() performs at most 20 sleeps of 0.2 s and nothing
    else that takes time: it returns at most 4 s after it was called.
    For a tracked handle whose process is alive it sends SIGTERM, polls
    every 0.2 s until the process has exited or 20 polls have failed,
    and sends SIGKILL exactly when the process is still alive after the
    wait. *)
Theorem terminate_bounded (key : string) (s : State) :
  let s' := snd (_terminate status_callback key s) in
  exists (k : nat) (evs : list Event),
    (k <= 20)%nat /\
    now s' = now s + 200 * Z.of_nat k /\
    now s' - now s <= 4000 /\
    trace s' = (trace s ++ evs)%list /\
    List.filter is_sleep evs = repeat (Slept 200) k /\
    forall l pp o,
      tbl_get key (procs s) = Some l ->
      p (heap s !!! l) = Some pp ->
      os s !! pp = Some o ->
      poll_at (now s) o = None ->
      k = wait_rounds 20 (now s) (sigterm (now s) o) /\
      exists tail : list Event,
        evs = (stop_events (name (heap s !!! l)) pp (now s) k
                 (match poll_at (now s') (sigterm (now s) o) with
                  | None => true
                  | Some _ => false
                  end) ++ tail)%list.
Proof.
  cbv zeta. unfold _terminate. mstep.
  destruct (tbl_get key (procs s)) as [l|] eqn:Ht.
  2:{ exists O, []. simpl. rewrite app_nil_r.
      do 3 (split; [lia|]). do 2 (split; [reflexivity|]). intros; discriminate. }
  mstep. destruct (p (heap s !!! l)) as [pp|] eqn:Hpp.
  2:{ exists O, []. simpl. rewrite app_nil_r.
      do 3 (split; [lia|]). do 2 (split; [reflexivity|]).
      intros l' pp' o' [= <-]. congruence. }
  mstep. destruct (poll_in s pp) eqn:Hpoll.
  - rewrite bind_ret.
    pose proof (commit_stopped_run key l s) as H. cbv zeta in H.
    destruct H as (Hnow & _ & _ & (tail & Htr & Hsl) & _).
    exists O, tail. rewrite Hnow. simpl.
    do 3 (split; [lia|]). do 2 (split; [assumption|]).
    intros l' pp' o' [= <-] Hp' Ho' Hlive'.
    rewrite Hpp in Hp'. injection Hp' as <-.
    unfold poll_in in Hpoll. rewrite Ho' in Hpoll. congruence.
  - destruct (poll_in_live _ _ Hpoll) as [o [Ho Hlive]].
    erewrite bind_returned by (apply graceful_stop_run; eassumption).
    cbv zeta.
    set (k := wait_rounds 20 (now s) (sigterm (now s) o)).
    set (t1 := now s + 200 * Z.of_nat k).
    assert (Hk : (k <= 20)%nat) by apply wait_rounds_le.
    set (killed := match poll_at t1 (sigterm (now s) o) with
                   | None => true | Some _ => false end).
    set (s1 := match poll_at t1 (sigterm (now s) o) with
               | None => _ | Some _ => _ end).
    assert (Hs1 : now s1 = t1 /\
                  trace s1 = (trace s ++ stop_events (name (heap s !!! l)) pp (now s) k killed)%list).
    { unfold s1, killed. destruct (poll_at t1 (sigterm (now s) o)); split; reflexivity. }
    destruct Hs1 as [Hnow1 Htr1].
    pose proof (commit_stopped_run key l s1) as H. cbv zeta in H.
    destruct H as (Hnow & _ & _ & (tail & Htr & Hsl) & _).
    exists k, (stop_events (name (heap s !!! l)) pp (now s) k killed ++ tail)%list.
    rewrite Hnow, Hnow1. unfold t1.
    do 3 (split; [lia|]).
    split; [rewrite Htr, Htr1; now rewrite app_assoc|].
    split; [rewrite List.filter_app, Hsl, app_nil_r; apply stop_events_sleeps|].
    intros l' pp' o' [= <-] Hp' Ho' _.
    rewrite Hpp in Hp'. injection Hp' as <-.
    rewrite Ho in Ho'. injection Ho' as <-.
    split; [reflexivity|]. exists tail. reflexivity.
Qed.

End Terminate.

(** ** Methods and relations *)

Section Relational.

Context (R : State -> State -> Prop) `{!PreOrder R}.

Lemma respects_pure {A} (m : M A) : (forall s, snd (m s) = s) -> respects R m.
Proof. intros H s. rewrite H. reflexivity. Qed.

Lemma respects_ret {A} (a : A) : respects R (ret a).
Proof. now apply respects_pure. Qed.

Lemma respects_raise {A} (e : Exn) : respects R (@raise A e).
Proof. now apply respects_pure. Qed.

Lemma respects_gets {A} (f : State -> A) : respects R (gets f).
Proof. now apply respects_pure. Qed.

Lemma respects_poll (pp : popen_ref) : respects R (poll pp).
Proof. now apply respects_pure. Qed.

Lemma respects_deref (l : loc) : respects R (deref l).
Proof. now apply respects_pure. Qed.

Lemma respects_modify (f : State -> State) : (forall s, R s (f s)) -> respects R (modify f).
Proof. intros H s. apply H. Qed.

(** The continuation need only respect [R] for the values the first
    method can return. *)
Lemma respects_bind_val {A B} (m : M A) (f : A -> M B) :
  respects R m ->
  (forall a, (exists s, fst (m s) = Returned a) -> respects R (f a)) ->
  respects R (bind m f).
Proof.
  intros Hm Hf s. unfold bind. specialize (Hm s).
  destruct (m s) as [[a|e] s1] eqn:Hms; simpl in *; [|exact Hm].
  etransitivity; [exact Hm|]. apply Hf. exists s. now rewrite Hms.
Qed.

Lemma respects_bind {A B} (m : M A) (f : A -> M B) :
  respects R m -> (forall a, respects R (f a)) -> respects R (bind m f).
Proof. intros Hm Hf. apply respects_bind_val; auto. Qed.

Lemma respects_catch {A} (m : M A) (h : Exn -> option (M A)) :
  respects R m -> (forall e k, h e = Some k -> respects R k) -> respects R (catch m h).
Proof.
  intros Hm Hh s. unfold catch. specialize (Hm s).
  destruct (m s) as [[a|e] s1]; simpl in *; [exact Hm|].
  destruct (h e) as [k|] eqn:He; simpl; [|exact Hm].
  etransitivity; [exact Hm|]. now apply (Hh e k).
Qed.

Lemma respects_suppress (m : M unit) : respects R m -> respects R (suppress m).
Proof.
  intros Hm. apply respects_catch; [exact Hm|].
  intros e k [= <-]. apply respects_ret.
Qed.

Lemma respects_for_each {A} (xs : list A) (body : A -> M unit) :
  (forall x, In x xs -> respects R (body x)) -> respects R (for_each xs body).
Proof.
  induction xs as [|x xs IH]; intros H; simpl.
  - apply respects_ret.
  - apply respects_bind; [apply H; now left|].
    intros _. apply IH. intros y Hy. apply H. now right.
Qed.

End Relational.

Lemma respects_weaken (R R' : State -> State -> Prop) {A} (m : M A) :
  (forall s s', R s s' -> R' s s') -> respects R m -> respects R' m.
Proof. intros H Hm s. apply H, Hm. Qed.

(** One step of the decomposition of a method into its statements. *)
Ltac order_goal := try match goal with |- PreOrder _ => exact _ end.

Ltac rstep :=
  match goal with
  | |- respects _ (ret _) => apply respects_ret; order_goal
  | |- respects _ (raise _) => apply respects_raise; order_goal
  | |- respects _ (gets _) => apply respects_gets; order_goal
  | |- respects _ (poll _) => apply respects_poll; order_goal
  | |- respects _ (deref _) => apply respects_deref; order_goal
  | |- respects _ (bind _ _) => apply respects_bind; order_goal; [|intros ?]
  | |- respects _ (catch _ _) => apply respects_catch; order_goal; [|intros ? ? ?]
  | |- respects _ (suppress _) => apply respects_suppress; order_goal
  | |- respects _ (match ?x with _ => _ end) => destruct x
  | H : match ?e with _ => _ end = Some _ |- _ =>
      destruct e; try discriminate H; injection H as <-
  | H : Some _ = Some _ |- _ => injection H as <-
  end.

Ltac same := intros; repeat split; simpl; try reflexivity; try lia.

#[local] Instance same_table_preorder : PreOrder same_table.
Proof.
  split.
  - intros s. same.
  - intros a b c (H1 & H2 & H3) (H4 & H5 & H6). repeat split; try congruence; lia.
Qed.

#[local] Instance same_procs_preorder : PreOrder same_procs.
Proof.
  split.
  - intros s. same.
  - intros a b c (H1 & H2) (H4 & H5). repeat split; try congruence; lia.
Qed.

#[local] Instance keeps_wf_preorder (v : nat) : PreOrder (keeps_wf v).
Proof.
  split.
  - intros s _. split; [trivial|lia].
  - intros a b c H1 H2 Hv. destruct (H1 Hv) as [Hw1 Hl1].
    destruct (H2 ltac:(lia)) as [Hw2 Hl2]. split; [auto|lia].
Qed.

#[local] Instance frame_preorder (ls : list nat) : PreOrder (frame ls).
Proof.
  split.
  - intros s l _. reflexivity.
  - intros a b c H1 H2 l Hl. rewrite (H2 l Hl). now apply H1.
Qed.

(** ** Methods that leave the table and the store alone *)

Create HintDb quiet.

Lemma quiet_modify (f : State -> State) :
  (forall s, same_table s (f s)) -> respects same_table (modify f).
Proof. intros H. apply respects_modify. exact H. Qed.

Lemma quiet_emit (e : Event) : respects same_table (emit e).
Proof. apply quiet_modify. same. Qed.

Lemma quiet_sleep (ms : Z) : respects same_table (sleep ms).
Proof. apply quiet_modify. same. Qed.

Lemma quiet_log (line : string) : respects same_table (log line).
Proof. unfold log. rstep; [rstep|]. apply quiet_emit. Qed.

Lemma quiet_ask : respects same_table ask.
Proof. intros s. same. Qed.

Lemma quiet_start_thread (t : Task) : respects same_table (start_thread t).
Proof. apply quiet_emit. Qed.

Lemma quiet_start_timer (d : Z) (a : TimerAction) : respects same_table (start_timer d a).
Proof. apply quiet_modify. same. Qed.

Lemma quiet_register_process (a : list string) (life : option Z) (code : Z) (td : option Z) :
  respects same_table (register_process a life code td).
Proof. intros s. same. Qed.

#[local] Hint Resolve quiet_emit quiet_sleep quiet_log quiet_ask quiet_start_thread
  quiet_start_timer quiet_register_process : quiet.

Ltac quiet := repeat rstep; auto with quiet; try solve [apply quiet_modify; same].

Lemma quiet_popen_terminate (pp : popen_ref) : respects same_table (popen_terminate pp).
Proof. unfold popen_terminate. quiet. Qed.

Lemma quiet_popen_kill (pp : popen_ref) : respects same_table (popen_kill pp).
Proof. unfold popen_kill. quiet. Qed.

#[local] Hint Resolve quiet_popen_terminate quiet_popen_kill : quiet.

Section Quiet.

Variable E : Environment.
Variable cfg : Paths.
Variable status_callback : option (nat -> string -> ProcessStatus -> option Exn).
Variable notify_callback : option (nat -> string -> string -> option Exn).

Lemma quiet_call_status (key : string) (l : loc) :
  respects same_table (call_status status_callback key l).
Proof. unfold call_status. quiet. Qed.

Lemma quiet_call_notify (msg sev : string) :
  respects same_table (call_notify notify_callback msg sev).
Proof. unfold call_notify. quiet. Qed.

Lemma quiet_Popen_init (a : list string) (d : string) (ev : environ) :
  respects same_table (Popen_init E a d ev).
Proof. unfold Popen_init. quiet. Qed.

Lemma quiet_tracked_live (key : string) : respects same_table (tracked_live key).
Proof. unfold tracked_live. quiet. Qed.

Lemma quiet_wait_exit (n : nat) (pp : popen_ref) : respects same_table (wait_exit n pp).
Proof. induction n as [|n IH]; unfold wait_exit; fold wait_exit; quiet. Qed.

Lemma quiet_graceful_stop (nm : string) (pp : popen_ref) :
  respects same_table (graceful_stop nm pp).
Proof. unfold graceful_stop. quiet. apply quiet_wait_exit. Qed.

Lemma quiet_tcp_open (host : string) (port timeout : Z) :
  respects same_table (_tcp_open E host port timeout).
Proof. unfold _tcp_open. quiet. Qed.

Lemma quiet_find_pids (port : Z) : respects same_table (_find_pids_on_port E port).
Proof. unfold _find_pids_on_port. quiet. Qed.

Lemma quiet_ps_terminate (pid : Z) : respects same_table (ps_terminate E pid).
Proof. unfold ps_terminate. quiet. Qed.

Lemma quiet_ps_wait (pid : Z) : respects same_table (ps_wait E pid).
Proof. unfold ps_wait. quiet. Qed.

Lemma quiet_ps_kill (pid : Z) : respects same_table (ps_kill E pid).
Proof. unfold ps_kill. quiet. Qed.

Lemma quiet_kill_signal (pid sig : Z) : respects same_table (kill_signal E pid sig).
Proof. unfold kill_signal. quiet. Qed.

Hint Resolve quiet_call_status quiet_call_notify quiet_Popen_init quiet_tracked_live
  quiet_wait_exit quiet_graceful_stop quiet_tcp_open quiet_find_pids quiet_ps_terminate
  quiet_ps_wait quiet_ps_kill quiet_kill_signal : quiet.

Lemma quiet_terminate_pid (port : Z) (row : Z * string * string) :
  respects same_table (terminate_pid E port row).
Proof. unfold terminate_pid. quiet. Qed.

Lemma quiet_terminate_pids (port : Z) (pids : list (Z * string * string)) :
  respects same_table (terminate_pids E port pids).
Proof.
  induction pids as [|row rest IH]; simpl; quiet. apply quiet_terminate_pid.
Qed.

Lemma quiet_confirm_kill (msg : string) : respects same_table (confirm_kill E msg).
Proof. unfold confirm_kill. quiet. Qed.

Hint Resolve quiet_terminate_pids quiet_confirm_kill : quiet.

Lemma quiet_prompt_kill_pids (port : Z) (pids : list (Z * string * string)) (svc : string) :
  respects same_table (_prompt_kill_pids E port pids svc).
Proof. unfold _prompt_kill_pids. quiet. Qed.

Hint Resolve quiet_prompt_kill_pids : quiet.

Lemma quiet_check_port_conflict (port : Z) (svc : string) :
  respects same_table (check_port_conflict E notify_callback port svc).
Proof. unfold check_port_conflict. quiet. Qed.

Lemma quiet_frontend_port_clear :
  respects same_table (frontend_port_clear E cfg notify_callback).
Proof. unfold frontend_port_clear. quiet. Qed.

Lemma quiet_wait_redis (n : nat) : respects same_table (wait_redis E cfg n).
Proof. induction n as [|n IH]; simpl; quiet. Qed.

Lemma quiet_http_ok (url : string) (timeout : Z) :
  respects same_table (_http_ok E url timeout).
Proof. unfold _http_ok. quiet. Qed.

End Quiet.

#[local] Hint Resolve quiet_call_status quiet_call_notify quiet_Popen_init quiet_tracked_live
  quiet_wait_exit quiet_graceful_stop quiet_tcp_open quiet_find_pids quiet_ps_terminate
  quiet_ps_wait quiet_ps_kill quiet_kill_signal quiet_terminate_pids quiet_confirm_kill
  quiet_prompt_kill_pids quiet_check_port_conflict quiet_frontend_port_clear
  quiet_wait_redis quiet_http_ok : quiet.

(** ** The table invariant *)

Create HintDb keeps.

Lemma wf_same_table (s s' : State) : same_table s s' -> wf s -> wf s'.
Proof.
  intros (Hp & Hh & _) [Hnd Hall]. split; [now rewrite Hp|].
  rewrite Hp. eapply List.Forall_impl; [|exact Hall].
  intros kl [Hl Hpp]. unfold tracked_ok. now rewrite Hh.
Qed.

Lemma keeps_of_quiet (v : nat) {A} (m : M A) :
  respects same_table m -> respects (keeps_wf v) m.
Proof.
  apply respects_weaken. intros s s' Hst _. split.
  - now apply wf_same_table.
  - destruct Hst as (_ & -> & _). lia.
Qed.

Lemma keeps_mono (v v' : nat) {A} (m : M A) :
  (v <= v')%nat -> respects (keeps_wf v) m -> respects (keeps_wf v') m.
Proof. intros Hle Hm s Hv. apply Hm. lia. Qed.

(** An assignment to a field other than [p], or of a reference to
    [p]. *)
Lemma keeps_update (v : nat) (l : loc) (f : Proc -> Proc) :
  (forall h, p h <> None -> p (f h) <> None) ->
  respects (keeps_wf v) (update l f).
Proof.
  intros Hf s _. simpl. rewrite length_insert. split; [|lia].
  intros [Hnd Hall]. split; [exact Hnd|]. simpl.
  eapply List.Forall_impl; [|exact Hall].
  intros [k l1] [Hl Hp]. unfold tracked_ok in *. simpl in *.
  rewrite length_insert. split; [exact Hl|].
  destruct (Nat.eq_dec l l1) as [->|Hne].
  - rewrite list_lookup_total_insert_eq by exact Hl. now apply Hf.
  - now rewrite list_lookup_total_insert_ne.
Qed.

Lemma keeps_pop (v : nat) (key : string) :
  respects (keeps_wf v) (modify (fun s => with_procs (tbl_pop key (procs s)) s)).
Proof.
  intros s _. simpl. split; [|lia].
  intros [Hnd Hall]. split; simpl.
  - now apply tbl_pop_NoDup.
  - rewrite List.Forall_forall in *. intros kl Hin.
    apply (Hall kl). eapply tbl_pop_incl; eassumption.
Qed.

Lemma keeps_commit_running (v : nat) (key : string) (l : loc) (pp : popen_ref) :
  (l < v)%nat -> respects (keeps_wf v) (commit_running key l pp).
Proof.
  intros Hlv s Hv. unfold commit_running. repeat mstep. simpl.
  rewrite !length_insert. split; [|lia].
  intros [Hnd Hall]. split; simpl.
  - now apply tbl_set_NoDup.
  - rewrite List.Forall_forall in *. intros [k l1] Hin.
    unfold tracked_ok. simpl. rewrite !length_insert.
    destruct (Nat.eq_dec l l1) as [<-|Hne].
    + split; [lia|].
      rewrite !list_lookup_total_insert_eq by (rewrite ?length_insert; lia).
      discriminate.
    + apply tbl_set_In in Hin as [[= -> ->]|Hin]; [congruence|].
      rewrite !list_lookup_total_insert_ne by exact Hne.
      exact (Hall _ Hin).
Qed.

(** The continuation of [Proc(...)] runs with the new object in the
    store. *)
Lemma keeps_new_proc (v : nat) (h : Proc) {B} (f : loc -> M B) :
  (forall l, respects (keeps_wf (S l)) (f l)) ->
  respects (keeps_wf v) (bind (new_proc h) f).
Proof.
  intros Hf s _. unfold bind, new_proc.
  set (s1 := with_heap (heap s ++ [h]) s).
  assert (Hlen : length (heap s1) = S (length (heap s))).
  { unfold s1. simpl. rewrite length_app. simpl. lia. }
  destruct (Hf (length (heap s)) s1 ltac:(lia)) as [Hw Hl].
  split; [|lia].
  intros [Hnd Hall]. apply Hw. split; [exact Hnd|]. unfold s1. simpl.
  eapply List.Forall_impl; [|exact Hall].
  intros [k l1] [Hl1 Hp]. unfold tracked_ok in *. simpl in *.
  rewrite length_app. split; [lia|].
  now rewrite lookup_total_app_l.
Qed.

#[local] Hint Resolve keeps_pop : keeps.
#[local] Hint Extern 2 (respects (keeps_wf _) _) =>
  (apply keeps_of_quiet; solve [auto with quiet | apply quiet_modify; same]) : keeps.
#[local] Hint Extern 1 (respects (keeps_wf _) (update _ _)) =>
  (apply keeps_update; intros ? ?; simpl; solve [assumption | discriminate]) : keeps.

Ltac kstep :=
  match goal with
  | |- respects (keeps_wf _) (bind (make_proc _ _ _ _ _ _) _) =>
      unfold make_proc; apply keeps_new_proc; intros ?
  | _ => rstep
  end.

Ltac keeps := repeat kstep; auto with keeps.

Section Keeps.

Variable E : Environment.
Variable cfg : Paths.
Variable status_callback : option (nat -> string -> ProcessStatus -> option Exn).
Variable notify_callback : option (nat -> string -> string -> option Exn).

Lemma keeps_spawn (v : nat) (key : string) (l : loc) :
  (l < v)%nat -> respects (keeps_wf v) (_spawn E status_callback notify_callback key l).
Proof.
  intros Hl. unfold _spawn, launch_and_track, try_launch. keeps.
  now apply keeps_commit_running.
Qed.

Lemma keeps_terminate (v : nat) (key : string) :
  respects (keeps_wf v) (_terminate status_callback key).
Proof. unfold _terminate, commit_stopped. keeps. Qed.

Hint Extern 1 (respects (keeps_wf (S ?l)) (_spawn _ _ _ _ ?l)) =>
  (apply keeps_spawn; lia) : keeps.
Hint Resolve keeps_terminate : keeps.

Lemma keeps_migrate_db (v : nat) :
  respects (keeps_wf v) (migrate_db E cfg status_callback notify_callback).
Proof. unfold migrate_db. keeps. Qed.

Lemma keeps_ensure_redis (v : nat) :
  respects (keeps_wf v) (ensure_redis E cfg status_callback notify_callback).
Proof. unfold ensure_redis. keeps. Qed.

Lemma keeps_start_daphne (v : nat) :
  respects (keeps_wf v) (start_daphne E cfg status_callback notify_callback).
Proof. unfold start_daphne. keeps. Qed.

Lemma keeps_start_celery_beat (v : nat) :
  respects (keeps_wf v) (start_celery_beat E cfg status_callback notify_callback).
Proof. unfold start_celery_beat. keeps. Qed.

Lemma keeps_start_celery_worker (v : nat) :
  respects (keeps_wf v) (start_celery_worker E cfg status_callback notify_callback).
Proof. unfold start_celery_worker. keeps. Qed.

Lemma keeps_start_frontend (v : nat) :
  respects (keeps_wf v) (start_frontend E cfg status_callback notify_callback).
Proof. unfold start_frontend. keeps. Qed.

Hint Resolve keeps_migrate_db keeps_ensure_redis keeps_start_daphne keeps_start_celery_beat
  keeps_start_celery_worker keeps_start_frontend : keeps.

Lemma keeps_start_backend (v : nat) :
  respects (keeps_wf v) (start_backend E cfg status_callback notify_callback).
Proof. unfold start_backend. keeps. Qed.

Lemma keeps_start_all (v : nat) :
  respects (keeps_wf v) (start_all E cfg status_callback notify_callback).
Proof. unfold start_all. keeps. apply keeps_start_backend. Qed.

Lemma keeps_worker (v : nat) :
  respects (keeps_wf v) (worker E cfg status_callback).
Proof.
  unfold worker. keeps.
  all: try (apply respects_for_each; order_goal; intros key _; unfold stop_one; keeps).
Qed.

Lemma keeps_restart_proc (v : nat) (key : string) :
  respects (keeps_wf v) (_restart_proc E cfg status_callback notify_callback key).
Proof. unfold _restart_proc. keeps. Qed.

Lemma keeps_check_proc (v : nat) (key : string) (l : loc) :
  respects (keeps_wf v) (check_proc status_callback notify_callback key l).
Proof.
  unfold check_proc. keeps.
Qed.

Lemma keeps_monitor_tick (v : nat) :
  respects (keeps_wf v) (monitor_tick status_callback notify_callback).
Proof.
  unfold monitor_tick. keeps.
  apply respects_for_each; order_goal. intros kl _. apply keeps_check_proc.
Qed.

Lemma keeps_run_timer (v : nat) (a : TimerAction) :
  respects (keeps_wf v) (run_timer E cfg status_callback notify_callback a).
Proof. unfold run_timer. keeps. apply keeps_restart_proc. Qed.

Lemma keeps_fire_next (v : nat) :
  respects (keeps_wf v) (fire_next E cfg status_callback notify_callback).
Proof.
  intros s. unfold fire_next.
  destruct (pop_earliest (timers s)) as [[[t a] rest]|]; [|reflexivity].
  set (s1 := with_timers rest (with_now (Z.max (now s) t) s)).
  transitivity s1.
  - intros _. split; [|reflexivity]. apply wf_same_table. same.
  - apply respects_suppress; order_goal. apply keeps_run_timer.
Qed.

Lemma keeps_run_op (o : Op) :
  respects (keeps_wf 0) (run_op E cfg status_callback notify_callback o).
Proof.
  destruct o; simpl.
  - apply keeps_start_backend.
  - apply keeps_start_all.
  - apply keeps_start_frontend.
  - apply keeps_migrate_db.
  - apply keeps_worker.
  - apply keeps_monitor_tick.
  - apply keeps_fire_next.
  - keeps.
  - apply keeps_terminate.
  - apply keeps_of_quiet, quiet_modify. same.
Qed.

Lemma wf_init : wf init_state.
Proof. split; constructor. Qed.

(** Every handle in the table of a state the controller can reach holds
    a [Popen] reference, and no key is in the table twice. *)
Lemma reachable_wf (s : State) :
  reachable E cfg status_callback notify_callback s -> wf s.
Proof.
  induction 1 as [|o s Hr IH]; [apply wf_init|].
  now apply (keeps_run_op o s ltac:(lia)).
Qed.

End Keeps.

(** ** Spawns that fail at launch *)

Lemma never_some_ret {A} : never_some (ret (@None A)).
Proof. intros s a. discriminate. Qed.

Lemma never_some_bind {A B} (m : M A) (f : A -> M (option B)) :
  (forall a, never_some (f a)) -> never_some (bind m f).
Proof.
  intros H s b. unfold bind. destruct (m s) as [[a|e] s1]; [apply H|discriminate].
Qed.

Lemma reach_bind (R : State -> State -> Prop) `{!PreOrder R} {A B}
    (m : M A) (f : A -> M B) (s0 s : State) :
  R s0 s ->
  R s (snd (m s)) ->
  (forall a s1, m s = (Returned a, s1) -> R s0 s1 -> R s0 (snd (f a s1))) ->
  R s0 (snd (bind m f s)).
Proof.
  intros H0 Hm Hf. unfold bind.
  destruct (m s) as [[a|e] s1] eqn:Hms; simpl in *.
  - apply Hf; [reflexivity|]. etransitivity; eassumption.
  - etransitivity; eassumption.
Qed.

Lemma same_table_procs (s s' : State) : same_table s s' -> same_procs s s'.
Proof. intros (H1 & _ & H3). now split. Qed.

Lemma procs_of_quiet {A} (m : M A) : respects same_table m -> respects same_procs m.
Proof. apply respects_weaken, same_table_procs. Qed.

Lemma procs_update (l : loc) (f : Proc -> Proc) : respects same_procs (update l f).
Proof. intros s. same. Qed.

Create HintDb procs.
#[local] Hint Resolve procs_update : procs.
#[local] Hint Extern 2 (respects same_procs _) =>
  (apply procs_of_quiet; solve [auto with quiet | apply quiet_modify; same]) : procs.

Ltac procs := repeat rstep; auto with procs.

Section LaunchFailure.

Variable E : Environment.
Variable cfg : Paths.
Variable status_callback : option (nat -> string -> ProcessStatus -> option Exn).
Variable notify_callback : option (nat -> string -> string -> option Exn).

Lemma tracked_live_pure (key : string) (s : State) :
  exists b, tracked_live key s = (Returned b, s).
Proof.
  unfold tracked_live. mstep. destruct (tbl_get key (procs s)) as [l|]; [|now eexists].
  mstep. destruct (p (heap s !!! l)) as [pp|]; [|now eexists].
  mstep. now eexists.
Qed.

Lemma terminate_absent_key (key : string) (s : State) :
  tbl_get key (procs s) = None -> _terminate status_callback key s = (Returned tt, s).
Proof. intros H. unfold _terminate. mstep. now rewrite H. Qed.

Lemma Popen_init_fails (a : list string) (d : string) (ev : environ) (e : Exn) (s : State) :
  launcher E (asked s) a d ev = LaunchFails e ->
  Popen_init E a d ev s
  = (Raised e, with_trace (trace s ++ [PopenCall a d]) (with_asked (S (asked s)) s)).
Proof. intros H. unfold Popen_init. repeat mstep. simpl. now rewrite H. Qed.

Lemma spawn_unfold (key : string) (l : loc) (s : State) :
  exists b, tracked_live key s = (Returned b, s) /\
    _spawn E status_callback notify_callback key l s
    = if b then log (name (heap s !!! l) +:+ " already running.") s
      else launch_and_track E status_callback notify_callback key l (heap s !!! l) s.
Proof.
  destruct (tracked_live_pure key s) as [b Hb]. exists b. split; [exact Hb|].
  unfold _spawn. erewrite bind_returned by exact Hb. mstep. destruct b; reflexivity.
Qed.

(** When the launcher refuses the command, the launch step of
    [_spawn] yields no process and leaves the table alone. *)
Lemma launch_fails (key : string) (l : loc) (proc : Proc) (s : State) :
  (exists e, launcher E (asked s) (args proc) (cwd proc) (env proc) = LaunchFails e) ->
  same_procs s (snd (try_launch E status_callback notify_callback key l proc s)) /\
  forall pp,
    fst (try_launch E status_callback notify_callback key l proc s) <> Returned (Some pp).
Proof.
  intros [e He]. unfold try_launch, catch.
  erewrite bind_raised by (apply Popen_init_fails; exact He).
  set (s1 := with_trace _ _).
  assert (H1 : same_procs s s1) by (unfold s1; same).
  destruct e; try (split; [exact H1|discriminate]).
  cbv beta iota.
  match goal with |- context [snd (?body s1)] => set (hb := body) end.
  assert (Hr : respects same_procs hb) by (unfold hb; procs).
  assert (Hn : never_some hb).
  { unfold hb. repeat (apply never_some_bind; intros ?). apply never_some_ret. }
  split; [etransitivity; [exact H1|apply Hr]|]. intros pp. apply Hn.
Qed.

(** The table changes only when the launch succeeds. *)
Lemma spawn_failed_table (key : string) (l : loc) (s : State) :
  (forall n, (asked s <= n)%nat ->
     exists e, launcher E n (args (heap s !!! l)) (cwd (heap s !!! l)) (env (heap s !!! l))
               = LaunchFails e) ->
  procs (snd (_spawn E status_callback notify_callback key l s)) = procs s.
Proof.
  intros Hfail.
  cut (same_procs s (snd (_spawn E status_callback notify_callback key l s)));
    [now intros [H _]|].
  destruct (spawn_unfold key l s) as (b & _ & ->).
  destruct b; [apply procs_of_quiet; auto with quiet|].
  set (proc := heap s !!! l) in *. unfold launch_and_track.
  apply reach_bind; order_goal; [reflexivity|apply procs_update|intros _ s1 _ H1].
  apply reach_bind; order_goal; [exact H1|apply procs_of_quiet; auto with quiet|intros _ s2 _ H2].
  apply reach_bind; order_goal; [exact H2|apply procs_of_quiet; auto with quiet|intros _ s3 _ H3].
  destruct (launch_fails key l proc s3) as [Hs Hnone].
  { apply Hfail. destruct H3 as [_ H3]. exact H3. }
  apply reach_bind; order_goal; [exact H3|exact Hs|intros [pp|] s4 Hc H4].
  - exfalso. apply (Hnone pp). now rewrite Hc.
  - exact H4.
Qed.

Lemma frame_of_quiet (ls : list nat) {A} (m : M A) :
  respects same_table m -> respects (frame ls) m.
Proof. apply respects_weaken. intros s s' (_ & Hh & _) l _. now rewrite Hh. Qed.

Lemma frame_update (ls : list nat) (l : loc) (f : Proc -> Proc) :
  In l ls -> respects (frame ls) (update l f).
Proof.
  intros Hin s l' Hl'. simpl. apply list_lookup_total_insert_ne.
  intros ->. contradiction.
Qed.

Lemma frame_check_proc (ls : list nat) (key : string) (l : loc) :
  In l ls -> respects (frame ls) (check_proc status_callback notify_callback key l).
Proof.
  intros Hin. unfold check_proc.
  repeat rstep;
    try (apply frame_update; exact Hin);
    try (apply frame_of_quiet; solve [auto with quiet | apply quiet_modify; same]).
Qed.

(** One turn of the monitor changes no object outside the table. *)
Lemma frame_monitor_tick (s : State) :
  frame (map snd (procs s)) s (snd (monitor_tick status_callback notify_callback s)).
Proof.
  unfold monitor_tick. rewrite bind_sleep, bind_gets.
  set (s1 := with_now _ _).
  transitivity s1; [intros l _; reflexivity|].
  change (procs s1) with (procs s).
  apply respects_for_each; order_goal.
  intros [k l] Hin. apply frame_check_proc. simpl.
  apply in_map_iff. now exists (k, l).
Qed.

(** C10 (amended). In every state the controller can reach, each
    handle in the table holds a [Popen] reference.  When the launcher
    refuses the command of a newly created [Proc], [_spawn] leaves the
    table as it was, so the new handle is not tracked; the next turn of
    the monitor does not touch it; and [_terminate] on its key does
    nothing, provided the key was not tracked before the spawn. *)
Theorem failed_launch_not_tracked (s : State) (key : string) (h : Proc) :
  reachable E cfg status_callback notify_callback s ->
  (forall n, (asked s <= n)%nat ->
     exists e, launcher E n (args h) (cwd h) (env h) = LaunchFails e) ->
  let l := length (heap s) in
  let s1 := snd (_spawn E status_callback notify_callback key l (snd (new_proc h s))) in
  wf s /\ wf s1 /\
  procs s1 = procs s /\
  (forall k, ~ In (k, l) (procs s1)) /\
  heap (snd (monitor_tick status_callback notify_callback s1)) !!! l = heap s1 !!! l /\
  (tbl_get key (procs s) = None ->
   _terminate status_callback key s1 = (Returned tt, s1)).
Proof.
  intros Hreach Hfail l s1.
  assert (Hwf : wf s) by (eapply reachable_wf; eassumption).
  set (s0 := snd (new_proc h s)) in *.
  assert (Hh0 : heap s0 !!! l = h).
  { unfold s0, l. simpl. rewrite lookup_total_app_r by lia.
    now rewrite Nat.sub_diag. }
  assert (Hprocs : procs s1 = procs s).
  { unfold s1. rewrite spawn_failed_table; [reflexivity|].
    rewrite Hh0. exact Hfail. }
  assert (Hfresh : forall k, ~ In (k, l) (procs s1)).
  { intros k Hin. rewrite Hprocs in Hin. destruct Hwf as [_ Hall].
    rewrite List.Forall_forall in Hall. destruct (Hall _ Hin) as [Hlt _].
    simpl in Hlt. unfold l in Hlt. lia. }
  split; [exact Hwf|]. split.
  { pose proof (keeps_new_proc 0 h (_spawn E status_callback notify_callback key)) as Hk.
    assert (Hs : respects (keeps_wf 0)
                   (bind (new_proc h) (_spawn E status_callback notify_callback key))).
    { apply Hk. intros l0. apply keeps_spawn. lia. }
    destruct (Hs s ltac:(lia)) as [Hw _]. exact (Hw Hwf). }
  split; [exact Hprocs|]. split; [exact Hfresh|]. split.
  - apply frame_monitor_tick. rewrite in_map_iff. intros [[k l'] [Heq Hin]].
    simpl in Heq. subst l'. exact (Hfresh k Hin).
  - intros Hnone. apply terminate_absent_key. now rewrite Hprocs.
Qed.

End LaunchFailure.

(** ** What [_spawn] does with a launch failure *)

Section Capture.

Variable E : Environment.
Variable status_callback : option (nat -> string -> ProcessStatus -> option Exn).
Variable notify_callback : option (nat -> string -> string -> option Exn).

Lemma call_status_quiet_run (key : string) (l : loc) (s : State) :
  status_quiet status_callback ->
  exists s', call_status status_callback key l s = (Returned tt, s') /\ same_table s s'.
Proof.
  intros Hq. unfold call_status. destruct status_callback as [cb|] eqn:Hcb.
  - repeat mstep. rewrite (Hq cb eq_refl). eexists. split; [reflexivity|same].
  - eexists. split; [reflexivity|same].
Qed.

Lemma call_notify_quiet_run (msg sev : string) (s : State) :
  notify_quiet notify_callback ->
  exists s', call_notify notify_callback msg sev s = (Returned tt, s') /\ same_table s s'.
Proof.
  intros Hq. unfold call_notify. destruct notify_callback as [cb|] eqn:Hcb.
  - repeat mstep. rewrite (Hq cb eq_refl). eexists. split; [reflexivity|same].
  - eexists. split; [reflexivity|same].
Qed.

(** The launch step when the launcher answers with [e]. *)
Lemma try_launch_fails (key : string) (l : loc) (proc : Proc) (s : State) (e : Exn) :
  status_quiet status_callback ->
  notify_quiet notify_callback ->
  (l < length (heap s))%nat ->
  launcher E (asked s) (args proc) (cwd proc) (env proc) = LaunchFails e ->
  exists s',
    (forall l', l' <> l -> heap s' !!! l' = heap s !!! l') /\
    match e with
    | FileNotFoundError msg =>
        try_launch E status_callback notify_callback key l proc s = (Returned None, s') /\
        status (heap s' !!! l) = FAILED /\
        last_error (heap s' !!! l) = Some msg
    | _ =>
        try_launch E status_callback notify_callback key l proc s = (Raised e, s') /\
        heap s' = heap s
    end.
Proof.
  intros Hsq Hnq Hl He. unfold try_launch, catch.
  erewrite bind_raised by (apply Popen_init_fails; exact He).
  set (s1 := with_trace _ _).
  destruct e; try (exists s1; split; [reflexivity|split; reflexivity]).
  cbv beta iota. repeat mstep.
  set (s2 := with_heap _ _).
  destruct (call_status_quiet_run key l s2 Hsq) as (s3 & Hc3 & _ & Hh3 & _).
  erewrite bind_returned by exact Hc3.
  destruct (call_notify_quiet_run (name proc +:+ " failed to start") "error" s3 Hnq)
    as (s4 & Hc4 & _ & Hh4 & _).
  erewrite bind_returned by exact Hc4.
  exists s4. rewrite Hh4, Hh3. unfold s2, s1. simpl.
  split.
  - intros l' Hne. now rewrite !list_lookup_total_insert_ne by congruence.
  - split; [reflexivity|].
    rewrite !list_lookup_total_insert_eq by (rewrite ?length_insert; exact Hl).
    split; reflexivity.
Qed.


End Capture.

(** ** The monitor *)

#[local] Instance still_preorder : PreOrder still.
Proof.
  split.
  - intros s. same.
  - intros a b c (H1 & H2 & H3 & H4) (H5 & H6 & H7 & H8). repeat split; congruence.
Qed.

#[local] Instance marks_preorder : PreOrder marks.
Proof.
  split.
  - intros s. repeat split; auto.
  - intros a b c (H1 & H2 & H3 & H4 & H5) (H6 & H7 & H8 & H9 & H10).
    repeat split; try congruence.
    intros l. destruct (H10 l) as [Hc|Hc]; [|now right].
    rewrite Hc. apply H5.
Qed.

Lemma still_marks (s s' : State) : still s s' -> marks s s'.
Proof.
  intros (_ & Hh & Hn & Ho). unfold marks. rewrite Hh. repeat split; auto.
Qed.

Lemma marks_update (l : loc) (f : Proc -> Proc) :
  (forall h, p (f h) = p h) ->
  (forall h, status (f h) = status h \/ status (f h) = FAILED) ->
  respects marks (update l f).
Proof.
  intros Hp Hs s. simpl. repeat split; simpl.
  - apply length_insert.
  - intros l'. destruct (Nat.eq_dec l l') as [<-|Hne].
    + destruct (Nat.lt_ge_cases l (length (heap s))) as [Hlt|Hge].
      * rewrite list_lookup_total_insert_eq by exact Hlt. apply Hp.
      * now rewrite list_insert_ge.
    + now rewrite list_lookup_total_insert_ne.
  - intros l'. destruct (Nat.eq_dec l l') as [<-|Hne].
    + destruct (Nat.lt_ge_cases l (length (heap s))) as [Hlt|Hge].
      * rewrite list_lookup_total_insert_eq by exact Hlt. apply Hs.
      * rewrite list_insert_ge by exact Hge. now left.
    + rewrite list_lookup_total_insert_ne by exact Hne. now left.
Qed.

Lemma still_modify (f : State -> State) :
  (forall s, still s (f s)) -> respects still (modify f).
Proof. intros H. apply respects_modify. exact H. Qed.

Ltac still := repeat rstep; try solve [apply still_modify; same | intros ?; same].

Lemma still_log (line : string) : respects still (log line).
Proof. unfold log, emit. still. Qed.

Lemma still_start_timer (d : Z) (a : TimerAction) : respects still (start_timer d a).
Proof. unfold start_timer. still. Qed.

Section Monitor.

Variable status_callback : option (nat -> string -> ProcessStatus -> option Exn).
Variable notify_callback : option (nat -> string -> string -> option Exn).

Lemma still_call_status (key : string) (l : loc) :
  respects still (call_status status_callback key l).
Proof. unfold call_status, emit, ask. still. Qed.

Lemma still_call_notify (msg sev : string) :
  respects still (call_notify notify_callback msg sev).
Proof. unfold call_notify, emit, ask. still. Qed.

Lemma marks_of_still {A} (m : M A) : respects still m -> respects marks m.
Proof. apply respects_weaken, still_marks. Qed.

Lemma marks_check_proc (key : string) (l : loc) :
  respects marks (check_proc status_callback notify_callback key l).
Proof.
  unfold check_proc.
  repeat rstep;
    try (apply marks_update; intros ?; simpl; auto);
    try (apply marks_of_still;
         solve [apply still_log | apply still_start_timer | apply still_call_status
               | apply still_call_notify | apply still_modify; same]).
Qed.

Lemma returns_bind {A B} (m : M A) (f : A -> M B) :
  returns m -> (forall a, returns (f a)) -> returns (bind m f).
Proof.
  intros Hm Hf s. unfold bind. destruct (Hm s) as [a Ha].
  destruct (m s) as [[a'|e] s1]; simpl in Ha; [|discriminate]. apply Hf.
Qed.

Lemma returns_pure {A} (m : M A) : (forall s, exists a, fst (m s) = Returned a) -> returns m.
Proof. auto. Qed.

Lemma returns_call_status (key : string) (l : loc) :
  status_quiet status_callback -> returns (call_status status_callback key l).
Proof.
  intros Hq s. destruct (call_status_quiet_run status_callback key l s Hq) as (s' & -> & _).
  now eexists.
Qed.

Lemma returns_call_notify (msg sev : string) :
  notify_quiet notify_callback -> returns (call_notify notify_callback msg sev).
Proof.
  intros Hq s. destruct (call_notify_quiet_run notify_callback msg sev s Hq) as (s' & -> & _).
  now eexists.
Qed.

Ltac returns_tac :=
  repeat match goal with
  | |- returns (bind _ _) => apply returns_bind; [|intros ?]
  | |- returns (match ?x with _ => _ end) => destruct x
  | |- returns (call_status _ _ _) => apply returns_call_status; assumption
  | |- returns (call_notify _ _ _) => apply returns_call_notify; assumption
  | |- returns _ => intros ?; eexists; reflexivity
  end.

Lemma returns_check_proc (key : string) (l : loc) :
  status_quiet status_callback -> notify_quiet notify_callback ->
  returns (check_proc status_callback notify_callback key l).
Proof. intros Hs Hn. unfold check_proc. returns_tac. Qed.

Lemma returns_for_each {A} (xs : list A) (body : A -> M unit) :
  (forall x, returns (body x)) -> returns (for_each xs body).
Proof.
  intros H. induction xs as [|x xs IH]; simpl.
  - intros s. now eexists.
  - apply returns_bind; [apply H|intros _; exact IH].
Qed.

(** A crash is recorded before anything that can raise. *)
Lemma check_proc_records_crash (key : string) (l : loc) (s : State) :
  (l < length (heap s))%nat ->
  crashed s l ->
  status (heap (snd (check_proc status_callback notify_callback key l s)) !!! l) = FAILED.
Proof.
  intros Hl (pp & rc & Hp & Hpoll & Hst). unfold check_proc.
  rewrite bind_modify. rewrite bind_deref.
  change (heap (with_monitor_key (Some key) s)) with (heap s).
  rewrite Hp. rewrite bind_bind, bind_poll.
  change (poll_in (with_monitor_key (Some key) s) pp) with (poll_in s pp).
  rewrite Hpoll, bind_ret, Hst. cbv beta iota. simpl status_eqb. cbv iota.
  rewrite bind_bind, bind_update.
  set (s1 := with_heap _ _).
  assert (H1 : status (heap s1 !!! l) = FAILED).
  { unfold s1. simpl. now rewrite list_lookup_total_insert_eq. }
  match goal with |- context [snd (?rest s1)] =>
    assert (Hm : respects marks rest) end.
  { repeat rstep;
      try (apply marks_update; intros ?; simpl; auto);
      try (apply marks_of_still;
           solve [apply still_log | apply still_start_timer | apply still_call_status
                 | apply still_call_notify | apply still_modify; same]). }
  destruct (Hm s1) as (_ & _ & _ & _ & Hs).
  destruct (Hs l) as [Heq|Hf]; [now rewrite Heq|exact Hf].
Qed.

Lemma marks_due (s s' : State) (l : loc) : marks s s' -> due s l -> due s' l.
Proof.
  intros (Hn & Ho & _ & Hp & Hs) [(pp & rc & H1 & H2 & H3)|Hf].
  - destruct (Hs l) as [Heq|Hfail]; [|now right]. left. exists pp, rc.
    rewrite Hp, Heq. repeat split; auto.
    unfold poll_in in *. now rewrite Ho, Hn.
  - right. destruct (Hs l) as [Heq|Hfail]; [congruence|exact Hfail].
Qed.

Lemma marks_failed (s s' : State) (l : loc) :
  marks s s' -> status (heap s !!! l) = FAILED -> status (heap s' !!! l) = FAILED.
Proof. intros (_ & _ & _ & _ & Hs) Hf. destruct (Hs l) as [Heq|H]; congruence. Qed.

Lemma loop_marks_all (t : list (string * loc)) (s : State) (key : string) (l : loc) :
  (forall kl, returns (check_proc status_callback notify_callback (fst kl) (snd kl))) ->
  In (key, l) t ->
  (l < length (heap s))%nat ->
  due s l ->
  status (heap (snd (for_each t
            (fun kl => check_proc status_callback notify_callback (fst kl) (snd kl)) s)) !!! l)
  = FAILED.
Proof.
  intros Hret. revert s. induction t as [|[k0 l0] t IH]; intros s Hin Hl Hdue; [destruct Hin|].
  simpl for_each.
  destruct (Hret (k0, l0) s) as [[] Hr]. simpl in Hr.
  pose proof (marks_check_proc k0 l0 s) as Hm.
  destruct (check_proc status_callback notify_callback k0 l0 s) as [o s1] eqn:Hc.
  simpl in Hr, Hm. subst o.
  erewrite bind_returned by (simpl; exact Hc).
  assert (Hl1 : (l < length (heap s1))%nat).
  { destruct Hm as (_ & _ & Hlen & _). lia. }
  destruct Hin as [[= -> ->]|Hin].
  - assert (Hf : status (heap s1 !!! l) = FAILED).
    { destruct Hdue as [Hcr|Hf].
      - pose proof (check_proc_records_crash key l s Hl Hcr) as H. now rewrite Hc in H.
      - eapply marks_failed; eassumption. }
    eapply marks_failed; [|exact Hf].
    apply respects_for_each; order_goal. intros kl _. apply marks_check_proc.
  - apply IH; [exact Hin|exact Hl1|]. eapply marks_due; eassumption.
Qed.

(** The loop ends with the first exception. *)
Lemma for_each_stops {A} (before after : list A) (x : A) (body : A -> M unit)
    (s s1 s2 : State) (e : Exn) :
  for_each before body s = (Returned tt, s1) ->
  body x s1 = (Raised e, s2) ->
  for_each (before ++ x :: after) body s = (Raised e, s2).
Proof.
  revert s. induction before as [|y before IH]; intros s Hb Hx; simpl in *.
  - injection Hb as <-. now erewrite bind_raised by exact Hx.
  - unfold bind in *. destruct (body y s) as [[[]|e'] s'] eqn:Hy; [|discriminate].
    now apply IH.
Qed.


End Monitor.

(** ** Signals to foreign processes *)

Lemma guarded_true (evs : list Event) : guarded true evs = true.
Proof.
  induction evs as [|e evs IH]; simpl; [reflexivity|].
  destruct (is_yes e); [exact IH|]. destruct (is_foreign_signal e); exact IH.
Qed.

Lemma guarded_mono (c : bool) (evs : list Event) : guarded false evs = true -> guarded c evs = true.
Proof. destruct c; [intros _; apply guarded_true|trivial]. Qed.

Lemma guarded_app (c : bool) (a b : list Event) :
  guarded c a = true -> guarded false b = true -> guarded c (a ++ b) = true.
Proof.
  revert c. induction a as [|e a IH]; intros c Ha Hb; simpl in *.
  - now apply guarded_mono.
  - destruct (is_yes e); [now apply IH|].
    destruct (is_foreign_signal e); [|now apply IH].
    apply andb_true_iff in Ha as [-> Ha]. simpl. now apply IH.
Qed.

Lemma guarded_harmless (c : bool) (evs : list Event) :
  forallb (fun e => negb (is_foreign_signal e)) evs = true -> guarded c evs = true.
Proof.
  revert c. induction evs as [|e evs IH]; intros c H; simpl in *; [reflexivity|].
  apply andb_true_iff in H as [He H]. destruct (is_yes e); [now apply IH|].
  destruct (is_foreign_signal e); [discriminate|now apply IH].
Qed.

#[local] Instance grows_preorder : PreOrder grows.
Proof.
  split.
  - intros s. exists []. now rewrite app_nil_r.
  - intros a b c [e1 H1] [e2 H2]. exists (e1 ++ e2)%list. now rewrite H2, H1, app_assoc.
Qed.

#[local] Instance harmless_preorder : PreOrder harmless.
Proof.
  split.
  - intros s. exists []. now rewrite app_nil_r.
  - intros a b c (e1 & H1 & G1) (e2 & H2 & G2). exists (e1 ++ e2)%list.
    rewrite H2, H1, app_assoc, forallb_app, G1, G2. now split.
Qed.

#[local] Instance consented_preorder : PreOrder consented.
Proof.
  split.
  - intros s. exists []. now rewrite app_nil_r.
  - intros a b c (e1 & H1 & G1) (e2 & H2 & G2). exists (e1 ++ e2)%list.
    rewrite H2, H1, app_assoc. split; [reflexivity|now apply guarded_app].
Qed.

Lemma harmless_consented (s s' : State) : harmless s s' -> consented s s'.
Proof. intros (evs & H & G). exists evs. split; [exact H|now apply guarded_harmless]. Qed.

Lemma harmless_grows (s s' : State) : harmless s s' -> grows s s'.
Proof. intros (evs & H & _). now exists evs. Qed.

Lemma harmless_emit (e : Event) : is_foreign_signal e = false -> respects harmless (emit e).
Proof. intros He s. exists [e]. simpl. now rewrite He. Qed.

Lemma harmless_same_trace (f : State -> State) :
  (forall s, trace (f s) = trace s) -> respects harmless (modify f).
Proof. intros H s. exists []. simpl. now rewrite H, app_nil_r. Qed.

Lemma grows_emit (e : Event) : respects grows (emit e).
Proof. intros s. now exists [e]. Qed.

Lemma harmless_sleep (ms : Z) : respects harmless (sleep ms).
Proof. intros s. now exists [Slept ms]. Qed.

Lemma harmless_ask : respects harmless ask.
Proof. intros s. exists []. simpl. now rewrite app_nil_r. Qed.

Lemma harmless_start_timer (d : Z) (a : TimerAction) : respects harmless (start_timer d a).
Proof. intros s. now exists [TimerStart d a]. Qed.

Lemma harmless_new_proc (h : Proc) : respects harmless (new_proc h).
Proof. intros s. exists []. simpl. now rewrite app_nil_r. Qed.

Lemma harmless_register (a : list string) (life : option Z) (code : Z) (td : option Z) :
  respects harmless (register_process a life code td).
Proof. intros s. exists []. simpl. now rewrite app_nil_r. Qed.

Create HintDb harmless.
#[local] Hint Resolve harmless_sleep harmless_ask harmless_start_timer harmless_new_proc
  harmless_register : harmless.
#[local] Hint Extern 1 (respects harmless (emit _)) =>
  (apply harmless_emit; reflexivity) : harmless.
#[local] Hint Extern 1 (respects harmless (start_thread _)) =>
  (apply harmless_emit; reflexivity) : harmless.
#[local] Hint Extern 1 (respects harmless (modify _)) =>
  (apply harmless_same_trace; intros ?; reflexivity) : harmless.
#[local] Hint Extern 1 (respects harmless (update _ _)) =>
  (apply harmless_same_trace; intros ?; reflexivity) : harmless.

Ltac harmless := repeat rstep; auto with harmless.

Lemma harmless_log (line : string) : respects harmless (log line).
Proof. unfold log. harmless. Qed.

Lemma harmless_popen_terminate (pp : popen_ref) : respects harmless (popen_terminate pp).
Proof. unfold popen_terminate. harmless. Qed.

Lemma harmless_popen_kill (pp : popen_ref) : respects harmless (popen_kill pp).
Proof. unfold popen_kill. harmless. Qed.

#[local] Hint Resolve harmless_log harmless_popen_terminate harmless_popen_kill : harmless.

Lemma harmless_for_each {A} (xs : list A) (body : A -> M unit) :
  (forall x, respects harmless (body x)) -> respects harmless (for_each xs body).
Proof. intros H. apply respects_for_each; order_goal. auto. Qed.

Section Consent.

Variable E : Environment.
Variable cfg : Paths.
Variable status_callback : option (nat -> string -> ProcessStatus -> option Exn).
Variable notify_callback : option (nat -> string -> string -> option Exn).

Lemma harmless_call_status (key : string) (l : loc) :
  respects harmless (call_status status_callback key l).
Proof. unfold call_status. harmless. Qed.

Lemma harmless_call_notify (msg sev : string) :
  respects harmless (call_notify notify_callback msg sev).
Proof. unfold call_notify. harmless. Qed.

Lemma harmless_Popen_init (a : list string) (d : string) (ev : environ) :
  respects harmless (Popen_init E a d ev).
Proof. unfold Popen_init. harmless. Qed.

Lemma harmless_tracked_live (key : string) : respects harmless (tracked_live key).
Proof. unfold tracked_live. harmless. Qed.

Lemma harmless_wait_exit (n : nat) (pp : popen_ref) : respects harmless (wait_exit n pp).
Proof. induction n as [|n IH]; unfold wait_exit; fold wait_exit; harmless. Qed.

Lemma harmless_tcp_open (host : string) (port timeout : Z) :
  respects harmless (_tcp_open E host port timeout).
Proof. unfold _tcp_open. harmless. Qed.

Lemma harmless_find_pids (port : Z) : respects harmless (_find_pids_on_port E port).
Proof. unfold _find_pids_on_port. harmless. Qed.

Hint Resolve harmless_call_status harmless_call_notify harmless_Popen_init
  harmless_tracked_live harmless_wait_exit harmless_tcp_open harmless_find_pids : harmless.

Lemma harmless_spawn (key : string) (l : loc) :
  respects harmless (_spawn E status_callback notify_callback key l).
Proof. unfold _spawn, launch_and_track, try_launch, commit_running. harmless. Qed.

Lemma harmless_terminate (key : string) :
  respects harmless (_terminate status_callback key).
Proof. unfold _terminate, graceful_stop, commit_stopped. harmless. Qed.

Lemma harmless_wait_redis (n : nat) : respects harmless (wait_redis E cfg n).
Proof. induction n as [|n IH]; simpl; harmless. Qed.

Lemma harmless_check_proc (key : string) (l : loc) :
  respects harmless (check_proc status_callback notify_callback key l).
Proof. unfold check_proc. harmless. Qed.

Hint Resolve harmless_spawn harmless_terminate harmless_wait_redis harmless_check_proc
  : harmless.

Lemma harmless_monitor_tick :
  respects harmless (monitor_tick status_callback notify_callback).
Proof.
  unfold monitor_tick. harmless. apply harmless_for_each. intros kl. auto with harmless.
Qed.

Lemma harmless_worker : respects harmless (worker E cfg status_callback).
Proof.
  unfold worker. harmless.
  all: try (apply harmless_for_each; intros key; unfold stop_one; harmless).
Qed.

Lemma harmless_migrate_db :
  respects harmless (migrate_db E cfg status_callback notify_callback).
Proof. unfold migrate_db, make_proc. harmless. Qed.

Lemma harmless_ensure_redis :
  respects harmless (ensure_redis E cfg status_callback notify_callback).
Proof. unfold ensure_redis, make_proc. harmless. Qed.

Lemma harmless_start_celery_beat :
  respects harmless (start_celery_beat E cfg status_callback notify_callback).
Proof. unfold start_celery_beat, make_proc. harmless. Qed.

Lemma harmless_start_celery_worker :
  respects harmless (start_celery_worker E cfg status_callback notify_callback).
Proof. unfold start_celery_worker, make_proc. harmless. Qed.

Hint Resolve harmless_monitor_tick harmless_worker harmless_migrate_db harmless_ensure_redis
  harmless_start_celery_beat harmless_start_celery_worker : harmless.

Lemma grows_of_harmless {A} (m : M A) : respects harmless m -> respects grows m.
Proof. apply respects_weaken, harmless_grows. Qed.

Lemma consented_of_harmless {A} (m : M A) : respects harmless m -> respects consented m.
Proof. apply respects_weaken, harmless_consented. Qed.

Lemma grows_terminate_pid (port : Z) (row : Z * string * string) :
  respects grows (terminate_pid E port row).
Proof.
  unfold terminate_pid, ps_terminate, ps_wait, ps_kill, kill_signal.
  repeat rstep;
    try apply grows_emit;
    try (apply grows_of_harmless; solve [auto with harmless]).
Qed.

Lemma grows_terminate_pids (port : Z) (pids : list (Z * string * string)) :
  respects grows (terminate_pids E port pids).
Proof.
  induction pids as [|row rest IH]; simpl; repeat rstep; auto.
  apply grows_terminate_pid.
Qed.

(** The confirmation step signals nothing, and answers yes only after
    the prompt returned yes. *)
Lemma confirm_kill_run (msg : string) (s : State) :
  harmless s (snd (confirm_kill E msg s)) /\
  (fst (confirm_kill E msg s) = Returned true ->
   trace (snd (confirm_kill E msg s))
   = (trace s ++ [AskYesNo "Port In Use" msg (Answer true)])%list).
Proof.
  split; [apply (ltac:(unfold confirm_kill; harmless) : respects harmless (confirm_kill E msg))|].
  unfold confirm_kill. rewrite bind_ask.
  destruct (tk_default_root E (asked s)).
  - rewrite bind_ask, bind_emit. simpl.
    destruct (askyesno E _ _ _) as [[|]|]; simpl; [reflexivity|discriminate..].
  - rewrite bind_log. discriminate.
  - rewrite bind_log. discriminate.
Qed.

Lemma consented_prompt_kill_pids (port : Z) (pids : list (Z * string * string)) (svc : string) :
  respects consented (_prompt_kill_pids E port pids svc).
Proof.
  intros s. unfold _prompt_kill_pids. destruct pids as [|row rest]; [reflexivity|].
  set (msg := conflict_msg port (row :: rest) svc).
  destruct (confirm_kill_run msg s) as [Hh Hyes]. unfold bind.
  destruct (confirm_kill E msg s) as [[[|]|e] s1]; cbn [fst snd] in *.
  - change (consented s (snd (terminate_pids E port (row :: rest) s1))).
    destruct (grows_terminate_pids port (row :: rest) s1) as [evs Hevs].
    exists (AskYesNo "Port In Use" msg (Answer true) :: evs).
    split; [|apply guarded_true].
    rewrite Hevs, (Hyes eq_refl), <- app_assoc. reflexivity.
  - now apply harmless_consented.
  - now apply harmless_consented.
Qed.

Hint Resolve consented_prompt_kill_pids : harmless.
Hint Extern 5 (respects consented _) =>
  (apply consented_of_harmless; solve [auto with harmless]) : harmless.

Ltac consented := repeat rstep; auto with harmless.

Lemma consented_check_port_conflict (port : Z) (svc : string) :
  respects consented (check_port_conflict E notify_callback port svc).
Proof. unfold check_port_conflict. consented. Qed.

Lemma consented_frontend_port_clear :
  respects consented (frontend_port_clear E cfg notify_callback).
Proof. unfold frontend_port_clear. consented. Qed.

Hint Resolve consented_check_port_conflict consented_frontend_port_clear : harmless.

Lemma consented_start_daphne :
  respects consented (start_daphne E cfg status_callback notify_callback).
Proof. unfold start_daphne, make_proc. consented. Qed.

Lemma consented_start_frontend :
  respects consented (start_frontend E cfg status_callback notify_callback).
Proof. unfold start_frontend, make_proc. consented. Qed.

Hint Resolve consented_start_daphne consented_start_frontend : harmless.

Lemma consented_run_timer (a : TimerAction) :
  respects consented (run_timer E cfg status_callback notify_callback a).
Proof. unfold run_timer, _restart_proc. consented. Qed.

Lemma consented_run_op (o : Op) :
  respects consented (run_op E cfg status_callback notify_callback o).
Proof.
  destruct o; simpl; unfold start_all, start_backend, make_proc; consented.
  intros s. unfold fire_next.
  destruct (pop_earliest (timers s)) as [[[t a] rest]|]; [|reflexivity].
  set (s1 := with_timers rest (with_now (Z.max (now s) t) s)).
  transitivity s1; [exists []; simpl; now rewrite app_nil_r|].
  apply respects_suppress; order_goal. apply consented_run_timer.
Qed.

Lemma consented_grows (s s' : State) : consented s s' -> grows s s'.
Proof. intros (evs & H & _). now exists evs. Qed.

(** An open port is logged before anything else happens. *)
Lemma conflict_is_logged (port : Z) (svc : string) (s : State) :
  tcp_connect E (asked s) "127.0.0.1" port = true ->
  exists evs : list Event,
    trace (snd (check_port_conflict E notify_callback port svc s))
    = (trace s ++ UiLog (now s) ("⚠️ Port " +:+ pretty port +:+ " is already in use! "
                                 +:+ svc +:+ " may fail to start.") "INFO" :: evs)%list.
Proof.
  intros Hopen. unfold check_port_conflict, _tcp_open.
  rewrite bind_bind, bind_ask, bind_ret, Hopen, bind_log.
  set (s1 := with_trace _ _).
  match goal with |- context [snd (?rest s1)] =>
    assert (Hr : respects grows rest) end.
  { apply (respects_weaken consented); [exact consented_grows|]. consented. }
  destruct (Hr s1) as [evs Hevs]. exists evs. rewrite Hevs. unfold s1. simpl.
  now rewrite <- app_assoc.
Qed.

(** C8. Whatever the controller does, a signal goes to a process it
    does not own only after the confirmation prompt answered yes in the
    same operation.  The flow logs the conflict as soon as it finds the
    port open.  Without a Tk root [_prompt_kill_pids] logs the list of
    listeners, with a root and any answer but yes it logs nothing more,
    and in both cases it returns false and sends no signal. *)
Theorem no_kill_without_consent :
  (forall port pids svc, respects consented (_prompt_kill_pids E port pids svc)) /\
  (forall port svc, respects consented (check_port_conflict E notify_callback port svc)) /\
  (forall o, respects consented (run_op E cfg status_callback notify_callback o)) /\
  (forall port svc s,
     tcp_connect E (asked s) "127.0.0.1" port = true ->
     exists evs : list Event,
       trace (snd (check_port_conflict E notify_callback port svc s))
       = (trace s ++ UiLog (now s) ("⚠️ Port " +:+ pretty port +:+ " is already in use! "
                                    +:+ svc +:+ " may fail to start.") "INFO" :: evs)%list) /\
  (forall port pids svc s,
     pids <> [] ->
     tk_default_root E (asked s) <> HasRoot ->
     _prompt_kill_pids E port pids svc s
     = (Returned false,
        with_trace (trace s ++ [UiLog (now s) (conflict_msg port pids svc) "INFO"])
          (with_asked (S (asked s)) s))) /\
  (forall port pids svc s,
     pids <> [] ->
     tk_default_root E (asked s) = HasRoot ->
     askyesno E (S (asked s)) "Port In Use" (conflict_msg port pids svc) <> Answer true ->
     _prompt_kill_pids E port pids svc s
     = (Returned false,
        with_trace
          (trace s ++ [AskYesNo "Port In Use" (conflict_msg port pids svc)
                         (askyesno E (S (asked s)) "Port In Use" (conflict_msg port pids svc))])
          (with_asked (S (S (asked s))) s))).
Proof.
  split; [exact consented_prompt_kill_pids|].
  split; [exact consented_check_port_conflict|].
  split; [exact consented_run_op|].
  split; [exact conflict_is_logged|].
  split.
  - intros port pids svc s Hne Hroot. unfold _prompt_kill_pids.
    destruct pids as [|row rest]; [congruence|].
    unfold confirm_kill. rewrite bind_bind, bind_ask.
    destruct (tk_default_root E (asked s)); [congruence| |]; reflexivity.
  - intros port pids svc s Hne Hroot Hno. unfold _prompt_kill_pids.
    destruct pids as [|row rest]; [congruence|].
    unfold confirm_kill. rewrite bind_bind, bind_ask, Hroot.
    rewrite bind_bind, bind_ask, bind_bind, bind_emit, bind_ret. simpl.
    destruct (askyesno E _ _ _) as [[|]|]; [congruence|reflexivity..].
Qed.

End Consent.

(** ** The HTTP probe *)

Section Http.

Variable E : Environment.

Lemma http_ok_run (url : string) (timeout : Z) (s : State) :
  fst (_http_ok E url timeout s)
  = Returned (match http_response E url s with
              | Some st => status_ok st
              | None => false
              end).
Proof.
  unfold _http_ok, http_response, catch.
  destruct (url_parts url) as [[[host port] path]|e]; [|reflexivity].
  destruct (py_int E port) as [pn|]; [|reflexivity].
  rewrite bind_ask.
  destruct (http_get E (asked s) host pn path); reflexivity.
Qed.

(** C9 (amended). [_http_ok] never raises; it answers true exactly when
    a response is obtained whose status is at least 200 and under 500.
    So 3xx and 4xx responses count as reachable; a response under 200
    or from 500 on, and any failure to obtain a response, count as not
    reachable. *)
Theorem http_ok_iff_200_to_499 (url : string) (timeout : Z) (s : State) :
  (exists b, fst (_http_ok E url timeout s) = Returned b) /\
  (fst (_http_ok E url timeout s) = Returned true <->
   exists st, http_response E url s = Some st /\ 200 <= st < 500) /\
  (forall st, http_response E url s = Some st -> 300 <= st < 500 ->
     fst (_http_ok E url timeout s) = Returned true) /\
  (forall st, http_response E url s = Some st -> st < 200 \/ 500 <= st ->
     fst (_http_ok E url timeout s) = Returned false) /\
  (http_response E url s = None -> fst (_http_ok E url timeout s) = Returned false).
Proof.
  rewrite http_ok_run. split; [now eexists|]. split; [|split; [|split]].
  - destruct (http_response E url s) as [st|]; unfold status_ok; split.
    + intros [= H]. exists st. split; [reflexivity|]. lia.
    + intros (st' & [= <-] & H). f_equal. lia.
    + discriminate.
    + intros (st' & H & _). discriminate.
  - intros st -> H. unfold status_ok. f_equal. lia.
  - intros st -> H. unfold status_ok. f_equal. lia.
  - now intros ->.
Qed.

End Http.

(** ** The stop sequence *)

Lemma tbl_pop_absent (key : string) (t : list (string * loc)) :
  tbl_get key t = None -> tbl_pop key t = t.
Proof.
  induction t as [|[k l] t IH]; simpl; [reflexivity|].
  destruct (String.eqb k key); [discriminate|]. intros H. now rewrite IH.
Qed.

Lemma tbl_get_pop_ne (key k : string) (t : list (string * loc)) :
  k <> key -> tbl_get k (tbl_pop key t) = tbl_get k t.
Proof.
  intros Hne. induction t as [|[k0 l] t IH]; simpl; [reflexivity|].
  destruct (String.eqb_spec k0 key) as [->|Hk0].
  - destruct (String.eqb_spec key k); [congruence|reflexivity].
  - simpl. now rewrite IH.
Qed.

Lemma stopped_keys_app (a b : list Event) :
  stopped_keys (a ++ b) = (stopped_keys a ++ stopped_keys b)%list.
Proof. apply flat_map_app. Qed.

Lemma stopped_keys_repeat (k : nat) : stopped_keys (repeat (Slept 200) k) = [].
Proof. induction k as [|k IH]; [reflexivity|exact IH]. Qed.

Lemma stopped_keys_stop_events (nm : string) (pp : popen_ref) (t0 : Z) (k : nat) (b : bool) :
  stopped_keys (stop_events nm pp t0 k b) = [].
Proof.
  unfold stop_events. rewrite !stopped_keys_app, stopped_keys_repeat.
  destruct b; reflexivity.
Qed.

Section StopOrder.

Variable E : Environment.
Variable cfg : Paths.
Variable cb : nat -> string -> ProcessStatus -> option Exn.
Hypothesis cb_quiet : forall n key st, cb n key st = None.

(** What [_terminate] does when the status callback returns normally. *)
Lemma terminate_quiet_run (key : string) (s : State) :
  wf s ->
  exists s' evs,
    _terminate (Some cb) key s = (Returned tt, s') /\
    wf s' /\
    procs s' = tbl_pop key (procs s) /\
    trace s' = (trace s ++ evs)%list /\
    stopped_keys evs = if tracked s key then [key] else [].
Proof.
  intros Hwf. unfold tracked.
  destruct (tbl_get key (procs s)) as [l|] eqn:Ht.
  2:{ exists s, []. rewrite terminate_absent_key by exact Ht.
      rewrite tbl_pop_absent by exact Ht. rewrite app_nil_r. auto. }
  destruct (wf_tracked _ _ _ Hwf Ht) as [Hl Hp].
  assert (Hfin : forall s1 evs1,
    procs s1 = procs s -> heap s1 = heap s -> trace s1 = (trace s ++ evs1)%list ->
    stopped_keys evs1 = [] ->
    exists s' evs,
      commit_stopped (Some cb) key l s1 = (Returned tt, s') /\
      wf s' /\ procs s' = tbl_pop key (procs s) /\
      trace s' = (trace s ++ evs)%list /\ stopped_keys evs = [key]).
  { intros s1 evs1 Hp1 Hh1 Ht1 Hk1.
    unfold commit_stopped, call_status. repeat mstep. rewrite cb_quiet. mstep.
    eexists. exists (evs1 ++ [StatusCb key STOPPED])%list. split; [reflexivity|].
    simpl. rewrite Hp1, Hh1, Ht1.
    rewrite list_lookup_total_insert_eq by exact Hl. simpl.
    split; [|split; [reflexivity|split; [now rewrite app_assoc|]]].
    - destruct Hwf as [Hnd Hall]. split; simpl.
      + now apply tbl_pop_NoDup.
      + rewrite List.Forall_forall in *. intros [k l1] Hin.
        apply tbl_pop_incl in Hin. destruct (Hall _ Hin) as [Hl1 Hp1'].
        unfold tracked_ok in *. simpl in *. rewrite length_insert.
        split; [exact Hl1|].
        destruct (Nat.eq_dec l l1) as [<-|Hne].
        * now rewrite list_lookup_total_insert_eq.
        * now rewrite list_lookup_total_insert_ne.
    - now rewrite stopped_keys_app, Hk1. }
  unfold _terminate. mstep. rewrite Ht. mstep.
  destruct (p (heap s !!! l)) as [pp|] eqn:Hpp; [|congruence].
  mstep. destruct (poll_in s pp) eqn:Hpoll.
  - rewrite bind_ret. apply (Hfin s []); auto. now rewrite app_nil_r.
  - destruct (poll_in_live _ _ Hpoll) as [o [Ho Hlive]].
    erewrite bind_returned by (apply graceful_stop_run; eassumption).
    cbv zeta.
    destruct (poll_at _ (sigterm (now s) o));
      eapply Hfin; try reflexivity; apply stopped_keys_stop_events.
Qed.

Lemma stop_one_quiet_run (key : string) (s : State) :
  wf s ->
  exists s' evs,
    stop_one (Some cb) key s = (Returned tt, s') /\
    wf s' /\
    procs s' = tbl_pop key (procs s) /\
    trace s' = (trace s ++ evs)%list /\
    stopped_keys evs = if tracked s key then [key] else [].
Proof.
  intros Hwf. destruct (terminate_quiet_run key s Hwf) as (s1 & evs & Hr & Hwf1 & Hp & Ht & Hk).
  unfold stop_one, catch. erewrite bind_returned by exact Hr.
  eexists. exists (evs ++ [Slept 500])%list. split; [reflexivity|]. simpl.
  split; [|split; [exact Hp|split]].
  - destruct Hwf1 as [H1 H2]. split; [exact H1|exact H2].
  - now rewrite Ht, app_assoc.
  - rewrite stopped_keys_app, Hk. simpl. now rewrite app_nil_r.
Qed.

Lemma stop_loop_run (ks : list string) (s : State) :
  wf s ->
  List.NoDup ks ->
  exists s' evs,
    for_each ks (stop_one (Some cb)) s = (Returned tt, s') /\
    trace s' = (trace s ++ evs)%list /\
    stopped_keys evs = List.filter (tracked s) ks.
Proof.
  revert s. induction ks as [|k ks IH]; intros s Hwf Hnd.
  - exists s, []. simpl. now rewrite app_nil_r.
  - apply List.NoDup_cons_iff in Hnd as [Hk Hnd].
    destruct (stop_one_quiet_run k s Hwf) as (s1 & evs1 & Hr & Hwf1 & Hp & Ht & Hs).
    destruct (IH s1 Hwf1 Hnd) as (s2 & evs2 & Hr2 & Ht2 & Hs2).
    exists s2, (evs1 ++ evs2)%list. simpl for_each.
    erewrite bind_returned by exact Hr. split; [exact Hr2|].
    split; [now rewrite Ht2, Ht, app_assoc|].
    rewrite stopped_keys_app, Hs, Hs2. simpl List.filter.
    assert (Hsame : List.filter (tracked s1) ks = List.filter (tracked s) ks).
    { apply List.filter_ext_in. intros k' Hin. unfold tracked. rewrite Hp.
      rewrite tbl_get_pop_ne; [reflexivity|]. intros ->. contradiction. }
    rewrite Hsame. destruct (tracked s k); reflexivity.
Qed.

(** The keys [worker] reports as Stopped are the tracked keys of
    [order], in that order. *)
Lemma worker_stops_in_order (s : State) :
  wf s ->
  exists evs,
    trace (snd (worker E cfg (Some cb) s)) = (trace s ++ evs)%list /\
    stopped_keys evs = List.filter (tracked s) order.
Proof.
  intros Hwf. unfold worker. rewrite bind_log.
  set (s0 := with_trace _ s).
  assert (Hwf0 : wf s0) by (destruct Hwf; split; assumption).
  destruct (stop_loop_run order s0 Hwf0) as (s1 & evs & Hr & Ht & Hs).
  { unfold order. repeat (apply List.NoDup_cons_iff; split;
      [simpl; intuition discriminate|]). constructor. }
  erewrite bind_returned by exact Hr.
  rewrite bind_sleep. unfold _tcp_open.
  rewrite !bind_bind, bind_ask, bind_ret.
  match goal with |- context [tcp_connect E ?a ?b ?c] => destruct (tcp_connect E a b c) end;
    rewrite ?bind_bind, ?bind_log, ?bind_ret, ?bind_bind, bind_ask, bind_ret;
    match goal with |- context [tcp_connect E ?a ?b ?c] => destruct (tcp_connect E a b c) end;
    rewrite ?bind_log; unfold log; rewrite ?bind_gets; simpl;
    rewrite Ht; unfold s0; simpl; rewrite <- !app_assoc; simpl.
  all: eexists; split; [reflexivity|].
  all: simpl; rewrite !stopped_keys_app; simpl; rewrite Hs, ?app_nil_r; reflexivity.
Qed.

End StopOrder.

Lemma index_of_In (k : string) (l : list string) (i : nat) :
  index_of k l = Some i -> In k l.
Proof.
  revert i. induction l as [|x l IH]; intros i; simpl; [discriminate|].
  destruct (String.eqb_spec x k) as [->|_]; [now left|].
  destruct (index_of k l) as [j|]; [|discriminate]. intros _. right. now apply (IH j).
Qed.

(** C2 (amended). For every pair of stages with A started before B,
    other than redis before migrate, the stop sequence has the key of B
    before the key of A; redis_docker comes before migrate in it.  What
    [worker] reports as Stopped are the tracked keys in that sequence. *)
Theorem stop_order_reverse_except_redis_migrate :
  (forall A B,
     before A B pipeline = true ->
     ~ (A = "redis_docker" /\ B = "migrate") ->
     before B A order = true) /\
  before "redis_docker" "migrate" order = true /\
  (forall E cfg cb s,
     (forall n key st, cb n key st = None) ->
     wf s ->
     exists evs,
       trace (snd (worker E cfg (Some cb) s)) = (trace s ++ evs)%list /\
       stopped_keys evs = List.filter (tracked s) order).
Proof.
  split; [|split; [reflexivity|]].
  - intros A B H Hne. unfold before in H.
    destruct (index_of A pipeline) as [i|] eqn:HA; [|discriminate].
    destruct (index_of B pipeline) as [j|] eqn:HB; [|discriminate].
    assert (HinA : In A pipeline) by (eapply index_of_In; eassumption).
    assert (HinB : In B pipeline) by (eapply index_of_In; eassumption).
    simpl in HinA, HinB.
    repeat (destruct HinA as [<-|HinA]); try contradiction;
      repeat (destruct HinB as [<-|HinB]); try contradiction;
      vm_compute in HA, HB; injection HA as <-; injection HB as <-;
      try reflexivity; try discriminate H.
    exfalso. apply Hne. now split.
  - intros E cfg cb s Hq Hwf. now apply worker_stops_in_order.
Qed.

(** ** The restart counter *)

#[local] Instance leaves_counts_preorder (l : loc) : PreOrder (leaves_counts l).
Proof.
  split.
  - intros s. repeat split; auto; lia.
  - intros a b c (H1 & H2 & H3 & H4) (H5 & H6 & H7 & H8). repeat split.
    + lia.
    + intros l' Hl. rewrite H6 by lia. now apply H2.
    + intros l' Hl. destruct (Nat.lt_ge_cases l' (length (heap b))) as [Hlt|Hge].
      * rewrite H6 by lia. apply H3. lia.
      * apply H7. lia.
    + intros l' Hl Hne Hr. apply H4; auto. apply H8; auto. lia.
Qed.

#[local] Instance keeps_low_preorder : PreOrder keeps_low.
Proof. split; unfold keeps_low; [intros s|intros a b c]; auto. Qed.

#[local] Instance logs_preorder : PreOrder logs.
Proof.
  split.
  - intros s. repeat split. exists []. now rewrite app_nil_r.
  - intros a b c (H1 & H2 & H3 & t1 & H4) (H5 & H6 & H7 & t2 & H8).
    repeat split; try congruence.
    exists (t1 ++ t2)%list. now rewrite H8, H4, <- app_assoc.
Qed.

#[local] Instance tallies_preorder (l : loc) (c : Z) : PreOrder (tallies l c).
Proof.
  split.
  - intros s. split; auto.
  - intros s1 s2 s3 [H1 H2] [H3 H4]. split; [auto|].
    destruct H4 as [H4|H4]; [rewrite H4; exact H2|now right].
Qed.

Lemma leaves_of_quiet (l : loc) {A} (m : M A) :
  respects same_table m -> respects (leaves_counts l) m.
Proof.
  apply respects_weaken. intros s s' (_ & Hh & _). unfold leaves_counts.
  rewrite Hh. repeat split; auto; lia.
Qed.

Lemma leaves_modify (l : loc) (f : State -> State) :
  (forall s, heap (f s) = heap s) -> respects (leaves_counts l) (modify f).
Proof.
  intros Hf. apply respects_modify. intros s. unfold leaves_counts.
  rewrite Hf. repeat split; auto; lia.
Qed.

(** An assignment to a field other than [restart_count]; [status]
    becomes Running on the handle [l] only. *)
Lemma leaves_update (l l' : loc) (f : Proc -> Proc) :
  (forall h, restart_count (f h) = restart_count h) ->
  l' = l \/ (forall h, status (f h) = RUNNING -> status h = RUNNING) ->
  respects (leaves_counts l) (update l' f).
Proof.
  intros Hc Hs s. simpl. unfold leaves_counts. simpl. rewrite length_insert.
  repeat split; [lia| | |].
  - intros l1 Hl1. destruct (Nat.eq_dec l' l1) as [->|Hne].
    + rewrite list_lookup_total_insert_eq by exact Hl1. apply Hc.
    + now rewrite list_lookup_total_insert_ne.
  - intros l1 Hl1. lia.
  - intros l1 Hl1 Hne. destruct (Nat.eq_dec l' l1) as [->|Hne'].
    + destruct Hs as [->|Hs]; [contradiction|].
      rewrite list_lookup_total_insert_eq by exact Hl1. apply Hs.
    + now rewrite list_lookup_total_insert_ne.
Qed.

(** The continuation of [Proc(...)] runs with the new object, whose
    counter is 0, in the store. *)
Lemma leaves_new_proc (x : loc) (h : Proc) {B} (f : loc -> M B) :
  restart_count h = 0 ->
  (forall l, respects (leaves_counts l) (f l)) ->
  respects (leaves_counts x) (bind (new_proc h) f).
Proof.
  intros Hh Hf s. unfold bind, new_proc.
  set (s1 := with_heap (heap s ++ [h]) s).
  assert (Hlen : length (heap s1) = S (length (heap s))).
  { unfold s1. simpl. rewrite length_app. simpl. lia. }
  assert (Hold : forall l', (l' < length (heap s))%nat -> heap s1 !!! l' = heap s !!! l').
  { intros l' Hl'. unfold s1. simpl. now rewrite lookup_total_app_l. }
  assert (Hnew : heap s1 !!! length (heap s) = h).
  { unfold s1. simpl. rewrite lookup_total_app_r by lia.
    now rewrite Nat.sub_diag. }
  destruct (Hf (length (heap s)) s1) as (H1 & H2 & H3 & H4).
  repeat split.
  - lia.
  - intros l' Hl'. rewrite H2 by lia. now rewrite Hold.
  - intros l' Hl'. destruct (Nat.eq_dec l' (length (heap s))) as [->|Hne].
    + rewrite H2 by lia. now rewrite Hnew.
    + apply H3. lia.
  - intros l' Hl' _ Hr. rewrite <- Hold by exact Hl'. apply H4; [lia|lia|exact Hr].
Qed.

(** The counters stay low over a step that leaves them alone, when the
    handle that may become Running has counted nothing. *)
Lemma counts_low_leaves (l : loc) (s s' : State) :
  leaves_counts l s s' ->
  counts_low s ->
  ((l < length (heap s))%nat -> restart_count (heap s !!! l) = 0) ->
  counts_low s'.
Proof.
  intros (H1 & H2 & H3 & H4) Hlow Hl l' Hl'.
  destruct (Nat.lt_ge_cases l' (length (heap s))) as [Hlt|Hge].
  - unfold counted_once. rewrite H2 by exact Hlt.
    destruct (Hlow l' Hlt) as [H0|[H1' Hst]]; [now left|].
    destruct (Nat.eq_dec l' l) as [->|Hne].
    + left. now apply Hl.
    + right. split; [exact H1'|]. intros Hr. apply Hst. now apply H4.
  - left. apply H3. lia.
Qed.

Lemma low_of_leaves {A} (m : M A) :
  (forall x, respects (leaves_counts x) m) -> respects keeps_low m.
Proof.
  intros H s Hlow.
  apply (counts_low_leaves (length (heap s)) s); [apply H|exact Hlow|lia].
Qed.

Create HintDb counts.
#[local] Hint Extern 2 (respects (leaves_counts _) _) =>
  (apply leaves_of_quiet; solve [auto with quiet | apply quiet_modify; same]) : counts.
#[local] Hint Extern 1 (respects (leaves_counts _) (update _ _)) =>
  (apply leaves_update;
   [intros ?; reflexivity
   |first [left; reflexivity | right; intros ?; simpl; solve [discriminate | auto]]]) : counts.
#[local] Hint Extern 1 (respects (leaves_counts _) (modify _)) =>
  (apply leaves_modify; intros ?; reflexivity) : counts.

Ltac cstep :=
  match goal with
  | |- respects (leaves_counts _) (bind (make_proc _ _ _ _ _ _) _) =>
      unfold make_proc; apply leaves_new_proc; [reflexivity|intros ?]
  | _ => rstep
  end.

Ltac counts := repeat cstep; auto with counts.

Section Counter.

Variable E : Environment.
Variable cfg : Paths.
Variable status_callback : option (nat -> string -> ProcessStatus -> option Exn).
Variable notify_callback : option (nat -> string -> string -> option Exn).

Lemma leaves_spawn (key : string) (l : loc) :
  respects (leaves_counts l) (_spawn E status_callback notify_callback key l).
Proof. unfold _spawn, launch_and_track, try_launch, commit_running. counts. Qed.

Lemma leaves_terminate (x : loc) (key : string) :
  respects (leaves_counts x) (_terminate status_callback key).
Proof. unfold _terminate, commit_stopped. counts. Qed.

Hint Resolve leaves_spawn leaves_terminate : counts.

Lemma leaves_migrate_db (x : loc) :
  respects (leaves_counts x) (migrate_db E cfg status_callback notify_callback).
Proof. unfold migrate_db. counts. Qed.

Lemma leaves_ensure_redis (x : loc) :
  respects (leaves_counts x) (ensure_redis E cfg status_callback notify_callback).
Proof. unfold ensure_redis. counts. Qed.

Lemma leaves_start_daphne (x : loc) :
  respects (leaves_counts x) (start_daphne E cfg status_callback notify_callback).
Proof. unfold start_daphne. counts. Qed.

Lemma leaves_start_celery_beat (x : loc) :
  respects (leaves_counts x) (start_celery_beat E cfg status_callback notify_callback).
Proof. unfold start_celery_beat. counts. Qed.

Lemma leaves_start_celery_worker (x : loc) :
  respects (leaves_counts x) (start_celery_worker E cfg status_callback notify_callback).
Proof. unfold start_celery_worker. counts. Qed.

Lemma leaves_start_frontend (x : loc) :
  respects (leaves_counts x) (start_frontend E cfg status_callback notify_callback).
Proof. unfold start_frontend. counts. Qed.

Hint Resolve leaves_migrate_db leaves_ensure_redis leaves_start_daphne
  leaves_start_celery_beat leaves_start_celery_worker leaves_start_frontend : counts.

Lemma leaves_start_backend (x : loc) :
  respects (leaves_counts x) (start_backend E cfg status_callback notify_callback).
Proof. unfold start_backend. counts. Qed.

Lemma leaves_start_all (x : loc) :
  respects (leaves_counts x) (start_all E cfg status_callback notify_callback).
Proof. unfold start_all. counts. apply leaves_start_backend. Qed.

Lemma leaves_worker (x : loc) :
  respects (leaves_counts x) (worker E cfg status_callback).
Proof.
  unfold worker. counts.
  all: try (apply respects_for_each; order_goal; intros key _; unfold stop_one; counts).
Qed.

(** The restart path: [_restart_proc] writes no counter; the handle it
    tracks afterwards is the one [start_...] has just built. *)
Lemma leaves_restart_proc (x : loc) (key : string) :
  respects (leaves_counts x) (_restart_proc E cfg status_callback notify_callback key).
Proof. unfold _restart_proc. counts. Qed.

Lemma leaves_run_timer (x : loc) (a : TimerAction) :
  respects (leaves_counts x) (run_timer E cfg status_callback notify_callback a).
Proof. unfold run_timer. counts. apply leaves_restart_proc. Qed.

Lemma leaves_fire_next (x : loc) :
  respects (leaves_counts x) (fire_next E cfg status_callback notify_callback).
Proof.
  intros s. unfold fire_next.
  destruct (pop_earliest (timers s)) as [[[t a] rest]|]; [|reflexivity].
  set (s1 := with_timers rest (with_now (Z.max (now s) t) s)).
  transitivity s1.
  - unfold leaves_counts. change (heap s1) with (heap s). repeat split; auto; lia.
  - apply respects_suppress; order_goal. apply leaves_run_timer.
Qed.

End Counter.

(** *** The monitor *)

Lemma status_eqb_eq (a b : ProcessStatus) : status_eqb a b = true <-> a = b.
Proof. destruct a, b; simpl; split; congruence. Qed.

Lemma tallies_of_still (l : loc) (c : Z) {A} (m : M A) :
  respects still m -> respects (tallies l c) m.
Proof.
  apply respects_weaken. intros s s' (_ & Hh & _). unfold tallies.
  rewrite Hh. auto.
Qed.

Lemma tallies_update (l : loc) (c : Z) (f : Proc -> Proc) :
  (forall h, status (f h) = status h) ->
  (forall h, restart_count (f h) = restart_count h \/ restart_count (f h) = c) ->
  respects (tallies l c) (update l f).
Proof.
  intros Hs Hc s. simpl. unfold tallies. simpl.
  destruct (Nat.lt_ge_cases l (length (heap s))) as [Hlt|Hge].
  - rewrite list_lookup_total_insert_eq by exact Hlt. rewrite Hs. auto.
  - rewrite list_insert_ge by exact Hge. auto.
Qed.

Lemma logs_modify (f : State -> State) :
  (forall s, logs s (f s)) -> respects logs (modify f).
Proof. intros H. apply respects_modify. exact H. Qed.

Lemma logs_emit (e : Event) : respects logs (emit e).
Proof. intros s. simpl. repeat split. now exists [e]. Qed.

Lemma logs_ask : respects logs ask.
Proof. intros s. simpl. repeat split. exists []. now rewrite app_nil_r. Qed.

Section CounterMonitor.

Variable E : Environment.
Variable cfg : Paths.
Variable status_callback : option (nat -> string -> ProcessStatus -> option Exn).
Variable notify_callback : option (nat -> string -> string -> option Exn).

Lemma logs_call_status (key : string) (l : loc) :
  respects logs (call_status status_callback key l).
Proof. unfold call_status. repeat rstep; auto using logs_emit, logs_ask. Qed.

(** A callback that returns normally leaves store, timers and clock as
    they are. *)
Lemma call_notify_logs_run (msg sev : string) (s : State) :
  notify_quiet notify_callback ->
  exists s', call_notify notify_callback msg sev s = (Returned tt, s') /\ logs s s'.
Proof.
  intros Hq. unfold call_notify. destruct notify_callback as [cb|] eqn:Hcb.
  - repeat mstep. rewrite (Hq cb eq_refl). eexists. split; [reflexivity|].
    simpl. repeat split. now eexists [_].
  - eexists. split; [reflexivity|reflexivity].
Qed.

(** What one check of the monitor does to the counter of the handle it
    looks at: nothing, or one more on a handle that was Running and is
    Failed now. *)
Lemma check_proc_count (key : string) (l : loc) (s : State) :
  (l < length (heap s))%nat ->
  let s' := snd (check_proc status_callback notify_callback key l s) in
  restart_count (heap s' !!! l) = restart_count (heap s !!! l) \/
  (status (heap s !!! l) = RUNNING /\ status (heap s' !!! l) = FAILED /\
   restart_count (heap s' !!! l) = restart_count (heap s !!! l) + 1).
Proof.
  intros Hl. cbv zeta. unfold check_proc.
  rewrite bind_modify, bind_deref.
  set (s0 := with_monitor_key (Some key) s).
  change (heap s0) with (heap s).
  set (h := heap s !!! l).
  assert (Hstill : forall rest : M unit, respects still rest ->
            restart_count (heap (snd (rest s0)) !!! l) = restart_count h).
  { intros rest Hr. destruct (Hr s0) as (_ & -> & _). reflexivity. }
  assert (Hquiet : respects still
            (bind (ret tt) (fun _ => call_status status_callback key l))).
  { still. apply still_call_status. }
  destruct (p h) as [pp|] eqn:Hp.
  - rewrite bind_bind, bind_poll.
    destruct (poll_in s0 pp) as [rc|]; rewrite bind_ret;
      [destruct (status_eqb (status h) RUNNING) eqn:Hst|]; cbv beta iota.
    + apply status_eqb_eq in Hst.
      rewrite bind_bind, bind_update.
      set (s1 := with_heap _ _).
      assert (H1 : status (heap s1 !!! l) = FAILED).
      { unfold s1. simpl. now rewrite list_lookup_total_insert_eq. }
      assert (H2 : restart_count (heap s1 !!! l) = restart_count h).
      { unfold s1. simpl. now rewrite list_lookup_total_insert_eq. }
      match goal with |- context [snd (?rest s1)] =>
        assert (Hm : respects (tallies l (restart_count h + 1)) rest) end.
      { repeat rstep;
          try (apply tallies_update; intros ?; simpl; auto);
          try (apply tallies_of_still;
               solve [apply still_log | apply still_start_timer | apply still_call_status
                     | apply still_call_notify | apply still_modify; same]). }
      destruct (Hm s1) as [Hs [Hc|Hc]].
      * left. now rewrite Hc.
      * right. repeat split; [exact Hst|now apply Hs|exact Hc].
    + left. now apply Hstill.
    + left. now apply Hstill.
  - rewrite bind_ret. left. now apply Hstill.
Qed.

Lemma low_check_proc (key : string) (l : loc) :
  respects keeps_low (check_proc status_callback notify_callback key l).
Proof.
  intros s Hlow l' Hl'.
  destruct (marks_check_proc status_callback notify_callback key l s)
    as (_ & _ & Hlen & _ & Hst).
  rewrite Hlen in Hl'.
  destruct (Nat.eq_dec l' l) as [->|Hne].
  - destruct (check_proc_count key l s Hl') as [Hc|(Hr & Hf & Hc)];
      unfold counted_once.
    + rewrite Hc. destruct (Hlow l Hl') as [H0|[H1 Hs]]; [now left|].
      right. split; [exact H1|]. destruct (Hst l) as [-> | ->]; [exact Hs|discriminate].
    + destruct (Hlow l Hl') as [H0|[_ Hs]]; [|contradiction].
      right. rewrite Hc, H0, Hf. split; [reflexivity|discriminate].
  - rewrite (frame_check_proc status_callback notify_callback [l] key l (or_introl eq_refl) s l').
    + now apply Hlow.
    + simpl. intros [H|[]]. congruence.
Qed.

Lemma low_monitor_tick :
  respects keeps_low (monitor_tick status_callback notify_callback).
Proof.
  unfold monitor_tick. repeat rstep.
  - apply respects_modify. intros s Hlow. exact Hlow.
  - apply respects_for_each; order_goal. intros kl _. apply low_check_proc.
Qed.

Lemma low_run_op (o : Op) :
  respects keeps_low (run_op E cfg status_callback notify_callback o).
Proof.
  destruct o; simpl; try apply low_monitor_tick; apply low_of_leaves; intros x.
  - apply leaves_start_backend.
  - apply leaves_start_all.
  - apply leaves_start_frontend.
  - apply leaves_migrate_db.
  - apply leaves_worker.
  - apply leaves_fire_next.
  - unfold make_proc. apply leaves_new_proc; [reflexivity|intros l; apply leaves_spawn].
  - apply leaves_terminate.
  - apply leaves_modify. intros s. reflexivity.
Qed.

(** In every state the controller can reach, no handle has a restart
    count above 1, and a handle that is Running has count 0. *)
Lemma reachable_counts_low (s : State) :
  reachable E cfg status_callback notify_callback s -> counts_low s.
Proof.
  induction 1 as [|o s Hr IH].
  - intros l Hl. simpl in Hl. lia.
  - now apply (low_run_op o s).
Qed.

End CounterMonitor.

(** C1. The restart count never gets near the bound.  In every state
    the controller can reach no handle has a count above 1, and the
    handle of a crashed process (one that is Running) has count 0:
    the restart path has put a new [Proc] object in the table.  So
    whenever the monitor finds an auto-restart service crashed, however
    often that service has been restarted before, the test
    [restart_count < 3] passes, the restart is announced as attempt 1
    of 3 and the 2 s restart timer is started (the notify callback
    returning normally). *)
Theorem crash_restarted_as_first_attempt
    (E : Environment) (cfg : Paths)
    (scb : option (nat -> string -> ProcessStatus -> option Exn))
    (ncb : option (nat -> string -> string -> option Exn))
    (s : State) (key : string) (l : loc) :
  reachable E cfg scb ncb s ->
  notify_quiet ncb ->
  (l < length (heap s))%nat ->
  crashed s l ->
  auto_restart (heap s !!! l) = true ->
  let s' := snd (check_proc scb ncb key l s) in
  (forall l', (l' < length (heap s))%nat -> restart_count (heap s !!! l') <= 1) /\
  restart_count (heap s !!! l) = 0 /\
  restart_count (heap s' !!! l) = 1 /\
  timers s' = (timers s ++ [(now s + 2000, CallRestartKey)])%list /\
  In (UiLog (now s)
        ("🔄 Auto-restarting " +:+ name (heap s !!! l) +:+ " (attempt 1/3)...") "INFO")
     (trace s').
Proof.
  intros Hreach Hq Hl (pp & rc & Hp & Hpoll & Hst) Har.
  pose proof (reachable_counts_low E cfg scb ncb s Hreach) as Hlow.
  assert (H0 : restart_count (heap s !!! l) = 0).
  { destruct (Hlow l Hl) as [H|[_ H]]; [exact H|contradiction]. }
  cbv zeta. split.
  { intros l' Hl'. destruct (Hlow l' Hl') as [H|[H _]]; lia. }
  split; [exact H0|].
  unfold check_proc. rewrite bind_modify, bind_deref.
  set (s0 := with_monitor_key (Some key) s).
  change (heap s0) with (heap s).
  set (h := heap s !!! l) in *.
  rewrite Hp, bind_bind, bind_poll.
  change (poll_in s0 pp) with (poll_in s pp).
  rewrite Hpoll, bind_ret, Hst. cbn [status_eqb]. cbv beta iota.
  rewrite Har, H0. change (0 <? 3) with true. cbn [andb].
  repeat mstep.
  match goal with |- context [bind (call_notify _ _ _) _ ?st] => set (s3 := st) end.
  destruct (call_notify_logs_run ncb (name h +:+ " stopped unexpectedly") "error" s3 Hq)
    as (s4 & Hrun & Hh4 & Ht4 & Hn4 & tail4 & Htr4).
  rewrite (bind_returned _ _ _ _ _ Hrun). cbv beta iota.
  repeat mstep. unfold start_timer. repeat mstep.
  match goal with |- context [call_status _ _ _ ?st] => set (s7 := st) end.
  destruct (logs_call_status scb key l s7) as (Hh & Ht & Hn & tail & Htr).
  rewrite Hh, Ht, Htr.
  assert (Hlen4 : (l < length (heap s4))%nat).
  { rewrite Hh4. unfold s3. simpl. now rewrite !length_insert. }
  assert (Hnow4 : now s4 = now s) by (rewrite Hn4; reflexivity).
  assert (Htm4 : timers s4 = timers s) by (rewrite Ht4; reflexivity).
  split; [|split].
  - unfold s7. simpl. now rewrite list_lookup_total_insert_eq.
  - unfold s7. simpl. now rewrite Htm4, Hnow4.
  - apply in_or_app. left. unfold s7. simpl. rewrite Hnow4.
    apply in_or_app. left. apply in_or_app. right. left. reflexivity.
Qed.

(** ** The properties on concrete runs *)

Lemma reachable_run_ops (E : Environment) (cfg : Paths) scb ncb (ops : list Op) (s : State) :
  reachable E cfg scb ncb s -> reachable E cfg scb ncb (run_ops E cfg scb ncb ops s).
Proof.
  revert s. induction ops as [|o ops IH]; intros s H; simpl; [exact H|].
  apply IH. now constructor.
Qed.

(** The restart bound on a run.  The frontend exits at once every time
    it is launched.  After four turns of the monitor, each followed by
    its restart timer, the supervisor has launched it five times: once
    by hand and four times automatically, each time as "attempt 1/3".
    Every automatic restart put a new handle with restart count 0 in
    the table, so the count of the tracked handle never reaches 3. *)
Lemma crash_loop_restarts_four_times :
  let s := restarted_four_times in
  length (List.filter is_popen_call (trace s)) = 5%nat /\
  length (List.filter is_restart_timer (trace s)) = 4%nat /\
  procs s = [("frontend", 4%nat)] /\
  map restart_count (heap s) = [1; 1; 1; 1; 0] /\
  map status (heap s) = [FAILED; FAILED; FAILED; FAILED; RUNNING] /\
  List.filter (fun e => match e with
                        | UiLog _ line _ => String.prefix "🔄" line
                        | _ => false
                        end) (trace s)
  = [UiLog 2000 "🔄 Auto-restarting frontend (attempt 1/3)..." "INFO";
     UiLog 6000 "🔄 Auto-restarting frontend (attempt 1/3)..." "INFO";
     UiLog 10000 "🔄 Auto-restarting frontend (attempt 1/3)..." "INFO";
     UiLog 14000 "🔄 Auto-restarting frontend (attempt 1/3)..." "INFO"].
Proof. vm_compute. repeat split. Qed.

Lemma crash_restarted_as_first_attempt_witness :
  let s := restarted_four_times in
  let s' := snd (check_proc None None "frontend" 4%nat s) in
  crashed s 4%nat /\
  (forall l', (l' < length (heap s))%nat -> restart_count (heap s !!! l') <= 1) /\
  restart_count (heap s !!! 4%nat) = 0 /\
  restart_count (heap s' !!! 4%nat) = 1 /\
  timers s' = (timers s ++ [(now s + 2000, CallRestartKey)])%list /\
  In (UiLog (now s)
        ("🔄 Auto-restarting " +:+ name (heap s !!! 4%nat) +:+ " (attempt 1/3)...") "INFO")
     (trace s').
Proof.
  assert (Hc : crashed restarted_four_times 4%nat).
  { exists 4%nat, 1. vm_compute. repeat split. }
  split; [exact Hc|].
  apply (crash_restarted_as_first_attempt env_crashing cfg_default None None
           restarted_four_times "frontend" 4%nat).
  - apply reachable_run_ops. constructor.
  - intros f Hf. discriminate Hf.
  - vm_compute. lia.
  - exact Hc.
  - reflexivity.
Defined.

(** The stages of a full run start in the order of [pipeline] and stop
    in the order of [order]. *)
Lemma full_run_orders :
  starting_keys (trace full_run) = pipeline /\ stopped_keys (trace full_run) = order.
Proof. vm_compute. split; reflexivity. Qed.

(** C2 as stated fails on a full run: redis is started before migrate
    and also stopped before it. *)
Lemma full_run_stops_redis_before_migrate : ~ stop_reverses_start (trace full_run).
Proof.
  intros H. specialize (H "redis_docker" "migrate").
  destruct full_run_orders as [-> ->] in H.
  specialize (H eq_refl). vm_compute in H. discriminate H.
Qed.

Lemma stop_order_witness :
  before "daphne" "frontend" pipeline = true /\
  before "frontend" "daphne" order = true.
Proof.
  split; [reflexivity|].
  apply (proj1 stop_order_reverse_except_redis_migrate "daphne" "frontend").
  - reflexivity.
  - intros [H _]. discriminate H.
Defined.



Lemma backend_crashed_wf : wf backend_crashed.
Proof.
  apply (reachable_wf env_crashing cfg_default None notify_failing).
  apply reachable_run_ops. constructor.
Defined.


Lemma backend_crashed_quiet_wf :
  wf (run_ops env_crashing cfg_default None None
        [DoStartBackend; DoFireTimer; DoFireTimer; DoFireTimer] init_state).
Proof.
  apply (reachable_wf env_crashing cfg_default None None).
  apply reachable_run_ops. constructor.
Defined.


Lemma spawn_idempotent_witness :
  let s := snd (new_proc frontend_proc frontend_running) in
  tbl_get "frontend" (procs s) = Some 0%nat /\
  p (heap s !!! 0%nat) = Some 0%nat /\
  poll_in s 0%nat = None /\
  _spawn env_steady None None "frontend" 1%nat s
  = (Returned tt, with_trace (trace s ++ [UiLog 0 "frontend already running." "INFO"]) s).
Proof.
  cbv zeta. split; [reflexivity|]. split; [reflexivity|]. split; [reflexivity|].
  apply (spawn_idempotent env_steady None None "frontend" 1%nat 0%nat 0%nat
           (snd (new_proc frontend_proc frontend_running))); reflexivity.
Defined.

Lemma frontend_running_wf : wf frontend_running.
Proof.
  apply (reachable_wf env_steady cfg_default None None).
  apply reachable_run_ops. constructor.
Defined.

Lemma terminate_untracks_witness :
  wf frontend_running /\
  tbl_get "frontend" (procs frontend_running) = Some 0%nat /\
  match _terminate None "frontend" frontend_running with
  | (Returned _, s') =>
      tbl_get "frontend" (procs s') = None /\ status (heap s' !!! 0%nat) = STOPPED
  | (Raised e, _) =>
      exists cb n st,
        (None : option (nat -> string -> ProcessStatus -> option Exn)) = Some cb /\
        cb n "frontend" st = Some e
  end.
Proof.
  split; [exact frontend_running_wf|]. split; [reflexivity|].
  apply (terminate_untracks None "frontend" 0%nat frontend_running frontend_running_wf).
  reflexivity.
Defined.

Lemma terminate_bounded_witness :
  let s' := snd (_terminate None "frontend" frontend_running) in
  exists (k : nat) (evs : list Event),
    (k <= 20)%nat /\
    now s' = now frontend_running + 200 * Z.of_nat k /\
    now s' - now frontend_running <= 4000 /\
    trace s' = (trace frontend_running ++ evs)%list /\
    List.filter is_sleep evs = repeat (Slept 200) k /\
    forall l pp o,
      tbl_get "frontend" (procs frontend_running) = Some l ->
      p (heap frontend_running !!! l) = Some pp ->
      os frontend_running !! pp = Some o ->
      poll_at (now frontend_running) o = None ->
      k = wait_rounds 20 (now frontend_running) (sigterm (now frontend_running) o) /\
      exists tail : list Event,
        evs = (stop_events (name (heap frontend_running !!! l)) pp (now frontend_running) k
                 (match poll_at (now s') (sigterm (now frontend_running) o) with
                  | None => true
                  | Some _ => false
                  end) ++ tail)%list.
Proof. exact (terminate_bounded None "frontend" frontend_running). Defined.

(** On [env_steady] the frontend needs 0.1 s to exit on SIGTERM:
    terminate sleeps once and does not kill. *)
Lemma terminate_frontend_run :
  trace (snd (_terminate None "frontend" frontend_running))
  = (trace frontend_running
     ++ [UiLog 0 "Stopping frontend…" "INFO"; SigTerm 0%nat; Slept 200;
         UiLog 200 "frontend stopped." "INFO"])%list.
Proof. vm_compute. reflexivity. Qed.

Lemma no_kill_without_consent_witness :
  _prompt_kill_pids (env_conflict NoRoot (Answer true)) 5178
    [(4242, "node", "node /usr/lib/node_modules/vite/bin/vite.js")] "Frontend" init_state
  = (Returned false,
     with_trace
       (trace init_state
        ++ [UiLog 0 (conflict_msg 5178
                       [(4242, "node", "node /usr/lib/node_modules/vite/bin/vite.js")]
                       "Frontend") "INFO"])
       (with_asked 1 init_state)).
Proof.
  apply (proj1 (proj2 (proj2 (proj2 (proj2
           (no_kill_without_consent (env_conflict NoRoot (Answer true)) cfg_default
              None None)))))).
  - discriminate.
  - discriminate.
Defined.

(** With a root and the answer yes, the flow for Daphne's port signals
    the listener, after the prompt. *)
Lemma conflict_flow_with_consent :
  List.filter (fun e => is_yes e || is_foreign_signal e)
    (trace (snd (check_port_conflict (env_conflict HasRoot (Answer true)) None 8070 "Daphne"
                   init_state)))
  = [AskYesNo "Port In Use"
       (conflict_msg 8070 [(4242, "node", "node /usr/lib/node_modules/vite/bin/vite.js")]
          "Daphne")
       (Answer true);
     ForeignSignal 4242 15].
Proof. vm_compute. reflexivity. Qed.

(** C9 as stated fails for a response with status 101: it is under 500
    and [_http_ok] answers false. *)
Lemma http_ok_rejects_status_101 : ~ http_ok_iff_under_500.
Proof.
  intros H.
  destruct (H (env_http 101) "http://127.0.0.1:5178" 500 init_state) as [_ Hback].
  assert (Hok : fst (_http_ok (env_http 101) "http://127.0.0.1:5178" 500 init_state)
                = Returned true).
  { apply Hback. exists 101. split; [reflexivity|lia]. }
  vm_compute in Hok. discriminate Hok.
Qed.

Lemma http_ok_witness :
  http_response (env_http 404) "http://127.0.0.1:5178" init_state = Some 404 /\
  fst (_http_ok (env_http 404) "http://127.0.0.1:5178" 500 init_state) = Returned true.
Proof.
  split; [reflexivity|].
  apply (proj1 (proj2 (proj2
           (http_ok_iff_200_to_499 (env_http 404) "http://127.0.0.1:5178" 500 init_state)))
         404).
  - reflexivity.
  - lia.
Defined.

Lemma frontend_exited_reachable :
  reachable env_vanishing cfg_default None None frontend_exited.
Proof. apply reachable_run_ops. constructor. Defined.

Lemma env_vanishing_fails (n : nat) :
  (asked frontend_exited <= n)%nat ->
  exists e,
    launcher env_vanishing n (args frontend_proc) (cwd frontend_proc) (env frontend_proc)
    = LaunchFails e.
Proof.
  intros Hn. change (asked frontend_exited) with 2%nat in Hn.
  eexists. simpl. destruct n as [|[|n]]; [lia|lia|reflexivity].
Defined.

(** C10 as stated fails when the key still has a handle in the table:
    the frontend has exited, its restart fails at launch, and
    [_terminate] then removes the old handle. *)
Lemma terminate_after_failed_respawn : ~ failed_launch_leaves_nothing_to_stop.
Proof.
  intros H.
  destruct (H env_vanishing cfg_default None None frontend_exited "frontend" frontend_proc
              frontend_exited_reachable env_vanishing_fails) as (_ & _ & _ & Hterm).
  vm_compute in Hterm. discriminate Hterm.
Qed.

Lemma env_missing_fails (n : nat) :
  (asked init_state <= n)%nat ->
  exists e,
    launcher env_missing n (args frontend_proc) (cwd frontend_proc) (env frontend_proc)
    = LaunchFails e.
Proof. intros _. eexists. reflexivity. Defined.

Lemma failed_launch_not_tracked_witness :
  let s1 := snd (_spawn env_missing None None "frontend" 0%nat
                   (snd (new_proc frontend_proc init_state))) in
  wf init_state /\ wf s1 /\
  procs s1 = procs init_state /\
  (forall k, ~ In (k, 0%nat) (procs s1)) /\
  heap (snd (monitor_tick None None s1)) !!! 0%nat = heap s1 !!! 0%nat /\
  (tbl_get "frontend" (procs init_state) = None ->
   _terminate None "frontend" s1 = (Returned tt, s1)).
Proof.
  exact (failed_launch_not_tracked env_missing cfg_default None None init_state "frontend"
           frontend_proc (reachable_init _ _ _ _) env_missing_fails).
Defined.

(** * Further properties of the supervisor *)

(** ** How long the methods take *)

Lemma lasts_weaken {A} (d d' : Z) (m : M A) : d <= d' -> lasts d m -> lasts d' m.
Proof. intros Hle H s. specialize (H s). lia. Qed.

Lemma lasts_bind {A B} (d1 d2 : Z) (m : M A) (f : A -> M B) :
  0 <= d2 -> lasts d1 m -> (forall a, lasts d2 (f a)) -> lasts (d1 + d2) (bind m f).
Proof.
  intros H2 Hm Hf s. unfold bind. specialize (Hm s).
  destruct (m s) as [[a|e] s1]; simpl in *; [|lia].
  specialize (Hf a s1). lia.
Qed.

Lemma lasts_catch {A} (d1 d2 : Z) (m : M A) (h : Exn -> option (M A)) :
  0 <= d2 -> lasts d1 m -> (forall e k, h e = Some k -> lasts d2 k) ->
  lasts (d1 + d2) (catch m h).
Proof.
  intros H2 Hm Hh s. unfold catch. specialize (Hm s).
  destruct (m s) as [[a|e] s1]; simpl in *; [lia|].
  destruct (h e) as [k|] eqn:He; simpl; [|lia].
  specialize (Hh e k He s1). lia.
Qed.

Lemma lasts_suppress (d : Z) (m : M unit) : lasts d m -> lasts d (suppress m).
Proof.
  intros Hm. unfold suppress. replace d with (d + 0) by lia.
  apply lasts_catch; [lia|exact Hm|].
  intros e k [= <-] s. simpl. lia.
Qed.

(** A step that leaves the clock alone. *)
Lemma lasts_still {A} (m : M A) : (forall s, now (snd (m s)) = now s) -> lasts 0 m.
Proof. intros H s. rewrite H. lia. Qed.

Lemma lasts_sleep (ms : Z) : 0 <= ms -> lasts ms (sleep ms).
Proof. intros H s. simpl. lia. Qed.

Lemma lasts_for_each {A} (d : Z) (xs : list A) (body : A -> M unit) :
  0 <= d -> (forall x, lasts d (body x)) ->
  lasts (d * Z.of_nat (length xs)) (for_each xs body).
Proof.
  intros Hd Hb. induction xs as [|x xs IH].
  - intros s. simpl. lia.
  - cbn [for_each length].
    replace (d * Z.of_nat (S (length xs))) with (d + d * Z.of_nat (length xs)) by lia.
    apply lasts_bind; [nia|apply Hb|intros _; exact IH].
Qed.

(** Sequencing with an instantaneous step on either side. *)
Lemma lasts_bind_l {A B} (d : Z) (m : M A) (f : A -> M B) :
  lasts 0 m -> (forall a, lasts d (f a)) -> 0 <= d -> lasts d (bind m f).
Proof.
  intros Hm Hf Hd. replace d with (0 + d) by lia. now apply lasts_bind.
Qed.

Ltac instant :=
  repeat match goal with
  | |- lasts 0 (bind _ _) => apply lasts_bind_l; [|intros ?|lia]
  | |- lasts 0 (catch _ _) =>
      change 0 with (0 + 0); apply lasts_catch; [lia| |intros ? ? ?]
  | |- lasts 0 (suppress _) => apply lasts_suppress
  | |- lasts 0 (match ?x with _ => _ end) => destruct x
  | H : match ?e with _ => _ end = Some _ |- _ =>
      destruct e; try discriminate H; injection H as <-
  | H : Some _ = Some _ |- _ => injection H as <-
  | |- lasts 0 _ => solve [apply lasts_still; intros ?; reflexivity]
  end.

Lemma lasts_log (line : string) : lasts 0 (log line).
Proof. unfold log. instant. Qed.

Lemma lasts_popen_terminate (pp : popen_ref) : lasts 0 (popen_terminate pp).
Proof. unfold popen_terminate. instant. Qed.

Lemma lasts_popen_kill (pp : popen_ref) : lasts 0 (popen_kill pp).
Proof. unfold popen_kill. instant. Qed.

Lemma lasts_wait_exit (n : nat) (pp : popen_ref) :
  lasts (200 * Z.of_nat n) (wait_exit n pp).
Proof.
  induction n as [|n IH]; cbn [wait_exit].
  - apply lasts_still. reflexivity.
  - apply lasts_bind_l; [instant| |lia]. intros [rc|].
    + apply (lasts_weaken 0); [lia|instant].
    + replace (200 * Z.of_nat (S n)) with (200 + 200 * Z.of_nat n) by lia.
      apply lasts_bind; [lia|apply lasts_sleep; lia|intros _; exact IH].
Qed.

(** [lasts (d1 + d2)] for a sequence, the two bounds given. *)
Ltac lasts_seq d1 d2 :=
  match goal with
  | |- lasts ?d (bind _ _) =>
      replace d with (d1 + d2) by lia; apply lasts_bind; [lia| |intros ?]
  end.

Lemma lasts_graceful_stop (nm : string) (pp : popen_ref) :
  lasts 4000 (graceful_stop nm pp).
Proof.
  unfold graceful_stop.
  apply lasts_bind_l; [apply lasts_log| |lia]. intros _.
  apply lasts_bind_l; [apply lasts_suppress, lasts_popen_terminate| |lia]. intros _.
  lasts_seq 4000 0; [apply (lasts_wait_exit 20)|].
  apply lasts_bind_l; [instant| |lia]. intros r.
  apply lasts_bind_l; [|intros _; apply lasts_log|lia].
  destruct r; [instant|apply lasts_suppress, lasts_popen_kill].
Qed.

Lemma returns_ret {A} (a : A) : returns (ret a).
Proof. intros s. now exists a. Qed.

Lemma returns_suppress (m : M unit) : returns (suppress m).
Proof.
  intros s. unfold suppress, catch. destruct (m s) as [[[]|e] s1]; now eexists.
Qed.

(** The steps that never raise. *)
Ltac never_raises :=
  repeat match goal with
  | |- returns (bind _ _) => apply returns_bind; [|intros ?]
  | |- returns (suppress _) => apply returns_suppress
  | |- returns (match ?x with _ => _ end) => destruct x
  | |- returns _ => solve [intros ?; eexists; reflexivity]
  end.

Lemma returns_log (line : string) : returns (log line).
Proof. unfold log. never_raises. Qed.

Lemma returns_wait_exit (n : nat) (pp : popen_ref) : returns (wait_exit n pp).
Proof.
  induction n as [|n IH]; cbn [wait_exit]; [apply returns_ret|].
  apply returns_bind; [never_raises|]. intros [rc|]; [apply returns_ret|].
  apply returns_bind; [never_raises|intros _; exact IH].
Qed.

Lemma returns_graceful_stop (nm : string) (pp : popen_ref) :
  returns (graceful_stop nm pp).
Proof.
  unfold graceful_stop.
  apply returns_bind; [apply returns_log|intros _].
  apply returns_bind; [apply returns_suppress|intros _].
  apply returns_bind; [apply returns_wait_exit|intros _].
  apply returns_bind; [never_raises|intros r].
  apply returns_bind; [|intros _; apply returns_log].
  destruct r; [apply returns_ret|apply returns_suppress].
Qed.

Section Duration.

Variable E : Environment.
Variable cfg : Paths.
Variable status_callback : option (nat -> string -> ProcessStatus -> option Exn).
Variable notify_callback : option (nat -> string -> string -> option Exn).

Lemma lasts_call_status (key : string) (l : loc) :
  lasts 0 (call_status status_callback key l).
Proof. unfold call_status. instant. Qed.

Lemma lasts_call_notify (msg sev : string) :
  lasts 0 (call_notify notify_callback msg sev).
Proof. unfold call_notify. instant. Qed.

Lemma lasts_tcp_open (host : string) (port timeout : Z) :
  lasts 0 (_tcp_open E host port timeout).
Proof. unfold _tcp_open. instant. Qed.

Lemma lasts_terminate (key : string) : lasts 4000 (_terminate status_callback key).
Proof.
  unfold _terminate.
  apply lasts_bind_l; [instant| |lia]. intros t.
  destruct (tbl_get key t) as [l|]; [|apply (lasts_weaken 0); [lia|instant]].
  apply lasts_bind_l; [instant| |lia]. intros proc.
  destruct (p proc) as [pp|]; [|apply (lasts_weaken 0); [lia|instant]].
  apply lasts_bind_l; [instant| |lia]. intros r.
  lasts_seq 4000 0.
  - destruct r; [apply (lasts_weaken 0); [lia|instant]|apply lasts_graceful_stop].
  - unfold commit_stopped.
    apply lasts_bind_l; [instant| |lia]. intros _.
    apply lasts_bind_l; [apply lasts_call_status|intros _; instant|lia].
Qed.

Lemma lasts_stop_one (key : string) : lasts 4500 (stop_one status_callback key).
Proof.
  unfold stop_one. replace 4500 with (4500 + 0) by lia.
  apply lasts_catch; [lia| |].
  - lasts_seq 4000 500; [apply lasts_terminate|apply lasts_sleep; lia].
  - intros e k [= <-]. apply lasts_log.
Qed.

Lemma returns_stop_one (key : string) : returns (stop_one status_callback key).
Proof.
  intros s. unfold stop_one, catch.
  destruct ((_terminate status_callback key ;; sleep 500) s) as [[[]|e] s1].
  - now eexists.
  - apply returns_log.
Qed.


End Duration.

(** ** Stopping everything *)

#[local] Instance stops_preorder : PreOrder stops.
Proof.
  split.
  - intros s. split; auto.
  - intros a b c [H1 H2] [H3 H4]. split; [congruence|].
    intros l. destruct (H4 l) as [Hc|Hc]; [|now right].
    rewrite Hc. apply H2.
Qed.

Lemma stops_same_heap (s s' : State) : heap s' = heap s -> stops s s'.
Proof. intros H. unfold stops. rewrite H. auto. Qed.

Lemma stops_mark (l : loc) (s s' : State) :
  heap s' = <[l := with_status STOPPED (heap s !!! l)]> (heap s) -> stops s s'.
Proof.
  intros H. unfold stops. rewrite H, length_insert. split; [reflexivity|].
  intros l'. destruct (Nat.eq_dec l l') as [<-|Hne].
  - destruct (Nat.lt_ge_cases l (length (heap s))) as [Hlt|Hge].
    + rewrite list_lookup_total_insert_eq by exact Hlt. now right.
    + rewrite list_insert_ge by exact Hge. now left.
  - rewrite list_lookup_total_insert_ne by exact Hne. now left.
Qed.

Lemma stops_stopped (s s' : State) (l : loc) :
  stops s s' -> status (heap s !!! l) = STOPPED -> status (heap s' !!! l) = STOPPED.
Proof. intros [_ H] Hs. destruct (H l) as [Hc|Hc]; congruence. Qed.

Lemma wf_same_procs_heap (s s' : State) :
  procs s' = procs s -> heap s' = heap s -> wf s -> wf s'.
Proof.
  intros Hp Hh [Hnd Hall]. split; [now rewrite Hp|].
  rewrite Hp. eapply List.Forall_impl; [|exact Hall].
  intros kl [Hl Hpp]. unfold tracked_ok. now rewrite Hh.
Qed.

Section StopAll.

Variable E : Environment.
Variable cfg : Paths.
Variable status_callback : option (nat -> string -> ProcessStatus -> option Exn).

(** What [_terminate] does to the table and to the handles. *)
Lemma terminate_effect (key : string) (s : State) :
  wf s ->
  let r := _terminate status_callback key s in
  wf (snd r) /\ stops s (snd r) /\
  (forall k, k <> key -> tbl_get k (procs (snd r)) = tbl_get k (procs s)) /\
  (tbl_get key (procs (snd r)) = tbl_get key (procs s) \/
   tbl_get key (procs (snd r)) = None) /\
  (forall l, tbl_get key (procs s) = Some l -> status (heap (snd r) !!! l) = STOPPED) /\
  (fst r = Returned tt \/ ~ status_quiet status_callback) /\
  (fst r = Returned tt -> tbl_get key (procs (snd r)) = None).
Proof.
  intros Hwf. cbv zeta.
  destruct (tbl_get key (procs s)) as [l|] eqn:Ht.
  2:{ rewrite (terminate_absent_key status_callback key s Ht). simpl.
      split; [exact Hwf|]. repeat split; auto; try reflexivity. discriminate. }
  destruct (wf_tracked s key l Hwf Ht) as [Hl Hp].
  unfold _terminate. rewrite bind_gets, Ht, bind_deref.
  destruct (p (heap s !!! l)) as [pp|] eqn:Hpp; [clear Hp|contradiction].
  rewrite bind_poll.
  set (stop := match poll_in s pp with
               | Some _ => ret tt
               | None => graceful_stop (name (heap s !!! l)) pp
               end).
  assert (Hret : returns stop).
  { unfold stop. destruct (poll_in s pp); [apply returns_ret|apply returns_graceful_stop]. }
  assert (Hq : respects same_table stop).
  { unfold stop. destruct (poll_in s pp); [quiet|apply quiet_graceful_stop]. }
  destruct (Hret s) as [[] Hr]. specialize (Hq s).
  destruct (stop s) as [r1 s1] eqn:Hrun. simpl in Hr, Hq. subst r1.
  destruct Hq as (Hp1 & Hh1 & _).
  rewrite (bind_returned _ _ _ _ _ Hrun).
  destruct (commit_stopped_run status_callback key l s1) as (_ & _ & Hh & _ & Hres).
  set (r := commit_stopped status_callback key l s1) in *.
  assert (Hst : stops s (snd r)).
  { apply (stops_mark l). now rewrite Hh, Hh1. }
  assert (Hdone : status (heap (snd r) !!! l) = STOPPED).
  { rewrite Hh, list_lookup_total_insert_eq by (rewrite Hh1; exact Hl). reflexivity. }
  assert (Hwf1 : wf s1) by (apply (wf_same_procs_heap s); assumption).
  assert (Hwf' : wf (snd r)).
  { assert (Hk : respects (keeps_wf 0) (commit_stopped status_callback key l))
      by (unfold commit_stopped; keeps).
    apply (Hk s1); [lia|exact Hwf1]. }
  split; [exact Hwf'|]. split; [exact Hst|].
  destruct (fst r) as [[]|e] eqn:Hfst.
  - assert (Hnone : tbl_get key (procs (snd r)) = None).
    { rewrite Hres, Hp1. apply tbl_get_pop. apply Hwf. }
    split; [|split; [now right|split; [|split; [now left|intros _; exact Hnone]]]].
    + intros k Hk. rewrite Hres, Hp1. now apply tbl_get_pop_ne.
    + intros l0 [= <-]. exact Hdone.
  - destruct Hres as (Hpr & cb & n & st & Hcb & He).
    split; [|split; [left; now rewrite Hpr, Hp1|split; [|split; [|discriminate]]]].
    + intros k _. now rewrite Hpr, Hp1.
    + intros l0 [= <-]. exact Hdone.
    + right. intros Hquiet. rewrite (Hquiet cb Hcb) in He. discriminate He.
Qed.

(** One turn of the loop of [stop_all] leaves the table and the store
    as its [_terminate] does. *)
Lemma stop_one_effect (key : string) (s : State) :
  procs (snd (stop_one status_callback key s))
  = procs (snd (_terminate status_callback key s)) /\
  heap (snd (stop_one status_callback key s))
  = heap (snd (_terminate status_callback key s)).
Proof.
  unfold stop_one, catch, bind.
  destruct (_terminate status_callback key s) as [[[]|e] s1]; simpl; split; reflexivity.
Qed.

Lemma stop_loop_effect (ks : list string) (s : State) :
  wf s ->
  let s' := snd (for_each ks (stop_one status_callback) s) in
  wf s' /\ stops s s' /\
  (forall k, tbl_get k (procs s') = tbl_get k (procs s) \/ tbl_get k (procs s') = None) /\
  (forall key l, In key ks -> tbl_get key (procs s) = Some l ->
     status (heap s' !!! l) = STOPPED) /\
  (status_quiet status_callback ->
   forall key, In key ks -> tbl_get key (procs s') = None).
Proof.
  revert s. induction ks as [|k ks IH]; intros s Hwf; cbv zeta.
  - simpl. split; [exact Hwf|]. split; [reflexivity|]. split; [now left|].
    split; [intros ? ? []|intros _ ? []].
  - cbn [for_each].
    destruct (returns_stop_one status_callback k s) as [[] Hret].
    destruct (stop_one status_callback k s) as [r1 s1] eqn:Hrun.
    simpl in Hret. subst r1. rewrite (bind_returned _ _ _ _ _ Hrun).
    destruct (stop_one_effect k s) as [Hp1 Hh1]. rewrite Hrun in Hp1, Hh1. simpl in Hp1, Hh1.
    destruct (terminate_effect k s Hwf) as (Hwf1 & Hst & Hne & Hsame & Hmark & Hret' & Hnone).
    set (s1' := snd (_terminate status_callback k s)) in *.
    assert (Hwf1' : wf s1) by (apply (wf_same_procs_heap s1'); assumption).
    assert (Hst1 : stops s s1).
    { etransitivity; [exact Hst|]. now apply stops_same_heap. }
    destruct (IH s1 Hwf1') as (Hwf' & Hst' & Hshrink & Hmarks & Hquiet).
    set (s' := snd (for_each ks (stop_one status_callback) s1)) in *.
    split; [exact Hwf'|]. split; [etransitivity; eassumption|].
    split; [|split].
    + intros key. destruct (Hshrink key) as [Hc|Hc]; [|now right].
      rewrite Hc, Hp1. destruct (String.eqb_spec key k) as [->|Hk].
      * exact Hsame.
      * left. now apply Hne.
    + intros key l [<-|Hin] Ht.
      * apply (stops_stopped s1 s' l Hst'). rewrite Hh1. now apply Hmark.
      * destruct (String.eqb_spec key k) as [->|Hk].
        -- apply (stops_stopped s1 s' l Hst'). rewrite Hh1. now apply Hmark.
        -- apply (Hmarks key l Hin). rewrite Hp1, Hne by exact Hk. exact Ht.
    + intros Hq key [<-|Hin]; [|now apply Hquiet].
      destruct (Hshrink k) as [Hc|Hc]; [|exact Hc].
      rewrite Hc, Hp1. apply Hnone. destruct Hret' as [Hr|Hr]; [exact Hr|contradiction].
Qed.

(** The state after the worker of [stop_all], for a table in order. *)
Lemma worker_effect (s : State) :
  wf s ->
  let s' := snd (worker E cfg status_callback s) in
  (forall key l, In key order -> tbl_get key (procs s) = Some l ->
     status (heap s' !!! l) = STOPPED) /\
  (status_quiet status_callback ->
   forall key, In key order -> tbl_get key (procs s') = None).
Proof.
  intros Hwf. cbv zeta. unfold worker. rewrite bind_log.
  set (s0 := with_trace _ s).
  assert (Hwf0 : wf s0) by (apply (wf_same_procs_heap s); [reflexivity|reflexivity|exact Hwf]).
  destruct (returns_for_each order (stop_one status_callback)
              (returns_stop_one status_callback) s0) as [[] Hret].
  destruct (stop_loop_effect order s0 Hwf0) as (_ & _ & _ & Hmarks & Hquiet).
  destruct (for_each order (stop_one status_callback) s0) as [r1 s1] eqn:Hrun.
  simpl in Hret, Hmarks, Hquiet. subst r1.
  rewrite (bind_returned _ _ _ _ _ Hrun).
  match goal with |- context [snd (?rest s1)] => assert (Hq : respects same_table rest) end.
  { quiet; destruct o; quiet. }
  destruct (Hq s1) as (Hp & Hh & _).
  split.
  - intros key l Hin Ht. rewrite Hh. now apply (Hmarks key l).
  - intros Hsq key Hin. rewrite Hp. now apply Hquiet.
Qed.

Lemma stop_all_untracks (s : State) :
  wf s -> status_quiet status_callback ->
  forall key, In key order ->
    tbl_get key (procs (snd (worker E cfg status_callback s))) = None.
Proof. intros Hwf Hq. now apply (proj2 (worker_effect s Hwf)). Qed.


End StopAll.

(** ** Waiting for Redis *)

Create HintDb lasts.
#[local] Hint Resolve lasts_log lasts_popen_terminate lasts_popen_kill lasts_call_status
  lasts_call_notify lasts_tcp_open : lasts.

(** An instantaneous method, by its steps. *)
Ltac instantly :=
  repeat match goal with
  | |- lasts 0 (bind _ _) => apply lasts_bind_l; [|intros ?|lia]
  | |- lasts 0 (catch _ _) =>
      change 0 with (0 + 0); apply lasts_catch; [lia| |intros ? ? ?]
  | |- lasts 0 (suppress _) => apply lasts_suppress
  | |- lasts 0 (match ?x with _ => _ end) => destruct x
  | H : match ?e with _ => _ end = Some _ |- _ =>
      destruct e; try discriminate H; injection H as <-
  | H : Some _ = Some _ |- _ => injection H as <-
  | |- lasts 0 _ => solve [auto with lasts | apply lasts_still; intros ?; reflexivity]
  end.

Section Redis.

Variable E : Environment.
Variable cfg : Paths.
Variable status_callback : option (nat -> string -> ProcessStatus -> option Exn).
Variable notify_callback : option (nat -> string -> string -> option Exn).

Lemma lasts_spawn (key : string) (l : loc) :
  lasts 0 (_spawn E status_callback notify_callback key l).
Proof.
  unfold _spawn, tracked_live, launch_and_track, try_launch, commit_running, Popen_init.
  instantly.
Qed.

Lemma lasts_wait_redis (n : nat) : lasts (250 * Z.of_nat n) (wait_redis E cfg n).
Proof.
  induction n as [|n IH]; cbn [wait_redis].
  - apply lasts_still. reflexivity.
  - apply lasts_bind_l; [apply lasts_tcp_open| |lia]. intros [|].
    + apply (lasts_weaken 0); [lia|instantly].
    + replace (250 * Z.of_nat (S n)) with (250 + 250 * Z.of_nat n) by lia.
      apply lasts_bind; [lia|apply lasts_sleep; lia|intros _; exact IH].
Qed.

(** X3. [ensure_redis] waits at most 10 s (40 probes, 0.25 s apart),
    whatever the environment and the callbacks do.  It launches nothing
    when Redis answers the first probe, and nothing when Redis does not
    answer and there is no Docker executable: it logs one line and
    returns. *)
Theorem ensure_redis_bounded (s : State) :
  let probe := tcp_connect E (asked s) (REDIS_HOST cfg) (REDIS_PORT cfg) in
  let r := ensure_redis E cfg status_callback notify_callback s in
  now s <= now (snd r) <= now s + 10000 /\
  (probe = true ->
   r = (Returned tt,
        with_trace
          (trace s ++ [UiLog (now s)
                         ("Redis already available at " +:+ REDIS_HOST cfg +:+ ":"
                          +:+ pretty (REDIS_PORT cfg) +:+ ".") "INFO"])
          (with_asked (S (asked s)) s))) /\
  (probe = false ->
   DOCKER_EXE cfg = "" \/ path_exists E (S (asked s)) (DOCKER_EXE cfg) = false ->
   fst r = Returned tt /\ procs (snd r) = procs s /\ heap (snd r) = heap s /\
   os (snd r) = os s /\
   trace (snd r)
   = (trace s ++ [UiLog (now s)
                    "Redis not detected and DOCKER_EXE not configured/exists. Start Redis manually."
                    "INFO"])%list).
Proof.
  cbv zeta. split; [|split].
  - revert s.
    change (lasts 10000 (ensure_redis E cfg status_callback notify_callback)).
    unfold ensure_redis.
    apply lasts_bind_l; [apply lasts_tcp_open| |lia]. intros [|].
    { apply (lasts_weaken 0); [lia|instantly]. }
    apply lasts_bind_l; [instantly| |lia]. intros docker.
    destruct (negb docker); [apply (lasts_weaken 0); [lia|instantly]|].
    apply lasts_bind_l; [instantly| |lia]. intros _.
    unfold make_proc.
    apply lasts_bind_l; [instantly| |lia]. intros l.
    apply lasts_bind_l; [apply lasts_spawn| |lia]. intros _.
    replace 10000 with (250 * Z.of_nat 40 + 0) by lia.
    apply lasts_bind; [lia|apply lasts_wait_redis|].
    intros up. instantly.
  - intros Hprobe. unfold ensure_redis, _tcp_open.
    rewrite bind_bind, bind_ask, bind_ret. cbn [asked with_asked]. rewrite Hprobe.
    reflexivity.
  - intros Hprobe Hdocker. unfold ensure_redis, _tcp_open.
    rewrite bind_bind, bind_ask, bind_ret. rewrite Hprobe.
    destruct (String.eqb_spec (DOCKER_EXE cfg) "") as [Hd|Hd].
    + rewrite bind_ret. simpl. repeat split.
    + destruct Hdocker as [Hdocker|Hdocker]; [contradiction|].
      rewrite bind_bind, bind_ask, bind_ret. cbn [asked with_asked].
      rewrite Hdocker. simpl. repeat split.
Qed.

End Redis.

(** ** Start of the frontend on a busy port *)

#[local] Instance launches_nothing_preorder : PreOrder launches_nothing.
Proof.
  split.
  - intros s. repeat split. exists []. now rewrite app_nil_r.
  - intros a b c (H1 & H2 & H3 & e1 & H4 & H5) (H6 & H7 & H8 & e2 & H9 & H10).
    repeat split; try congruence.
    exists (e1 ++ e2)%list. rewrite H9, H4, <- app_assoc. split; [reflexivity|].
    now rewrite List.filter_app, H5, H10.
Qed.

Lemma idle_emit (e : Event) : is_popen_call e = false -> respects launches_nothing (emit e).
Proof.
  intros He s. simpl. repeat split. exists [e]. split; [reflexivity|].
  simpl. now rewrite He.
Qed.

(** A step that changes neither table, store, processes nor trace. *)
Lemma idle_silent {A} (m : M A) :
  (forall s, procs (snd (m s)) = procs s /\ heap (snd (m s)) = heap s /\
             os (snd (m s)) = os s /\ trace (snd (m s)) = trace s) ->
  respects launches_nothing m.
Proof.
  intros H s. destruct (H s) as (H1 & H2 & H3 & H4). repeat split; auto.
  exists []. now rewrite app_nil_r.
Qed.

Lemma idle_sleep (ms : Z) : respects launches_nothing (sleep ms).
Proof.
  intros s. simpl. repeat split. exists [Slept ms]. split; reflexivity.
Qed.

Ltac idle :=
  repeat rstep;
  try solve [apply idle_emit; reflexivity
            |apply idle_sleep
            |apply idle_silent; intros ?; repeat split].

Lemma idle_log (line : string) : respects launches_nothing (log line).
Proof. unfold log. idle. Qed.

Section BusyPort.

Variable E : Environment.
Variable cfg : Paths.
Variable status_callback : option (nat -> string -> ProcessStatus -> option Exn).
Variable notify_callback : option (nat -> string -> string -> option Exn).

Lemma idle_call_notify (msg sev : string) :
  respects launches_nothing (call_notify notify_callback msg sev).
Proof. unfold call_notify. idle. Qed.

Lemma idle_tcp_open (host : string) (port timeout : Z) :
  respects launches_nothing (_tcp_open E host port timeout).
Proof. unfold _tcp_open. idle. Qed.

Lemma idle_find_pids (port : Z) : respects launches_nothing (_find_pids_on_port E port).
Proof. unfold _find_pids_on_port. idle. Qed.

Lemma idle_terminate_pid (port : Z) (row : Z * string * string) :
  respects launches_nothing (terminate_pid E port row).
Proof.
  unfold terminate_pid, ps_terminate, ps_wait, ps_kill, kill_signal.
  idle; apply idle_log.
Qed.

Lemma idle_terminate_pids (port : Z) (pids : list (Z * string * string)) :
  respects launches_nothing (terminate_pids E port pids).
Proof.
  induction pids as [|row pids IH]; cbn [terminate_pids]; idle.
  - apply idle_terminate_pid.
  - exact IH.
Qed.

Lemma idle_prompt_kill_pids (port : Z) (pids : list (Z * string * string)) (svc : string) :
  respects launches_nothing (_prompt_kill_pids E port pids svc).
Proof.
  unfold _prompt_kill_pids, confirm_kill. idle;
    try apply idle_log; apply idle_terminate_pids.
Qed.

Lemma idle_frontend_port_clear :
  respects launches_nothing (frontend_port_clear E cfg notify_callback).
Proof.
  unfold frontend_port_clear.
  idle; auto using idle_log, idle_call_notify, idle_tcp_open, idle_find_pids,
          idle_prompt_kill_pids.
Qed.

Lemma never_true_bind {A} (m : M A) (f : A -> M bool) :
  (forall a s, fst (f a s) <> Returned true) ->
  forall s, fst (bind m f s) <> Returned true.
Proof.
  intros H s. unfold bind. destruct (m s) as [[a|e] s1]; [apply H|discriminate].
Qed.

Lemma tcp_open_busy {B} (host : string) (port timeout : Z) (k : bool -> M B) (s : State) :
  (forall n, tcp_connect E n host port = true) ->
  bind (_tcp_open E host port timeout) k s = k true (with_asked (S (asked s)) s).
Proof.
  intros H. unfold _tcp_open. rewrite bind_bind, bind_ask, bind_ret. now rewrite H.
Qed.

(** While the port answers, the port check of [start_frontend] never
    lets the stage go on. *)
Lemma port_check_fails (s : State) :
  (forall n, tcp_connect E n "127.0.0.1" (FRONTEND_PORT cfg) = true) ->
  fst (frontend_port_clear E cfg notify_callback s) <> Returned true.
Proof.
  intros Hbusy. unfold frontend_port_clear.
  rewrite tcp_open_busy by exact Hbusy.
  apply never_true_bind. intros _. apply never_true_bind. intros _.
  apply never_true_bind. intros [|row pids].
  - apply never_true_bind. intros _ s1. discriminate.
  - apply never_true_bind. intros [|].
    + apply never_true_bind. intros _ s1.
      rewrite tcp_open_busy by exact Hbusy. cbv beta iota.
      rewrite bind_log. discriminate.
    + apply never_true_bind. intros _ s1. discriminate.
Qed.

(** X4. While something answers on the frontend port, [start_frontend]
    launches nothing, whatever the prompt and the callbacks do: the
    table, the [Proc] objects and the processes are as before and
    [subprocess.Popen] is not called. *)
Theorem start_frontend_aborts_on_busy_port (s : State) :
  (forall n, tcp_connect E n "127.0.0.1" (FRONTEND_PORT cfg) = true) ->
  launches_nothing s (snd (start_frontend E cfg status_callback notify_callback s)).
Proof.
  intros Hbusy. unfold start_frontend.
  destruct (tracked_live_pure "frontend" s) as [b Hb].
  rewrite (bind_returned _ _ _ _ _ Hb).
  destruct b; [apply idle_log|].
  apply reach_bind; order_goal; [reflexivity|apply idle_frontend_port_clear|].
  intros clear s1 Hrun H1. destruct clear; [|exact H1].
  exfalso. apply (port_check_fails s Hbusy). now rewrite Hrun.
Qed.

End BusyPort.

(** ** A launch that succeeds *)

#[local] Instance reports_preorder : PreOrder reports.
Proof.
  split.
  - intros s. repeat split; try reflexivity. exists []. now rewrite app_nil_r.
  - intros a b c (H1 & H2 & H3 & H4) (H5 & H6 & H7 & H8).
    split; [etransitivity; eassumption|]. repeat split; try congruence. lia.
Qed.

Lemma catch_returned {A} (m : M A) (h : Exn -> option (M A)) (s s' : State) (a : A) :
  m s = (Returned a, s') -> catch m h s = (Returned a, s').
Proof. unfold catch. now intros ->. Qed.

Lemma reports_said (s : State) (n : nat) (evs : list Event) :
  List.filter is_popen_call evs = [] ->
  reports s (with_trace (trace s ++ evs) (with_asked (asked s + n) s)).
Proof.
  intros H. repeat split; simpl; try lia. now exists evs.
Qed.

Section Launch.

Variable E : Environment.
Variable status_callback : option (nat -> string -> ProcessStatus -> option Exn).
Variable notify_callback : option (nat -> string -> string -> option Exn).

Lemma call_status_reports (key : string) (l : loc) (s : State) :
  status_quiet status_callback ->
  exists s', call_status status_callback key l s = (Returned tt, s') /\ reports s s'.
Proof.
  intros Hq. unfold call_status. destruct status_callback as [cb|] eqn:Hcb.
  - repeat mstep. rewrite (Hq cb eq_refl). eexists. split; [reflexivity|].
    repeat split; simpl; try lia. now eexists [_].
  - eexists. split; [reflexivity|reflexivity].
Qed.

Lemma call_notify_reports (msg sev : string) (s : State) :
  notify_quiet notify_callback ->
  exists s', call_notify notify_callback msg sev s = (Returned tt, s') /\ reports s s'.
Proof.
  intros Hq. unfold call_notify. destruct notify_callback as [cb|] eqn:Hcb.
  - repeat mstep. rewrite (Hq cb eq_refl). eexists. split; [reflexivity|].
    repeat split; simpl; try lia. now eexists [_].
  - eexists. split; [reflexivity|reflexivity].
Qed.

Lemma Popen_init_launched (a : list string) (d : string) (ev : environ)
    (life : option Z) (code : Z) (td : option Z) (s : State) :
  launcher E (asked s) a d ev = Launched life code td ->
  Popen_init E a d ev s
  = (Returned (length (os s)),
     with_os (os s ++ [mkPopen a (option_map (Z.add (now s)) life) code td])
       (with_trace (trace s ++ [PopenCall a d]) (with_asked (S (asked s)) s))).
Proof. intros H. unfold Popen_init. repeat mstep. simpl. now rewrite H. Qed.

(** The state [_spawn] leaves when the launch succeeds. *)
Lemma spawn_launched_run (key : string) (l : loc) (s : State)
    (life : option Z) (code : Z) (td : option Z) :
  status_quiet status_callback ->
  notify_quiet notify_callback ->
  (l < length (heap s))%nat ->
  tracked_live key s = (Returned false, s) ->
  launch_succeeds_with E (asked s) (heap s !!! l) life code td ->
  let h := heap s !!! l in
  let r := _spawn E status_callback notify_callback key l s in
  fst r = Returned tt /\
  procs (snd r) = tbl_set key l (procs s) /\
  heap (snd r) = <[l := mark_running (length (os s)) (now s) h]> (heap s) /\
  os (snd r) = (os s ++ [mkPopen (args h) (option_map (Z.add (now s)) life) code td])%list /\
  now (snd r) = now s /\
  (asked s <= asked (snd r))%nat /\
  exists evs : list Event,
    trace (snd r) = (trace s ++ evs)%list /\
    List.filter is_popen_call evs = [PopenCall (args h) (cwd h)].
Proof.
  intros Hs Hn Hl Hlive Hlaunch. cbv zeta.
  unfold _spawn. rewrite (bind_returned _ _ _ _ _ Hlive), bind_deref. cbv beta iota.
  set (h := heap s !!! l) in *. unfold launch_and_track.
  rewrite bind_update. fold h.
  set (s1 := with_heap _ s).
  destruct (call_status_reports key l s1 Hs) as (s2 & Hrun2 & R2).
  rewrite (bind_returned _ _ _ _ _ Hrun2), bind_log.
  set (s3 := with_trace _ s2).
  assert (R3 : reports s1 s3).
  { etransitivity; [exact R2|]. unfold s3.
    repeat split; simpl; try lia. now eexists [_]. }
  assert (Hask : launcher E (asked s3) (args h) (cwd h) (env h) = Launched life code td).
  { apply Hlaunch. destruct R3 as (_ & _ & _ & Ha). exact Ha. }
  clearbody s3. clear Hrun2 R2 s2.
  unfold try_launch.
  erewrite bind_returned.
  2:{ apply catch_returned.
      rewrite (bind_returned _ _ _ _ _ (Popen_init_launched _ _ _ _ _ _ s3 Hask)).
      rewrite bind_gets, bind_update. reflexivity. }
  cbv beta iota. unfold start_thread, commit_running.
  repeat mstep.
  match goal with |- context [bind (call_status _ _ _) _ ?st] => set (s6 := st) end.
  destruct (call_status_reports key l s6 Hs) as (s7 & Hrun7 & R7).
  rewrite (bind_returned _ _ _ _ _ Hrun7).
  destruct (call_notify_reports (name h +:+ " started successfully") "success" s7 Hn)
    as (s8 & Hrun8 & R8).
  rewrite Hrun8. cbn [fst snd].
  assert (R68 : reports s6 s8) by (etransitivity; eassumption).
  destruct R68 as ((Hp8 & Hh8 & Ho8 & ev8 & Ht8 & Hf8) & Hn8 & _ & Ha8).
  destruct R3 as ((Hp3 & Hh3 & Ho3 & ev3 & Ht3 & Hf3) & Hn3 & _ & Ha3).
  split; [reflexivity|].
  rewrite Hp8, Hh8, Ho8, Hn8, Ht8.
  assert (Hl3 : (l < length (heap s3))%nat).
  { rewrite Hh3. unfold s1. simpl. now rewrite length_insert. }
  split; [|split; [|split; [|split; [|split]]]].
  - unfold s6. simpl. now rewrite Hp3.
  - unfold s6. simpl. rewrite Hn3.
    rewrite !list_lookup_total_insert_eq by (rewrite ?length_insert; exact Hl3).
    rewrite !list_insert_insert_eq. rewrite Hh3. unfold s1. simpl.
    rewrite list_lookup_total_insert_eq by exact Hl.
    now rewrite list_insert_insert_eq, Ho3.
  - unfold s6. simpl. now rewrite Ho3, Hn3.
  - unfold s6. simpl. exact Hn3.
  - unfold s6 in Ha8. simpl in Ha8. unfold s1 in Ha3. simpl in Ha3. lia.
  - exists (ev3 ++ [PopenCall (args h) (cwd h); ThreadStart (Pump (length (os s3)) (name h))]
            ++ ev8)%list.
    split.
    + unfold s6. simpl. rewrite Ht3. unfold s1. simpl.
      now rewrite <- !app_assoc.
    + rewrite !List.filter_app, Hf3, Hf8. reflexivity.
Qed.

Lemma tbl_get_set_ne (key k : string) (l : loc) (t : list (string * loc)) :
  k <> key -> tbl_get k (tbl_set key l t) = tbl_get k t.
Proof.
  intros Hne. induction t as [|[k0 l0] t IH]; simpl.
  - destruct (String.eqb_spec key k); [congruence|reflexivity].
  - destruct (String.eqb_spec k0 key) as [->|Hk0]; simpl.
    + destruct (String.eqb_spec key k); [congruence|reflexivity].
    + now rewrite IH.
Qed.

(** X5. A launch that succeeds.  When the key has no live process, the
    launcher starts the command and the callbacks return normally,
    [_spawn] returns with the handle in the table under the key,
    Running, holding the new process and its start time, the restart
    count untouched.  [subprocess.Popen] was called once, with the
    command and the directory of the handle; no other key of the table
    and no other handle has changed. *)
Theorem spawn_tracks_launched (key : string) (l : loc) (s : State)
    (life : option Z) (code : Z) (td : option Z) :
  status_quiet status_callback ->
  notify_quiet notify_callback ->
  (l < length (heap s))%nat ->
  tracked_live key s = (Returned false, s) ->
  launch_succeeds_with E (asked s) (heap s !!! l) life code td ->
  let h := heap s !!! l in
  let r := _spawn E status_callback notify_callback key l s in
  let h' := heap (snd r) !!! l in
  fst r = Returned tt /\
  tbl_get key (procs (snd r)) = Some l /\
  (forall k, k <> key -> tbl_get k (procs (snd r)) = tbl_get k (procs s)) /\
  status h' = RUNNING /\
  p h' = Some (length (os s)) /\
  start_time h' = Some (now s) /\
  restart_count h' = restart_count h /\
  (forall l', l' <> l -> heap (snd r) !!! l' = heap s !!! l') /\
  os (snd r) !! length (os s)
  = Some (mkPopen (args h) (option_map (Z.add (now s)) life) code td) /\
  exists evs : list Event,
    trace (snd r) = (trace s ++ evs)%list /\
    List.filter is_popen_call evs = [PopenCall (args h) (cwd h)].
Proof.
  intros Hs Hn Hl Hlive Hlaunch.
  destruct (spawn_launched_run key l s life code td Hs Hn Hl Hlive Hlaunch)
    as (Hr & Hp & Hh & Ho & _ & _ & Hev).
  cbv zeta. rewrite Hp, Hh, Ho.
  rewrite list_lookup_total_insert_eq by exact Hl.
  split; [exact Hr|]. split; [apply tbl_get_set|].
  split; [intros k Hk; now apply tbl_get_set_ne|].
  do 4 (split; [reflexivity|]).
  split; [intros l' Hne; apply list_lookup_total_insert_ne; congruence|].
  split; [|exact Hev].
  rewrite lookup_app_r by lia. now rewrite Nat.sub_diag.
Qed.

End Launch.

(** ** The port-conflict flow and the start of Daphne *)

Lemma returns_catch {A} (m : M A) (h : Exn -> option (M A)) :
  (forall e, exists k, h e = Some k /\ returns k) -> returns (catch m h).
Proof.
  intros H s. unfold catch. destruct (m s) as [[a|e] s1]; [now eexists|].
  destruct (H e) as (k & -> & Hk). apply Hk.
Qed.

Section Conflict.

Variable E : Environment.
Variable cfg : Paths.
Variable status_callback : option (nat -> string -> ProcessStatus -> option Exn).
Variable notify_callback : option (nat -> string -> string -> option Exn).

Lemma returns_terminate_pid (port : Z) (row : Z * string * string) :
  returns (terminate_pid E port row).
Proof.
  unfold terminate_pid. apply returns_catch. intros e. eexists. split; [reflexivity|].
  apply returns_bind; [apply returns_log|intros _; apply returns_ret].
Qed.

Lemma returns_terminate_pids (port : Z) (pids : list (Z * string * string)) :
  returns (terminate_pids E port pids).
Proof.
  induction pids as [|row pids IH]; cbn [terminate_pids]; [apply returns_ret|].
  apply returns_bind; [apply returns_terminate_pid|intros k].
  apply returns_bind; [exact IH|intros ks; apply returns_ret].
Qed.

Lemma term_signals_app (a b : list Event) :
  term_signals (a ++ b) = (term_signals a ++ term_signals b)%list.
Proof. unfold term_signals. now rewrite flat_map_app. Qed.

Lemma sends_none {A} (m : M A) :
  (forall s, exists evs : list Event,
     trace (snd (m s)) = (trace s ++ evs)%list /\ term_signals evs = []) ->
  sends_term [] m.
Proof. auto. Qed.

(** A step that adds at most events other than signal 15. *)
Lemma sends_silent {A} (m : M A) :
  (forall s, trace (snd (m s)) = trace s) -> sends_term [] m.
Proof. intros H s. exists []. now rewrite H, app_nil_r. Qed.

Lemma sends_emit (e : Event) : sends_term (term_signals [e]) (emit e).
Proof. intros s. now exists [e]. Qed.

Lemma sends_bind_r (ps : list Z) {A B} (m : M A) (f : A -> M B) :
  sends_term ps m -> (forall a, sends_term [] (f a)) -> sends_term ps (bind m f).
Proof.
  intros Hm Hf s. unfold bind. destruct (Hm s) as (e1 & H1 & H2).
  destruct (m s) as [[a|e] s1]; simpl in *; [|now exists e1].
  destruct (Hf a s1) as (e2 & H3 & H4). exists (e1 ++ e2)%list.
  rewrite H3, H1, <- app_assoc. split; [reflexivity|].
  now rewrite term_signals_app, H2, H4, app_nil_r.
Qed.

Lemma sends_bind_l (ps : list Z) {A B} (m : M A) (f : A -> M B) :
  returns m -> sends_term [] m -> (forall a, sends_term ps (f a)) ->
  sends_term ps (bind m f).
Proof.
  intros Hr Hm Hf s. unfold bind. destruct (Hm s) as (e1 & H1 & H2).
  destruct (Hr s) as [a Ha].
  destruct (m s) as [[a'|e] s1]; simpl in *; [|discriminate].
  destruct (Hf a' s1) as (e2 & H3 & H4). exists (e1 ++ e2)%list.
  rewrite H3, H1, <- app_assoc. split; [reflexivity|].
  now rewrite term_signals_app, H2, H4.
Qed.

Lemma sends_bind_app (p1 p2 : list Z) {A B} (m : M A) (f : A -> M B) :
  returns m -> sends_term p1 m -> (forall a, sends_term p2 (f a)) ->
  sends_term (p1 ++ p2) (bind m f).
Proof.
  intros Hr Hm Hf s. unfold bind. destruct (Hm s) as (e1 & H1 & H2).
  destruct (Hr s) as [a Ha].
  destruct (m s) as [[a'|e] s1]; simpl in *; [|discriminate].
  destruct (Hf a' s1) as (e2 & H3 & H4). exists (e1 ++ e2)%list.
  rewrite H3, H1, <- app_assoc. split; [reflexivity|].
  now rewrite term_signals_app, H2, H4.
Qed.

Lemma sends_catch (ps : list Z) {A} (m : M A) (h : Exn -> option (M A)) :
  sends_term ps m -> (forall e k, h e = Some k -> sends_term [] k) ->
  sends_term ps (catch m h).
Proof.
  intros Hm Hh s. unfold catch. destruct (Hm s) as (e1 & H1 & H2).
  destruct (m s) as [[a|e] s1]; simpl in *; [now exists e1|].
  destruct (h e) as [k|] eqn:He; simpl; [|now exists e1].
  destruct (Hh e k He s1) as (e2 & H3 & H4). exists (e1 ++ e2)%list.
  rewrite H3, H1, <- app_assoc. split; [reflexivity|].
  now rewrite term_signals_app, H2, H4, app_nil_r.
Qed.

(** The steps that send no signal 15. *)
Ltac no_term :=
  repeat match goal with
  | |- sends_term [] (bind _ _) => apply sends_bind_r; [|intros ?]
  | |- sends_term [] (catch _ _) => apply sends_catch; [|intros ? ? ?]
  | |- sends_term [] (suppress _) => apply sends_catch; [|intros ? ? ?]
  | |- sends_term [] (match ?x with _ => _ end) => destruct x
  | H : Some _ = Some _ |- _ => injection H as <-
  | |- sends_term [] (emit ?e) => apply (sends_emit e)
  | |- sends_term [] (log _) => unfold log
  | |- sends_term [] (sleep ?ms) => intros ?; exists [Slept ms]; split; reflexivity
  | |- sends_term [] _ => solve [apply sends_silent; intros ?; reflexivity]
  end.

Lemma sends_ps_terminate (pid : Z) : sends_term [pid] (ps_terminate E pid).
Proof.
  unfold ps_terminate. apply sends_bind_l; [never_raises|no_term|intros n].
  apply sends_bind_r; [apply (sends_emit (ForeignSignal pid 15))|intros _; no_term].
Qed.

Lemma sends_kill_15 (pid : Z) : sends_term [pid] (kill_signal E pid 15).
Proof.
  unfold kill_signal. apply sends_bind_l; [never_raises|no_term|intros n].
  apply sends_bind_r; [apply (sends_emit (ForeignSignal pid 15))|intros _; no_term].
Qed.

Lemma sends_terminate_pid (port : Z) (row : Z * string * string) :
  sends_term [fst (fst row)] (terminate_pid E port row).
Proof.
  unfold terminate_pid. apply sends_catch; [|intros e k [= <-]; no_term].
  apply sends_bind_r; [|intros _; no_term].
  destruct (HAS_PSUTIL E).
  - apply sends_bind_r; [apply sends_ps_terminate|intros _].
    unfold ps_wait, ps_kill. no_term.
  - apply sends_bind_r; [apply sends_kill_15|intros _].
    unfold kill_signal. no_term.
Qed.

Lemma sends_terminate_pids (port : Z) (pids : list (Z * string * string)) :
  sends_term (map (fun row => fst (fst row)) pids) (terminate_pids E port pids).
Proof.
  induction pids as [|row pids IH]; cbn [terminate_pids map]; [no_term|].
  apply (sends_bind_app [fst (fst row)]);
    [apply returns_terminate_pid|apply sends_terminate_pid|intros k].
  apply sends_bind_r; [exact IH|intros ks; no_term].
Qed.


Lemma returns_prompt_kill_pids (port : Z) (pids : list (Z * string * string)) (svc : string) :
  returns (_prompt_kill_pids E port pids svc).
Proof.
  unfold _prompt_kill_pids. destruct pids as [|row pids]; [apply returns_ret|].
  apply returns_bind.
  - unfold confirm_kill. apply returns_bind; [never_raises|intros n].
    destruct (tk_default_root E n); never_raises; apply returns_log.
  - intros answer. destruct (negb answer); [apply returns_ret|].
    apply (returns_terminate_pids port (row :: pids)).
Qed.

Lemma returns_check_port_conflict (port : Z) (svc : string) :
  notify_quiet notify_callback ->
  returns (check_port_conflict E notify_callback port svc).
Proof.
  intros Hq. unfold check_port_conflict.
  apply returns_bind; [unfold _tcp_open; never_raises|intros o].
  destruct o; [|apply returns_ret].
  apply returns_bind; [apply returns_log|intros _].
  apply returns_bind; [now apply returns_call_notify|intros _].
  apply returns_bind; [unfold _find_pids_on_port; never_raises|intros pids].
  destruct pids as [|row pids]; [apply returns_ret|].
  apply returns_bind; [apply returns_prompt_kill_pids|intros _].
  apply returns_bind; [unfold _tcp_open; never_raises|intros o'].
  destruct o'; [apply returns_ret|].
  apply returns_bind; [apply returns_log|intros _; apply returns_ret].
Qed.

Lemma idle_check_port_conflict (port : Z) (svc : string) :
  respects launches_nothing (check_port_conflict E notify_callback port svc).
Proof.
  unfold check_port_conflict.
  idle; auto using idle_log, idle_call_notify, idle_tcp_open, idle_find_pids,
          idle_prompt_kill_pids.
Qed.

Lemma tracked_live_absent (key : string) (s : State) :
  tbl_get key (procs s) = None -> tracked_live key s = (Returned false, s).
Proof. intros H. unfold tracked_live. rewrite bind_gets, H. reflexivity. Qed.

(** [env or os.environ.copy()] is [env] for an environment in which a
    variable was set. *)
Lemma environ_set_or (k v : string) (ev d : environ) :
  match environ_set k v ev with x :: r => x :: r | [] => d end = environ_set k v ev.
Proof.
  destruct ev as [|[k0 v0] ev']; simpl; [reflexivity|].
  destruct (String.eqb k0 k); reflexivity.
Qed.

(** The state [start_daphne] leaves when the launch succeeds. *)
Lemma daphne_spawned (s : State) (life : option Z) (code : Z) (td : option Z) :
  status_quiet status_callback ->
  notify_quiet notify_callback ->
  tbl_get "daphne" (procs s) = None ->
  launch_succeeds_with E (asked s) (daphne_proc E cfg) life code td ->
  let l := length (heap s) in
  let r := start_daphne E cfg status_callback notify_callback s in
  fst r = Returned tt /\
  procs (snd r) = tbl_set "daphne" l (procs s) /\
  heap (snd r)
  = (heap s ++ [mark_running (length (os s)) (now (snd r)) (daphne_proc E cfg)])%list /\
  exists evs : list Event,
    trace (snd r) = (trace s ++ evs)%list /\
    List.filter is_popen_call evs
    = [PopenCall (args (daphne_proc E cfg)) (PROJECT_ROOT cfg)].
Proof.
  intros Hs Hn Ht Hlaunch. cbv zeta.
  remember (start_daphne E cfg status_callback notify_callback s) as r eqn:Hr.
  unfold start_daphne in Hr.
  destruct (returns_check_port_conflict (DAPHNE_PORT cfg) "Daphne" Hn s) as [o Ho].
  destruct (idle_check_port_conflict (DAPHNE_PORT cfg) "Daphne" s)
    as (Hp1 & Hh1 & Ho1 & ev1 & Ht1 & Hf1).
  destruct (quiet_check_port_conflict E notify_callback (DAPHNE_PORT cfg) "Daphne" s)
    as (_ & _ & Ha1).
  destruct (check_port_conflict E notify_callback (DAPHNE_PORT cfg) "Daphne" s)
    as [r1 s1] eqn:Hrun1.
  cbn [fst snd] in *. subst r1. rewrite (bind_returned _ _ _ _ _ Hrun1) in Hr.
  unfold make_proc, bind at 1, new_proc in Hr. cbv beta iota in Hr.
  rewrite environ_set_or in Hr. fold (daphne_proc E cfg) in Hr.
  set (s2 := with_heap (heap s1 ++ [daphne_proc E cfg]) s1) in *.
  assert (Hl2 : (length (heap s1) < length (heap s2))%nat).
  { unfold s2. simpl. rewrite length_app. simpl. lia. }
  assert (Hh2 : heap s2 !!! length (heap s1) = daphne_proc E cfg).
  { unfold s2. simpl. rewrite lookup_total_app_r by lia. now rewrite Nat.sub_diag. }
  assert (Hlive : tracked_live "daphne" s2 = (Returned false, s2)).
  { apply tracked_live_absent. unfold s2. simpl. now rewrite Hp1. }
  assert (Hgo : launch_succeeds_with E (asked s2) (heap s2 !!! length (heap s1)) life code td).
  { rewrite Hh2. intros n Hle. apply Hlaunch. unfold s2 in Hle. simpl in Hle. lia. }
  destruct (spawn_launched_run E status_callback notify_callback
              "daphne" (length (heap s1)) s2 life code td Hs Hn Hl2 Hlive Hgo)
    as (Hr3 & Hp3 & Hh3 & Ho3 & Hn3 & _ & ev3 & Ht3 & Hf3).
  destruct (_spawn E status_callback notify_callback "daphne" (length (heap s1)) s2)
    as [r3 s3] eqn:Hrun3.
  cbn [fst snd] in *. subst r3. rewrite (bind_returned _ _ _ _ _ Hrun3) in Hr.
  subst r. unfold start_thread. cbn [emit modify fst snd].
  cbn [procs heap trace now with_trace].
  rewrite Hp3, Hh3, Ht3, Hh2, Hn3. unfold s2. cbn [procs heap os now trace with_heap].
  rewrite Hp1, Hh1, Ho1, Ht1.
  split; [reflexivity|]. split; [reflexivity|]. split.
  - rewrite insert_app_r_alt by lia. now rewrite Nat.sub_diag.
  - exists (ev1 ++ ev3 ++ [ThreadStart Waiter])%list. split.
    + now rewrite <- !app_assoc.
    + rewrite !List.filter_app, Hf1, Hf3, Hh2. reflexivity.
Qed.

(** X7. [start_daphne] does not wait for its port: the result of
    [check_port_conflict] is ignored.  Whatever answers on the Daphne
    port and whatever the prompt says, when Daphne is not tracked, the
    launcher starts the command and the callbacks return normally,
    [start_daphne] launches Daphne once and tracks it as Running, with
    auto-restart enabled. *)
Theorem start_daphne_ignores_port_conflict (s : State)
    (life : option Z) (code : Z) (td : option Z) :
  status_quiet status_callback ->
  notify_quiet notify_callback ->
  tbl_get "daphne" (procs s) = None ->
  launch_succeeds_with E (asked s) (daphne_proc E cfg) life code td ->
  let l := length (heap s) in
  let r := start_daphne E cfg status_callback notify_callback s in
  fst r = Returned tt /\
  tbl_get "daphne" (procs (snd r)) = Some l /\
  status (heap (snd r) !!! l) = RUNNING /\
  auto_restart (heap (snd r) !!! l) = true /\
  p (heap (snd r) !!! l) = Some (length (os s)) /\
  exists evs : list Event,
    trace (snd r) = (trace s ++ evs)%list /\
    List.filter is_popen_call evs
    = [PopenCall (args (daphne_proc E cfg)) (PROJECT_ROOT cfg)].
Proof.
  intros Hs Hn Ht Hlaunch.
  destruct (daphne_spawned s life code td Hs Hn Ht Hlaunch) as (Hr & Hp & Hh & Hev).
  cbv zeta. rewrite Hp, Hh.
  rewrite lookup_total_app_r by lia. rewrite Nat.sub_diag.
  split; [exact Hr|]. split; [apply tbl_get_set|].
  do 3 (split; [reflexivity|]). exact Hev.
Qed.

End Conflict.

(** ** The monitor: the key of the restart timer, and old crashes *)

#[local] Instance same_key_preorder : PreOrder same_key.
Proof. split; unfold same_key; [intros s|intros a b c]; congruence. Qed.

#[local] Instance only_status_preorder : PreOrder only_status.
Proof.
  split.
  - intros s. repeat split. exists []. now rewrite app_nil_r.
  - intros a b c (H1 & H2 & H3 & H4 & e1 & H5 & H6) (H7 & H8 & H9 & H10 & e2 & H11 & H12).
    repeat split; try congruence.
    exists (e1 ++ e2)%list. rewrite H11, H5, <- app_assoc. split; [reflexivity|].
    now rewrite forallb_app, H6, H12.
Qed.

Lemma for_each_app {A} (xs ys : list A) (body : A -> M unit) (s : State) :
  for_each (xs ++ ys) body s = bind (for_each xs body) (fun _ => for_each ys body) s.
Proof.
  revert s. induction xs as [|x xs IH]; intros s; simpl.
  - reflexivity.
  - rewrite bind_bind. unfold bind at 1 2.
    destruct (body x s) as [[[]|e] s1]; [apply IH|reflexivity].
Qed.

Section MonitorKey.

Variable E : Environment.
Variable cfg : Paths.
Variable status_callback : option (nat -> string -> ProcessStatus -> option Exn).
Variable notify_callback : option (nat -> string -> string -> option Exn).

Lemma key_call_status (key : string) (l : loc) :
  respects same_key (call_status status_callback key l).
Proof. unfold call_status. repeat rstep; intros ?; reflexivity. Qed.

Lemma key_call_notify (msg sev : string) :
  respects same_key (call_notify notify_callback msg sev).
Proof. unfold call_notify. repeat rstep; intros ?; reflexivity. Qed.

(** Whatever else it does, the body of the loop leaves its key in the
    loop variable. *)
Lemma check_proc_sets_key (key : string) (l : loc) (s : State) :
  monitor_key (snd (check_proc status_callback notify_callback key l s)) = Some key.
Proof.
  unfold check_proc. rewrite bind_modify.
  set (s0 := with_monitor_key (Some key) s).
  match goal with |- context [snd (?rest s0)] => assert (Hr : respects same_key rest) end.
  { unfold log, start_timer.
    repeat rstep;
      try apply key_call_status; try apply key_call_notify; intros ?; reflexivity. }
  rewrite (Hr s0). reflexivity.
Qed.

(** X8. The restart timer restarts the last service of the table, not
    the one that crashed.  The callback of the timer is
    [lambda: self._restart_proc(key)], and [key] is the loop variable
    of the monitor: after a turn of the monitor over a table whose last
    key is [k] (the callbacks returning normally), a restart timer that
    fires calls [_restart_proc k], whichever service the turn found
    crashed. *)
Theorem restart_timer_restarts_last_key (s : State) (front : list (string * loc))
    (k : string) (l : loc) :
  status_quiet status_callback ->
  notify_quiet notify_callback ->
  procs s = (front ++ [(k, l)])%list ->
  let s' := snd (monitor_tick status_callback notify_callback s) in
  monitor_key s' = Some k /\
  run_timer E cfg status_callback notify_callback CallRestartKey s'
  = _restart_proc E cfg status_callback notify_callback k s'.
Proof.
  intros Hs Hn Hp. cbv zeta.
  assert (Hk : monitor_key (snd (monitor_tick status_callback notify_callback s)) = Some k).
  { unfold monitor_tick. rewrite bind_sleep, bind_gets.
    set (s0 := with_now _ _). change (procs s0) with (procs s). rewrite Hp.
    rewrite for_each_app.
    set (body := fun kl : string * loc =>
                   check_proc status_callback notify_callback (fst kl) (snd kl)).
    destruct (returns_for_each front body) with (s := s0) as [[] Hret].
    { intros kl. now apply returns_check_proc. }
    destruct (for_each front body s0) as [r1 s1] eqn:Hrun. simpl in Hret. subst r1.
    rewrite (bind_returned _ _ _ _ _ Hrun). cbn [for_each].
    destruct (returns_check_proc status_callback notify_callback k l Hs Hn s1) as [[] Hret].
    pose proof (check_proc_sets_key k l s1) as Hkey.
    unfold body at 1. cbn [fst snd].
    destruct (check_proc status_callback notify_callback k l s1) as [r2 s2] eqn:Hrun2.
    simpl in Hret, Hkey. subst r2.
    rewrite (bind_returned _ _ _ _ _ Hrun2). exact Hkey. }
  split; [exact Hk|].
  unfold run_timer. rewrite bind_gets, Hk. reflexivity.
Qed.

Lemma only_status_call_status (key : string) (l : loc) :
  respects only_status (call_status status_callback key l).
Proof.
  unfold call_status. destruct status_callback as [cb|]; [|intros s; reflexivity].
  intros s. rewrite bind_deref, bind_ask, bind_emit. cbv beta.
  match goal with |- context [cb ?n ?k ?st] => destruct (cb n k st) end;
    simpl; repeat split; now eexists [_].
Qed.

(** X9. A crash is reported once.  The monitor acts on a handle only
    while it is Running: for a handle in any other state (Failed after
    a crash, Stopped, Starting) the body of the loop changes no handle,
    starts no timer, logs nothing and notifies nobody; it only calls
    the status callback.  In particular, after the turn that recorded a
    crash, the next look at the same handle does nothing. *)
Theorem crash_reported_once (key : string) (l : loc) (s : State) :
  (status (heap s !!! l) <> RUNNING ->
   only_status s (snd (check_proc status_callback notify_callback key l s))) /\
  ((l < length (heap s))%nat -> crashed s l ->
   forall key',
     let s1 := snd (check_proc status_callback notify_callback key l s) in
     only_status s1 (snd (check_proc status_callback notify_callback key' l s1))).
Proof.
  assert (Hidle : forall k (s0 : State), status (heap s0 !!! l) <> RUNNING ->
            only_status s0 (snd (check_proc status_callback notify_callback k l s0))).
  { intros k s0 Hst. unfold check_proc. rewrite bind_modify, bind_deref.
    set (s1 := with_monitor_key (Some k) s0). change (heap s1) with (heap s0).
    assert (H01 : only_status s0 s1).
    { repeat split. exists []. now rewrite app_nil_r. }
    assert (Hrest : respects only_status
              (bind (ret tt) (fun _ => call_status status_callback k l))).
    { apply respects_bind; order_goal; [apply respects_ret; order_goal|].
      intros _. apply only_status_call_status. }
    destruct (p (heap s0 !!! l)) as [pp|].
    - rewrite bind_bind, bind_poll, bind_ret.
      destruct (poll_in s1 pp) as [rc|].
      + destruct (status_eqb (status (heap s0 !!! l)) RUNNING) eqn:Heq.
        * apply status_eqb_eq in Heq. contradiction.
        * etransitivity; [exact H01|apply Hrest].
      + etransitivity; [exact H01|apply Hrest].
    - rewrite bind_ret. etransitivity; [exact H01|apply Hrest]. }
  split; [apply Hidle|].
  intros Hl Hc key'. cbv zeta. apply Hidle.
  rewrite (check_proc_records_crash status_callback notify_callback key l s Hl Hc).
  discriminate.
Qed.

End MonitorKey.

(** ** The start of the backend *)

#[local] Instance preflight_preorder : PreOrder preflight.
Proof.
  split.
  - intros s. repeat split; auto; lia.
  - intros a b c (H1 & H2 & H3) (H4 & H5 & H6). repeat split; [congruence|lia|].
    intros k Hr Hm. rewrite H6, H3; auto.
Qed.

(** A step that leaves timers, clock and table alone. *)
Lemma preflight_silent {A} (m : M A) :
  (forall s, timers (snd (m s)) = timers s /\ now (snd (m s)) = now s /\
             procs (snd (m s)) = procs s) ->
  respects preflight m.
Proof.
  intros H s. destruct (H s) as (H1 & H2 & H3). repeat split; [exact H1|lia|].
  intros k _ _. now rewrite H3.
Qed.

Lemma preflight_sleep (ms : Z) : 0 <= ms -> respects preflight (sleep ms).
Proof. intros H s. split; [reflexivity|]. split; [simpl; lia|]. intros; reflexivity. Qed.

Lemma preflight_track (key : string) (l : loc) :
  key = "redis_docker" \/ key = "migrate" ->
  respects preflight (modify (fun s => with_procs (tbl_set key l (procs s)) s)).
Proof.
  intros Hk s. split; [reflexivity|]. split; [simpl; lia|]. simpl.
  intros k Hr Hm. apply tbl_get_set_ne. destruct Hk; congruence.
Qed.

Ltac preflight :=
  repeat rstep;
  try solve [apply preflight_silent; intros ?; repeat split
            |apply preflight_sleep; lia].

Section Backend.

Variable E : Environment.
Variable cfg : Paths.
Variable status_callback : option (nat -> string -> ProcessStatus -> option Exn).
Variable notify_callback : option (nat -> string -> string -> option Exn).

Lemma preflight_spawn (key : string) (l : loc) :
  key = "redis_docker" \/ key = "migrate" ->
  respects preflight (_spawn E status_callback notify_callback key l).
Proof.
  intros Hk.
  unfold _spawn, tracked_live, launch_and_track, try_launch, commit_running, Popen_init,
    call_status, call_notify, log, start_thread.
  preflight. now apply preflight_track.
Qed.

Lemma preflight_wait_redis (n : nat) : respects preflight (wait_redis E cfg n).
Proof.
  induction n as [|n IH]; cbn [wait_redis]; unfold _tcp_open, log; preflight. exact IH.
Qed.

Lemma preflight_ensure_redis :
  respects preflight (ensure_redis E cfg status_callback notify_callback).
Proof.
  unfold ensure_redis, _tcp_open, log, make_proc. preflight.
  - apply preflight_spawn. now left.
  - apply preflight_wait_redis.
Qed.

Lemma preflight_migrate_db :
  respects preflight (migrate_db E cfg status_callback notify_callback).
Proof.
  unfold migrate_db, log, make_proc. preflight. apply preflight_spawn. now right.
Qed.

(** X10. [start_all] starts none of the four services itself: when it
    returns, it has started exactly four timers, for Daphne, Celery
    beat, the Celery worker and the frontend, due 1.0, 1.5, 2.0 and 3.0
    seconds after the preflight (Redis, and the migration under the
    policy "always"), and the table entries of these four services are
    as before. *)
Theorem start_all_schedules_stages (s : State) :
  let r := start_all E cfg status_callback notify_callback s in
  fst r = Returned tt ->
  timers (snd r)
  = (timers s ++ [(now (snd r) + 1000, CallStartDaphne);
                  (now (snd r) + 1500, CallStartCeleryBeat);
                  (now (snd r) + 2000, CallStartCeleryWorker);
                  (now (snd r) + 3000, CallStartFrontend)])%list /\
  now s <= now (snd r) /\
  forall k, In k ["daphne"; "celery_beat"; "celery_worker"; "frontend"] ->
    tbl_get k (procs (snd r)) = tbl_get k (procs s).
Proof.
  cbv zeta.
  remember (start_all E cfg status_callback notify_callback s) as r eqn:Hr.
  unfold start_all, start_backend in Hr. rewrite !bind_bind in Hr.
  set (pre := (if String.eqb (MIGRATION_POLICY cfg) "always"
               then bind (migrate_db E cfg status_callback notify_callback)
                         (fun _ => sleep 1000)
               else ret tt)) in Hr.
  assert (Hpre : respects preflight pre).
  { unfold pre. destruct (String.eqb (MIGRATION_POLICY cfg) "always"); preflight.
    apply preflight_migrate_db. }
  pose proof (preflight_ensure_redis s) as H1.
  unfold bind at 1 in Hr.
  destruct (ensure_redis E cfg status_callback notify_callback s) as [[[]|e] s1];
    [|subst r; intros H; discriminate H].
  pose proof (Hpre s1) as H2. cbv beta iota in Hr. rewrite !bind_bind in Hr.
  unfold bind at 1 in Hr.
  destruct (pre s1) as [[[]|e] s2]; [|subst r; intros H; discriminate H].
  cbn [snd] in H1, H2.
  assert (H12 : preflight s s2) by (etransitivity; eassumption).
  destruct H12 as (Ht & Hn & Hk).
  unfold start_timer in Hr. cbv beta iota in Hr.
  repeat (first [rewrite bind_bind in Hr|rewrite bind_modify in Hr]; cbv beta in Hr).
  unfold modify in Hr. subst r. intros _. cbn [snd].
  cbn [timers now procs with_timers with_trace].
  split; [|split; [exact Hn|]].
  - rewrite Ht, <- !app_assoc. reflexivity.
  - intros k Hin. apply Hk; simpl in Hin; intuition congruence.
Qed.

End Backend.

(** ** Spawn and terminate, one after the other *)

Lemma tbl_pop_set_absent (key : string) (l : loc) (t : list (string * loc)) :
  tbl_get key t = None -> tbl_pop key (tbl_set key l t) = t.
Proof.
  induction t as [|[k l0] t IH]; simpl.
  - now rewrite String.eqb_refl.
  - destruct (String.eqb k key) eqn:Hk; [discriminate|]. simpl. rewrite Hk.
    intros H. now rewrite IH.
Qed.

Section RoundTrip.

Variable E : Environment.
Variable status_callback : option (nat -> string -> ProcessStatus -> option Exn).
Variable notify_callback : option (nat -> string -> string -> option Exn).

(** The table after a [_terminate] that returns. *)
Lemma terminate_returned_table (key : string) (s : State) :
  wf s ->
  status_quiet status_callback ->
  let r := _terminate status_callback key s in
  fst r = Returned tt /\ procs (snd r) = tbl_pop key (procs s).
Proof.
  intros Hwf Hq. cbv zeta.
  destruct (tbl_get key (procs s)) as [l|] eqn:Ht.
  2:{ rewrite (terminate_absent_key status_callback key s Ht). simpl.
      split; [reflexivity|]. now rewrite tbl_pop_absent. }
  destruct (wf_tracked s key l Hwf Ht) as [Hl Hp].
  unfold _terminate. rewrite bind_gets, Ht, bind_deref.
  destruct (p (heap s !!! l)) as [pp|] eqn:Hpp; [clear Hp|contradiction].
  rewrite bind_poll.
  set (stop := match poll_in s pp with
               | Some _ => ret tt
               | None => graceful_stop (name (heap s !!! l)) pp
               end).
  assert (Hret : returns stop).
  { unfold stop. destruct (poll_in s pp); [apply returns_ret|apply returns_graceful_stop]. }
  assert (Hsame : respects same_table stop).
  { unfold stop. destruct (poll_in s pp); [quiet|apply quiet_graceful_stop]. }
  destruct (Hret s) as [[] Hr]. specialize (Hsame s).
  destruct (stop s) as [r1 s1] eqn:Hrun. simpl in Hr, Hsame. subst r1.
  destruct Hsame as (Hp1 & _ & _).
  rewrite (bind_returned _ _ _ _ _ Hrun).
  destruct (commit_stopped_run status_callback key l s1) as (_ & _ & _ & _ & Hres).
  destruct (fst (commit_stopped status_callback key l s1)) as [[]|e].
  - split; [reflexivity|]. now rewrite Hres, Hp1.
  - destruct Hres as (_ & cb & n & st & Hcb & He).
    rewrite (Hq cb Hcb) in He. discriminate He.
Qed.

(** X11. Spawn and terminate undo each other in the table.  For a key
    that is not tracked, a spawn whose launch succeeds followed by
    [_terminate] on the key leaves the table exactly as it was before
    the spawn; the handle is Stopped, and one more [_terminate] on the
    key does nothing at all (the callbacks returning normally). *)
Theorem spawn_then_terminate_restores_table (key : string) (l : loc) (s : State)
    (life : option Z) (code : Z) (td : option Z) :
  status_quiet status_callback ->
  notify_quiet notify_callback ->
  wf s ->
  (l < length (heap s))%nat ->
  tbl_get key (procs s) = None ->
  launch_succeeds_with E (asked s) (heap s !!! l) life code td ->
  let s1 := snd (_spawn E status_callback notify_callback key l s) in
  let r := _terminate status_callback key s1 in
  tbl_get key (procs s1) = Some l /\
  fst r = Returned tt /\
  procs (snd r) = procs s /\
  status (heap (snd r) !!! l) = STOPPED /\
  _terminate status_callback key (snd r) = (Returned tt, snd r).
Proof.
  intros Hs Hn Hwf Hl Ht Hlaunch. cbv zeta.
  destruct (spawn_launched_run E status_callback notify_callback key l s life code td
              Hs Hn Hl (tracked_live_absent key s Ht) Hlaunch)
    as (_ & Hp1 & _).
  assert (Hwf1 : wf (snd (_spawn E status_callback notify_callback key l s))).
  { apply (keeps_spawn E status_callback notify_callback (length (heap s)) key l Hl s);
      [lia|exact Hwf]. }
  set (s1 := snd (_spawn E status_callback notify_callback key l s)) in *.
  assert (Ht1 : tbl_get key (procs s1) = Some l) by (rewrite Hp1; apply tbl_get_set).
  destruct (terminate_returned_table key s1 Hwf1 Hs) as [Hr Hp2].
  destruct (terminate_effect status_callback key s1 Hwf1) as (_ & _ & _ & _ & Hmark & _ & Hnone).
  split; [exact Ht1|]. split; [exact Hr|].
  split; [rewrite Hp2, Hp1; now apply tbl_pop_set_absent|].
  split; [now apply Hmark|].
  apply terminate_absent_key. now apply Hnone.
Qed.

End RoundTrip.

(** ** The processes on a port *)

Lemma dedup_pids_spec (seen : list Z) (rows : list (Z * string * string)) :
  let uniq := dedup_pids seen rows in
  List.NoDup (map (fun r => fst (fst r)) uniq) /\
  (forall r, In r uniq -> In r rows /\ ~ In (fst (fst r)) seen) /\
  (forall r, In r rows -> ~ In (fst (fst r)) seen ->
     exists r', In r' uniq /\ fst (fst r') = fst (fst r)).
Proof.
  cbv zeta. revert seen. induction rows as [|[[pid nm] cmd] rows IH]; intros seen.
  - simpl. split; [constructor|]. split; [intros r []|intros r []].
  - cbn [dedup_pids].
    destruct (existsb (Z.eqb pid) seen) eqn:Hex.
    + apply existsb_exists in Hex as (x & Hx & Heq). apply Z.eqb_eq in Heq. subst x.
      destruct (IH seen) as (Hnd & Hsub & Hall).
      split; [exact Hnd|]. split.
      * intros r Hin. destruct (Hsub r Hin) as [H1 H2]. split; [now right|exact H2].
      * intros r [<-|Hin] Hns; [contradiction|]. now apply Hall.
    + assert (Hnot : ~ In pid seen).
      { intros Hin. apply Bool.not_true_iff_false in Hex. apply Hex.
        apply existsb_exists. exists pid. split; [exact Hin|apply Z.eqb_refl]. }
      destruct (IH (pid :: seen)) as (Hnd & Hsub & Hall).
      split; [|split].
      * cbn [map fst]. apply List.NoDup_cons_iff. split; [|exact Hnd].
        rewrite in_map_iff. intros (r & Hr & Hin).
        destruct (Hsub r Hin) as [_ Hns]. apply Hns. left. now symmetry.
      * intros r [<-|Hin]; [split; [now left|exact Hnot]|].
        destruct (Hsub r Hin) as [H1 H2]. split; [now right|].
        intros H. apply H2. now right.
      * intros r [<-|Hin] Hns.
        -- exists (pid, nm, cmd). split; [now left|reflexivity].
        -- destruct (Z.eq_dec (fst (fst r)) pid) as [Heq|Hne].
           ++ exists (pid, nm, cmd). split; [now left|now symmetry].
           ++ destruct (Hall r Hin) as (r' & Hr' & Heq').
              { intros [H|H]; [now apply Hne|now apply Hns]. }
              exists r'. split; [now right|exact Heq'].
Qed.

(** X12. [_find_pids_on_port] reports every process once: no pid occurs
    twice in its result, every row of the result is a row the system
    reported, and every pid the system reported is in the result.  It
    never raises. *)
Theorem find_pids_reports_each_pid_once (E : Environment) (port : Z) (s : State) :
  exists rows,
    fst (_find_pids_on_port E port s) = Returned rows /\
    List.NoDup (map (fun r => fst (fst r)) rows) /\
    (forall r, In r rows -> In r (net_listeners E (asked s) port)) /\
    (forall r, In r (net_listeners E (asked s) port) ->
       exists r', In r' rows /\ fst (fst r') = fst (fst r)).
Proof.
  unfold _find_pids_on_port. rewrite bind_ask. eexists. split; [reflexivity|].
  destruct (dedup_pids_spec [] (net_listeners E (asked s) port)) as (H1 & H2 & H3).
  split; [exact H1|]. split.
  - intros r Hin. now apply H2.
  - intros r Hin. apply H3; [exact Hin|intros []].
Qed.

(** ** Timers that are pending when everything is stopped *)

#[local] Instance same_timers_preorder : PreOrder same_timers.
Proof. split; unfold same_timers; [intros s|intros a b c]; congruence. Qed.

Ltac untimed := repeat rstep; try solve [intros ?; reflexivity].

Lemma untimed_wait_exit (n : nat) (pp : popen_ref) : respects same_timers (wait_exit n pp).
Proof. induction n as [|n IH]; unfold wait_exit; fold wait_exit; untimed. exact IH. Qed.

Section PendingTimers.

Variable E : Environment.
Variable cfg : Paths.
Variable status_callback : option (nat -> string -> ProcessStatus -> option Exn).
Variable notify_callback : option (nat -> string -> string -> option Exn).

Lemma untimed_terminate (key : string) :
  respects same_timers (_terminate status_callback key).
Proof.
  unfold _terminate, graceful_stop, commit_stopped, popen_terminate, popen_kill,
    call_status, log.
  untimed; apply untimed_wait_exit.
Qed.

Lemma untimed_worker : respects same_timers (worker E cfg status_callback).
Proof.
  unfold worker, _tcp_open, log. untimed.
  apply respects_for_each; order_goal. intros key _. unfold stop_one, log. untimed.
  apply untimed_terminate.
Qed.

(** X13. [stop_all] cancels no timer: the timers that were pending are
    still pending after the worker, so a stage that [start_all] has
    scheduled is still started later.  A pending restart timer,
    however, restarts nothing once the worker is through (the status
    callback returning normally): none of the services it could
    restart is tracked any more. *)
Theorem stop_all_leaves_timers_pending (s : State) :
  let s' := snd (worker E cfg status_callback s) in
  timers s' = timers s /\
  (wf s -> status_quiet status_callback ->
   forall key,
     _restart_proc E cfg status_callback notify_callback key s' = (Returned tt, s')).
Proof.
  cbv zeta. split; [apply untimed_worker|].
  intros Hwf Hq key.
  pose proof (stop_all_untracks E cfg status_callback s Hwf Hq) as Hnone.
  unfold _restart_proc. rewrite bind_gets.
  destruct (tbl_get key (procs (snd (worker E cfg status_callback s)))) as [l|] eqn:Ht;
    [|reflexivity].
  assert (Hout : ~ In key order).
  { intros Hin. rewrite (Hnone key Hin) in Ht. discriminate Ht. }
  destruct (String.eqb_spec key "daphne") as [->|_]; [exfalso; apply Hout; simpl; tauto|].
  destruct (String.eqb_spec key "celery_beat") as [->|_];
    [exfalso; apply Hout; simpl; tauto|].
  destruct (String.eqb_spec key "celery_worker") as [->|_];
    [exfalso; apply Hout; simpl; tauto|].
  destruct (String.eqb_spec key "frontend") as [->|_];
    [exfalso; apply Hout; simpl; tauto|].
  reflexivity.
Qed.

End PendingTimers.

(** ** Services without auto-restart *)

Section OneShot.

Variable status_callback : option (nat -> string -> ProcessStatus -> option Exn).
Variable notify_callback : option (nat -> string -> string -> option Exn).

Lemma logs_call_notify (msg sev : string) :
  respects logs (call_notify notify_callback msg sev).
Proof. unfold call_notify. repeat rstep; auto using logs_emit, logs_ask. Qed.

(** X14. Every exit counts as a crash.  When the process of a Running
    handle has exited, with whatever code (0 included), the monitor
    marks the handle Failed, records "Exited with code <rc>" and logs
    "<name> crashed!".  For a service without auto-restart (the Redis
    container, the migration) that is all: no timer is started and the
    restart count stays as it is, whatever the callbacks do. *)
Theorem exit_without_auto_restart (key : string) (l : loc) (s : State)
    (pp : popen_ref) (rc : Z) :
  (l < length (heap s))%nat ->
  p (heap s !!! l) = Some pp ->
  poll_in s pp = Some rc ->
  status (heap s !!! l) = RUNNING ->
  auto_restart (heap s !!! l) = false ->
  let s' := snd (check_proc status_callback notify_callback key l s) in
  heap s'
  = <[l := with_last_error (Some ("Exited with code " +:+ pretty rc))
             (with_status FAILED (heap s !!! l))]> (heap s) /\
  timers s' = timers s /\
  exists tail : list Event,
    trace s'
    = (trace s ++ UiLog (now s) ("⚠️ " +:+ name (heap s !!! l) +:+ " crashed!") "INFO"
               :: tail)%list.
Proof.
  intros Hl Hp Hpoll Hst Har. cbv zeta. unfold check_proc.
  rewrite bind_modify, bind_deref.
  set (s0 := with_monitor_key (Some key) s). change (heap s0) with (heap s).
  set (h := heap s !!! l) in *.
  rewrite Hp, bind_bind, bind_poll. change (poll_in s0 pp) with (poll_in s pp).
  rewrite Hpoll, bind_ret, Hst. cbn [status_eqb]. cbv beta iota.
  rewrite Har. cbn [andb]. repeat mstep.
  match goal with |- context [bind (call_notify _ _ _) _ ?st] => set (s3 := st) end.
  match goal with |- context [snd (?rest s3)] => assert (Hr : respects logs rest) end.
  { apply respects_bind; order_goal; [apply logs_call_notify|intros _].
    apply respects_bind; order_goal; [apply respects_ret; order_goal|intros _].
    apply logs_call_status. }
  destruct (Hr s3) as (Hh & Ht & _ & tail & Htr).
  rewrite Hh, Ht, Htr. unfold s3. simpl.
  rewrite list_lookup_total_insert_eq by exact Hl.
  rewrite list_insert_insert_eq.
  split; [reflexivity|]. split; [reflexivity|].
  exists tail. now rewrite <- app_assoc.
Qed.

End OneShot.

(** * The configuration code *)

(** ** Dictionaries *)

Lemma dict_get_In (k : string) (d : dict) :
  In k (map fst d) <-> dict_get k d <> None.
Proof.
  induction d as [|[k0 v0] d IH]; simpl; [tauto|].
  destruct (String.eqb_spec k0 k) as [->|Hne].
  - split; [discriminate|intros _; now left].
  - rewrite <- IH. split; [intros [H|H]; [contradiction|exact H]|intros H; now right].
Qed.

Lemma dict_set_keys (k : string) (v : Json) (d : dict) :
  In k (map fst d) -> map fst (dict_set k v d) = map fst d.
Proof.
  induction d as [|[k0 v0] d IH]; simpl; [intros []|].
  destruct (String.eqb_spec k0 k) as [->|Hne]; [reflexivity|].
  intros [H|H]; [contradiction|]. simpl. now rewrite IH.
Qed.

Lemma dict_get_set_eq (k : string) (v : Json) (d : dict) :
  dict_get k (dict_set k v d) = Some v.
Proof.
  induction d as [|[k0 v0] d IH]; simpl.
  - now rewrite String.eqb_refl.
  - destruct (String.eqb_spec k0 k) as [->|Hne]; simpl.
    + now rewrite String.eqb_refl.
    + destruct (String.eqb_spec k0 k); [contradiction|exact IH].
Qed.

Lemma dict_get_set_ne (k k' : string) (v : Json) (d : dict) :
  k' <> k -> dict_get k' (dict_set k v d) = dict_get k' d.
Proof.
  intros Hne. induction d as [|[k0 v0] d IH]; simpl.
  - destruct (String.eqb_spec k k'); [congruence|reflexivity].
  - destruct (String.eqb_spec k0 k) as [->|Hk0]; simpl.
    + destruct (String.eqb_spec k k'); [congruence|reflexivity].
    + now rewrite IH.
Qed.

Lemma dict_set_same (k : string) (v : Json) (d : dict) :
  dict_get k d = Some v -> dict_set k v d = d.
Proof.
  induction d as [|[k0 v0] d IH]; simpl; [discriminate|].
  destruct (String.eqb_spec k0 k) as [->|Hne].
  - now intros [= ->].
  - intros H. now rewrite IH.
Qed.

(** Two dictionaries with the same keys in the same order and the same
    value under every key are the same. *)
Lemma dict_ext (d1 d2 : dict) :
  List.NoDup (map fst d1) ->
  map fst d1 = map fst d2 ->
  (forall k, In k (map fst d1) -> dict_get k d1 = dict_get k d2) ->
  d1 = d2.
Proof.
  revert d2. induction d1 as [|[k v] d1 IH]; intros [|[k2 v2] d2] Hnd Hk Hv;
    try discriminate Hk; [reflexivity|].
  simpl in Hk. injection Hk as <- Hk.
  apply List.NoDup_cons_iff in Hnd as [Hnotin Hnd].
  assert (Hvv : v = v2).
  { specialize (Hv k (or_introl eq_refl)). simpl in Hv.
    rewrite String.eqb_refl in Hv. now injection Hv. }
  subst v2. f_equal. apply IH; [exact Hnd|exact Hk|].
  intros k' Hin. specialize (Hv k' (or_intror Hin)). simpl in Hv.
  destruct (String.eqb_spec k k') as [->|_]; [contradiction|exact Hv].
Qed.

Lemma DEFAULTS_keys (w : bool) :
  map fst (DEFAULTS w)
  = ["PROJECT_ROOT"; "FRONTEND_DIR"; "NPM_EXE"; "DOCKER_EXE"; "DJANGO_ASGI_APP";
     "DAPHNE_HOST"; "DAPHNE_PORT"; "FRONTEND_HOST"; "FRONTEND_PORT";
     "AUTO_OPEN_BROWSER"; "REDIS_HOST"; "REDIS_PORT"; "REDIS_DOCKER_NAME";
     "FETCH_OPENAPI"; "OPENAPI_REL"; "CELERY_QUEUE"; "CELERY_POOL";
     "CELERY_CONCURRENCY"; "MIGRATION_POLICY"; "DOCKER_MEMORY_LIMIT";
     "DOCKER_CPU_LIMIT"].
Proof. reflexivity. Qed.

Lemma DEFAULTS_NoDup (w : bool) : List.NoDup (map fst (DEFAULTS w)).
Proof.
  rewrite DEFAULTS_keys.
  repeat (apply List.NoDup_cons; [simpl; intuition discriminate|]). constructor.
Qed.

(** ** [_migrate] *)

Section MigrateProps.

Variable windows : bool.
Variable py_int : string -> option Z.
Variable urlparse : string -> option UrlParts.

#[local] Abbreviation D := (DEFAULTS windows).
#[local] Abbreviation keys_ok d := (map fst d = map fst D).
#[local] Abbreviation is_int d k := (exists n, dict_get k d = Some (JInt n)).

Lemma set_keys_ok (d : dict) (k : string) (v : Json) :
  keys_ok d -> In k (map fst D) -> keys_ok (dict_set k v d).
Proof. intros Hd Hin. rewrite dict_set_keys; [exact Hd|]. now rewrite Hd. Qed.

(** The loop that copies the known keys. *)
Lemma copy_loop (data : dict) (ks : list string) (m : dict) :
  incl ks (map fst D) -> keys_ok m ->
  let m' := fold_left
              (fun m k => match dict_get k data with
                          | Some v => dict_set k v m
                          | None => m
                          end) ks m in
  keys_ok m' /\
  forall k, dict_get k m'
            = match dict_get k data with
              | Some v => if in_dec String.string_dec k ks then Some v else dict_get k m
              | None => dict_get k m
              end.
Proof.
  revert m. induction ks as [|k0 ks IH]; intros m Hks Hm; cbv zeta.
  - simpl. split; [exact Hm|]. intros k. now destruct (dict_get k data).
  - cbn [fold_left].
    assert (Hk0 : In k0 (map fst D)) by (apply Hks; now left).
    assert (Hks' : incl ks (map fst D)) by (intros x Hx; apply Hks; now right).
    set (m1 := match dict_get k0 data with Some v => dict_set k0 v m | None => m end).
    assert (Hm1 : keys_ok m1).
    { unfold m1. destruct (dict_get k0 data); [now apply set_keys_ok|exact Hm]. }
    destruct (IH m1 Hks' Hm1) as [Hkeys Hget]. split; [exact Hkeys|].
    intros k. rewrite Hget. destruct (dict_get k data) as [v|] eqn:Hd.
    + destruct (in_dec String.string_dec k ks) as [Hin|Hout].
      * destruct (in_dec String.string_dec k (k0 :: ks)) as [_|Hn]; [reflexivity|].
        exfalso. apply Hn. now right.
      * unfold m1. destruct (String.string_dec k0 k) as [->|Hne].
        -- rewrite Hd, dict_get_set_eq.
           destruct (in_dec String.string_dec k (k :: ks)) as [_|Hn]; [reflexivity|].
           exfalso. apply Hn. now left.
        -- destruct (in_dec String.string_dec k (k0 :: ks)) as [[H|H]|_];
             [contradiction|contradiction|].
           destruct (dict_get k0 data); [|reflexivity].
           apply dict_get_set_ne. congruence.
    + unfold m1. destruct (dict_get k0 data) as [v0|] eqn:Hd0; [|reflexivity].
      apply dict_get_set_ne. intros ->. congruence.
Qed.

Lemma copy_known_spec (data : dict) :
  keys_ok (copy_known windows data D) /\
  forall k, In k (map fst D) ->
    dict_get k (copy_known windows data D)
    = match dict_get k data with Some v => Some v | None => dict_get k D end.
Proof.
  destruct (copy_loop data (map fst D) D (incl_refl _) eq_refl) as [Hk Hg].
  split; [exact Hk|]. intros k Hin. unfold copy_known. rewrite Hg.
  destruct (dict_get k data); [|reflexivity].
  destruct (in_dec String.string_dec k (map fst D)); [reflexivity|contradiction].
Qed.

Lemma legacy_keys (data m : dict) :
  keys_ok m -> keys_ok (legacy_frontend_url urlparse data m).
Proof.
  intros Hm. unfold legacy_frontend_url.
  destruct (dict_get "FRONTEND_URL" data) as [[| | | | |u| |]|]; try exact Hm.
  destruct (urlparse u) as [[host port]|]; [|exact Hm]. cbn [url_hostname url_port].
  set (m1 := match host with
             | Some (String c h) => dict_set "FRONTEND_HOST" (JStr (String c h)) m
             | _ => m
             end).
  assert (Hm1 : keys_ok m1).
  { unfold m1. destruct host as [[|c h]|]; try exact Hm.
    apply set_keys_ok; [exact Hm|]. rewrite DEFAULTS_keys. simpl. tauto. }
  destruct port as [[pn|]|e]; try exact Hm1.
  destruct (pn =? 0); [exact Hm1|].
  apply set_keys_ok; [exact Hm1|]. rewrite DEFAULTS_keys. simpl. tauto.
Qed.

(** The legacy key changes nothing but the two frontend keys. *)
Lemma legacy_other (data m : dict) (k : string) :
  k <> "FRONTEND_HOST" -> k <> "FRONTEND_PORT" ->
  dict_get k (legacy_frontend_url urlparse data m) = dict_get k m.
Proof.
  intros Hh Hp. unfold legacy_frontend_url.
  destruct (dict_get "FRONTEND_URL" data) as [[| | | | |u| |]|]; try reflexivity.
  destruct (urlparse u) as [[host port]|]; [|reflexivity]. cbn [url_hostname url_port].
  set (m1 := match host with
             | Some (String c h) => dict_set "FRONTEND_HOST" (JStr (String c h)) m
             | _ => m
             end).
  assert (H1 : dict_get k m1 = dict_get k m).
  { unfold m1. destruct host as [[|c h]|]; try reflexivity. now apply dict_get_set_ne. }
  destruct port as [[pn|]|e]; try exact H1.
  destruct (pn =? 0); [exact H1|]. rewrite dict_get_set_ne by exact Hp. exact H1.
Qed.

Lemma legacy_absent (data m : dict) :
  dict_get "FRONTEND_URL" data = None -> legacy_frontend_url urlparse data m = m.
Proof. intros H. unfold legacy_frontend_url. now rewrite H. Qed.

Lemma default_int (k : string) :
  In k int_keys ->
  exists n, match dict_get k D with Some v => int_of py_int v | None => None end = Some n.
Proof.
  intros Hin. simpl in Hin.
  destruct Hin as [<-|[<-|[<-|[<-|[]]]]]; simpl; eauto.
Qed.

Lemma int_key_known (k : string) : In k int_keys -> In k (map fst D).
Proof.
  intros Hin. rewrite DEFAULTS_keys. simpl in Hin.
  destruct Hin as [<-|[<-|[<-|[<-|[]]]]]; simpl; tauto.
Qed.

Lemma ensure_int_spec (m : dict) (k : string) :
  keys_ok m -> In k int_keys ->
  keys_ok (ensure_int windows py_int m k) /\
  is_int (ensure_int windows py_int m k) k /\
  (forall k', k' <> k ->
     dict_get k' (ensure_int windows py_int m k) = dict_get k' m) /\
  (is_int m k -> ensure_int windows py_int m k = m).
Proof.
  intros Hm Hin. pose proof (int_key_known k Hin) as Hk.
  destruct (default_int k Hin) as [nd Hd]. unfold ensure_int. rewrite Hd.
  destruct (match dict_get k m with Some v => int_of py_int v | None => None end)
    as [n|] eqn:Hv.
  - split; [now apply set_keys_ok|]. split; [exists n; apply dict_get_set_eq|].
    split; [intros k' Hne; now apply dict_get_set_ne|].
    intros [n' Hn']. rewrite Hn' in Hv. simpl in Hv. injection Hv as <-.
    now apply dict_set_same.
  - split; [now apply set_keys_ok|]. split; [exists nd; apply dict_get_set_eq|].
    split; [intros k' Hne; now apply dict_get_set_ne|].
    intros [n' Hn']. rewrite Hn' in Hv. discriminate Hv.
Qed.

Lemma ensure_ints_spec (ks : list string) (m : dict) :
  keys_ok m -> incl ks int_keys ->
  let m' := fold_left (ensure_int windows py_int) ks m in
  keys_ok m' /\
  (forall k, In k ks \/ is_int m k -> is_int m' k) /\
  (forall k, ~ In k ks -> dict_get k m' = dict_get k m) /\
  ((forall k, In k ks -> is_int m k) -> m' = m).
Proof.
  revert m. induction ks as [|k0 ks IH]; intros m Hm Hks; cbv zeta.
  - simpl. split; [exact Hm|]. split; [intros k [[]|H]; exact H|]. split; reflexivity.
  - cbn [fold_left].
    assert (Hk0 : In k0 int_keys) by (apply Hks; now left).
    assert (Hks' : incl ks int_keys) by (intros x Hx; apply Hks; now right).
    destruct (ensure_int_spec m k0 Hm Hk0) as (Hm1 & Hint & Hother & Hsame).
    destruct (IH _ Hm1 Hks') as (Hkeys & Hall & Hrest & Hfix).
    split; [exact Hkeys|]. split; [|split].
    + intros k [[<-|Hin]|Hk].
      * apply Hall. now right.
      * apply Hall. now left.
      * apply Hall. right. destruct (String.string_dec k k0) as [->|Hne]; [exact Hint|].
        destruct Hk as [n Hn]. exists n. now rewrite Hother.
    + intros k Hout. rewrite Hrest by (intros H; apply Hout; now right).
      apply Hother. intros ->. apply Hout. now left.
    + intros Hints. specialize (Hsame (Hints k0 (or_introl eq_refl))).
      rewrite Hsame in Hfix |- *.
      apply Hfix. intros k Hin. apply Hints. now right.
Qed.

(** X15. [_migrate] always yields a configuration of the current schema,
    whatever the stored data are: exactly the keys of [DEFAULTS], in
    their order (unknown keys are dropped, missing ones filled in);
    integers under the three port keys and the Celery concurrency; and
    a migration policy that is "manual" or "always". *)
Theorem migrate_yields_schema (data : dict) :
  schema windows (_migrate windows py_int urlparse data).
Proof.
  unfold _migrate.
  destruct (copy_known_spec data) as [Hk0 _].
  pose proof (legacy_keys data _ Hk0) as Hk1.
  destruct (ensure_ints_spec int_keys _ Hk1 (incl_refl _)) as (Hk2 & Hint & _ & _).
  set (m := fold_left (ensure_int windows py_int) int_keys _) in *.
  assert (Hints : forall k, In k int_keys -> is_int m k) by (intros k Hin; apply Hint; now left).
  destruct (valid_policy (dict_get "MIGRATION_POLICY" m)) eqn:Hv.
  - split; [exact Hk2|]. split; [exact Hints|exact Hv].
  - split; [|split].
    + apply set_keys_ok; [exact Hk2|]. rewrite DEFAULTS_keys. simpl. tauto.
    + intros k Hin. destruct (Hints k Hin) as [n Hn]. exists n.
      rewrite dict_get_set_ne; [exact Hn|].
      simpl in Hin. destruct Hin as [<-|[<-|[<-|[<-|[]]]]]; discriminate.
    + now rewrite dict_get_set_eq.
Qed.

Lemma schema_no_legacy (d : dict) :
  keys_ok d -> dict_get "FRONTEND_URL" d = None.
Proof.
  intros Hd. destruct (dict_get "FRONTEND_URL" d) eqn:Hg; [|reflexivity].
  exfalso. assert (Hin : In "FRONTEND_URL" (map fst d)).
  { apply dict_get_In. now rewrite Hg. }
  rewrite Hd, DEFAULTS_keys in Hin. simpl in Hin. intuition discriminate.
Qed.

(** A configuration of the schema is left as it is. *)
Lemma migrate_fixes_schema (d : dict) :
  schema windows d -> _migrate windows py_int urlparse d = d.
Proof.
  intros (Hk & Hints & Hpol). unfold _migrate.
  assert (Hcopy : copy_known windows d D = d).
  { destruct (copy_known_spec d) as [Hk0 Hg].
    apply dict_ext.
    - rewrite Hk0. apply DEFAULTS_NoDup.
    - now rewrite Hk0, Hk.
    - intros k Hin. rewrite Hk0 in Hin. rewrite (Hg k Hin).
      destruct (dict_get k d) eqn:Hd; [reflexivity|].
      exfalso. rewrite <- Hk in Hin. apply dict_get_In in Hin. contradiction. }
  rewrite Hcopy, (legacy_absent d d (schema_no_legacy d Hk)).
  destruct (ensure_ints_spec int_keys d Hk (incl_refl _)) as (_ & _ & _ & Hfix).
  rewrite (Hfix Hints). now rewrite Hpol.
Qed.

(** X16. The configurations [_migrate] leaves alone are exactly those
    of the current schema; in particular [_migrate] is idempotent. *)
Theorem migrate_fixpoints (d : dict) :
  (_migrate windows py_int urlparse d = d <-> schema windows d) /\
  _migrate windows py_int urlparse (_migrate windows py_int urlparse d)
  = _migrate windows py_int urlparse d.
Proof.
  split; [split|].
  - intros H. rewrite <- H. apply migrate_yields_schema.
  - apply migrate_fixes_schema.
  - apply migrate_fixes_schema, migrate_yields_schema.
Qed.

(** X17. [_migrate] checks nothing but the integers and the policy.
    From an empty store it gives [DEFAULTS].  Under every other known
    key (the frontend host apart, which a legacy FRONTEND_URL may
    replace) the stored value is passed on as it is, whatever its
    type, and a missing one is filled in from [DEFAULTS]. *)
Theorem migrate_passes_values_on (data : dict) :
  _migrate windows py_int urlparse [] = D /\
  forall k, In k (map fst D) -> ~ In k int_keys ->
    k <> "MIGRATION_POLICY" -> k <> "FRONTEND_HOST" ->
    dict_get k (_migrate windows py_int urlparse data)
    = match dict_get k data with Some v => Some v | None => dict_get k D end.
Proof.
  split.
  - reflexivity.
  - intros k Hin Hnot Hpol Hhost. unfold _migrate.
    destruct (copy_known_spec data) as [Hk0 Hg].
    pose proof (legacy_keys data _ Hk0) as Hk1.
    destruct (ensure_ints_spec int_keys _ Hk1 (incl_refl _)) as (_ & _ & Hrest & _).
    set (m := fold_left (ensure_int windows py_int) int_keys _) in *.
    assert (Hm : dict_get k m
                 = match dict_get k data with Some v => Some v | None => dict_get k D end).
    { rewrite (Hrest k Hnot), legacy_other; [now apply Hg|exact Hhost|].
      intros ->. apply Hnot. simpl. tauto. }
    destruct (valid_policy (dict_get "MIGRATION_POLICY" m)); [exact Hm|].
    now rewrite dict_get_set_ne.
Qed.

End MigrateProps.

(** ** The configuration dialog *)

Lemma report_nil (bad : bool) (msg : string) (errs : list string) :
  report bad msg errs = [] -> bad = false /\ errs = [].
Proof.
  unfold report. destruct bad; [|auto].
  intros H. apply app_eq_nil in H as [_ H]. discriminate H.
Qed.

Lemma or_else_nonempty (s d : string) : d <> "" -> or_else s d <> "".
Proof. intros Hd. destruct s; [exact Hd|discriminate]. Qed.

Lemma prefix_slash (s : string) : String.prefix "/" ("/" +:+ s) = true.
Proof. unfold append; fold append. cbn. now destruct s. Qed.

Lemma normalized_rel_fixed (p : string) :
  String.prefix "/" p = true -> _normalized_rel p = p.
Proof. intros H. unfold _normalized_rel. destruct p; [discriminate H|now rewrite H]. Qed.

Section DialogProps.

Variable E : Environment.
Variable py_repr : string -> string.
Variable py_float : string -> option (bool * string).

Lemma parse_port_nil (name value : string) (errs : list string) (p : Z) :
  _parse_port E py_repr name value errs = (p, []) ->
  errs = [] /\ 1 <= p <= 65535 /\ py_int E value = Some p.
Proof.
  unfold _parse_port. destruct (py_int E value) as [v|].
  - destruct (negb ((1 <=? v) && (v <=? 65535))) eqn:Hr.
    + intros [= _ H]. apply app_eq_nil in H as [_ H]. discriminate H.
    + intros [= -> ->]. apply Bool.negb_false_iff, andb_prop in Hr as [H1 H2].
      split; [reflexivity|]. split; [lia|reflexivity].
  - intros [= _ H]. apply app_eq_nil in H as [_ H]. discriminate H.
Qed.

Lemma parse_int_nil (name value : string) (min_v : Z) (errs : list string) (v : Z) :
  _parse_int E py_repr name value min_v errs = (v, []) ->
  errs = [] /\ min_v <= v /\ py_int E value = Some v.
Proof.
  unfold _parse_int. destruct (py_int E value) as [x|].
  - destruct (x <? min_v) eqn:Hr.
    + intros [= _ H]. apply app_eq_nil in H as [_ H]. discriminate H.
    + intros [= -> ->]. split; [reflexivity|]. split; [lia|reflexivity].
  - intros [= _ H]. apply app_eq_nil in H as [_ H]. discriminate H.
Qed.

(** What [_save] has checked when it hands a configuration on. *)
Lemma save_valid (f : Form) (n0 : nat) (c : Paths) :
  _save E py_repr py_float f n0 = Saved c ->
  let w := IS_WINDOWS E in
  (1 <= DAPHNE_PORT c <= 65535 /\ 1 <= FRONTEND_PORT c <= 65535 /\
   1 <= REDIS_PORT c <= 65535) /\
  (1 <= CELERY_CONCURRENCY c /\ (CELERY_POOL c = "solo" -> CELERY_CONCURRENCY c = 1)) /\
  (MIGRATION_POLICY c = "manual" \/ MIGRATION_POLICY c = "always") /\
  (String.prefix "/" (OPENAPI_REL c) = true /\ _normalized_rel (OPENAPI_REL c) = OPENAPI_REL c) /\
  (DAPHNE_HOST c <> "" /\ FRONTEND_HOST c <> "" /\ REDIS_HOST c <> "") /\
  (path_exists E n0 (PROJECT_ROOT c) = true /\
   path_exists E (n0 + 1) (FRONTEND_DIR c) = true /\
   path_exists E (n0 + 2) (NPM_EXE c) = true /\
   path_exists E (n0 + 3) (PYTHON_EXE w c) = true /\
   path_exists E (n0 + 4) (CELERY_EXE w c) = true /\
   path_exists E (n0 + 5) (DAPHNE_EXE w c) = true /\
   path_exists E (n0 + 6) (path_join w (FRONTEND_DIR c) "package.json") = true).
Proof.
  intros H. cbv zeta. unfold _save in H. cbv zeta in H.
  destruct (_parse_port E py_repr "Daphne Port" (strip (e_dport f)) []) as [dport e1] eqn:H1.
  destruct (_parse_port E py_repr "Frontend Port" (strip (e_fport f)) e1) as [fport e2] eqn:H2.
  destruct (_parse_port E py_repr "Redis Port" (strip (e_rport f)) e2) as [rport e3] eqn:H3.
  destruct (_parse_int E py_repr "Celery Concurrency" (strip (e_cconc f)) 1 e3)
    as [cconc e4] eqn:H4.
  match type of H with
  | context [py_float ?x] => destruct (py_float x) as [[[|] shown]|] eqn:Hf
  end.
  all: match type of H with
       | match ?e with [] => _ | _ :: _ => _ end = _ => destruct e eqn:He; [|discriminate H]
       end.
  all: repeat match goal with
       | Hr : report _ _ _ = [] |- _ =>
           let Hb := fresh "Hb" in apply report_nil in Hr as [Hb Hr]
       end.
  1, 3: match goal with Hr : (_ ++ [_])%list = [] |- _ =>
          apply app_eq_nil in Hr as [_ Hr]; discriminate Hr end.
  subst e4. apply parse_int_nil in H4 as (-> & Hc & _).
  apply parse_port_nil in H3 as (-> & Hr & _).
  apply parse_port_nil in H2 as (-> & Hfp & _).
  apply parse_port_nil in H1 as (_ & Hd & _).
  injection H as <-. cbn [DAPHNE_PORT FRONTEND_PORT REDIS_PORT CELERY_CONCURRENCY CELERY_POOL
    MIGRATION_POLICY OPENAPI_REL DAPHNE_HOST FRONTEND_HOST REDIS_HOST PROJECT_ROOT
    FRONTEND_DIR NPM_EXE].
  repeat match goal with Hb : negb _ = false |- _ => apply Bool.negb_false_iff in Hb end.
  split; [lia|]. split; [split; [lia|]|].
  { intros Hsolo.
    match goal with Hb : String.eqb _ "solo" && _ = false |- _ =>
      rewrite Hsolo in Hb; cbn [String.eqb Ascii.eqb Bool.eqb andb] in Hb;
      apply Bool.negb_false_iff, Z.eqb_eq in Hb; exact Hb end. }
  split.
  { match goal with Hb : String.eqb ?m "manual" || String.eqb ?m "always" = true |- _ =>
      apply Bool.orb_true_iff in Hb as [Hb|Hb]; apply String.eqb_eq in Hb; auto end. }
  split.
  { assert (Hp : String.prefix "/"
              (if String.prefix "/" (or_else (strip (e_openapi_rel f)) "/api/schema/")
               then or_else (strip (e_openapi_rel f)) "/api/schema/"
               else "/" +:+ or_else (strip (e_openapi_rel f)) "/api/schema/") = true).
    { destruct (String.prefix "/" (or_else (strip (e_openapi_rel f)) "/api/schema/")) eqn:Hp;
        [exact Hp|]. apply prefix_slash. }
    split; [exact Hp|now apply normalized_rel_fixed]. }
  split; [repeat split; apply or_else_nonempty; discriminate|].
  unfold PYTHON_EXE, CELERY_EXE, DAPHNE_EXE, _venv_bin, VENV_DIR.
  cbn [PROJECT_ROOT FRONTEND_DIR].
  destruct (IS_WINDOWS E); repeat split; assumption.
Qed.

(** X18. The dialog saves valid configurations only.  A configuration
    that [_save] hands to [on_save] has its three ports between 1 and
    65535 and a Celery concurrency of at least 1 (exactly 1 with the
    pool "solo"), a migration policy "manual" or "always", an OpenAPI
    path that starts with a slash, hosts that are not empty; and the
    project and frontend directories, npm, the three executables of
    the virtual environment and package.json existed when they were
    checked. *)
Theorem save_accepts_only_valid (f : Form) (n0 : nat) (c : Paths) :
  _save E py_repr py_float f n0 = Saved c ->
  let w := IS_WINDOWS E in
  (1 <= DAPHNE_PORT c <= 65535 /\ 1 <= FRONTEND_PORT c <= 65535 /\
   1 <= REDIS_PORT c <= 65535) /\
  (1 <= CELERY_CONCURRENCY c /\ (CELERY_POOL c = "solo" -> CELERY_CONCURRENCY c = 1)) /\
  (MIGRATION_POLICY c = "manual" \/ MIGRATION_POLICY c = "always") /\
  (String.prefix "/" (OPENAPI_REL c) = true /\ _normalized_rel (OPENAPI_REL c) = OPENAPI_REL c) /\
  (DAPHNE_HOST c <> "" /\ FRONTEND_HOST c <> "" /\ REDIS_HOST c <> "") /\
  (path_exists E n0 (PROJECT_ROOT c) = true /\
   path_exists E (n0 + 1) (FRONTEND_DIR c) = true /\
   path_exists E (n0 + 2) (NPM_EXE c) = true /\
   path_exists E (n0 + 3) (PYTHON_EXE w c) = true /\
   path_exists E (n0 + 4) (CELERY_EXE w c) = true /\
   path_exists E (n0 + 5) (DAPHNE_EXE w c) = true /\
   path_exists E (n0 + 6) (path_join w (FRONTEND_DIR c) "package.json") = true).
Proof. exact (save_valid f n0 c). Qed.

(** X19. A configuration the dialog has saved passes the sanity check
    of the application, as long as the files it checked stay where
    they are: [_sanity_check] looks for the same five files and reports
    "Sanity checks passed", with no error dialog. *)
Theorem saved_config_passes_sanity_check (f : Form) (n0 n1 : nat) (c : Paths)
    (show_dialog : bool) :
  (forall n m path, path_exists E n path = path_exists E m path) ->
  _save E py_repr py_float f n0 = Saved c ->
  _sanity_check E c show_dialog n1 = ("Sanity checks passed ✅", None).
Proof.
  intros Hfs Hsave.
  destruct (save_valid f n0 c Hsave) as (_ & _ & _ & _ & _ & _ & _ & H2 & H3 & H4 & H5 & H6).
  unfold _sanity_check. cbv zeta.
  rewrite (Hfs n1 (n0 + 3)%nat), H3.
  rewrite (Hfs (n1 + 1)%nat (n0 + 4)%nat), H4.
  rewrite (Hfs (n1 + 2)%nat (n0 + 5)%nat), H5.
  rewrite (Hfs (n1 + 3)%nat (n0 + 2)%nat), H2.
  rewrite (Hfs (n1 + 4)%nat (n0 + 6)%nat), H6.
  reflexivity.
Qed.

(** X20. The path of the OpenAPI URL always starts with a slash:
    [_normalized_rel] gives "/" for the empty string, leaves a path
    that starts with a slash as it is and puts a slash before any
    other, so it is idempotent; and the URL itself is never empty. *)
Theorem normalized_rel_starts_with_slash (p : string) :
  _normalized_rel "" = "/" /\
  String.prefix "/" (_normalized_rel p) = true /\
  (String.prefix "/" p = true -> _normalized_rel p = p) /\
  _normalized_rel (_normalized_rel p) = _normalized_rel p /\
  forall c, OPENAPI_URL c <> "".
Proof.
  assert (Hs : String.prefix "/" (_normalized_rel p) = true).
  { unfold _normalized_rel. destruct p as [|ch p]; [reflexivity|].
    destruct (String.prefix "/" (String ch p)) eqn:Hp; [exact Hp|apply prefix_slash]. }
  split; [reflexivity|]. split; [exact Hs|]. split; [apply normalized_rel_fixed|].
  split; [now apply normalized_rel_fixed|].
  intros c. unfold OPENAPI_URL. discriminate.
Qed.

End DialogProps.

(** * The background threads *)

#[local] Instance keeps_flag_preorder : PreOrder keeps_flag.
Proof. split; unfold keeps_flag; [intros s|intros a b c]; auto. Qed.

Section ThreadProps.

Variable E : Environment.
Variable cfg : Paths.
Variable url_fetch : nat -> string -> Outcome string.
Variable file_write : nat -> string -> string -> option Exn.

Lemma lasts_http_ok (url : string) (timeout : Z) : lasts 0 (_http_ok E url timeout).
Proof.
  unfold _http_ok. change 0 with (0 + 0).
  apply lasts_catch; [lia| |intros e k [= <-]; instantly].
  destruct (url_parts url) as [[[host port] path]|e]; [|instantly].
  destruct (py_int E port); instantly.
Qed.

Lemma returns_http_ok (url : string) (timeout : Z) : returns (_http_ok E url timeout).
Proof.
  unfold _http_ok. apply returns_catch. intros e. eexists. split; [reflexivity|].
  apply returns_ret.
Qed.

Lemma flag_http_ok (url : string) (timeout : Z) :
  forall s, _browser_opened (snd (_http_ok E url timeout s)) = _browser_opened s.
Proof.
  intros s. unfold _http_ok, catch.
  destruct (url_parts url) as [[[host port] path]|e]; [|reflexivity].
  destruct (py_int E port) as [pn|]; [|reflexivity].
  rewrite bind_ask. destruct (http_get E (asked s) host pn path); reflexivity.
Qed.

Lemma lasts_opener_loop (n : nat) : lasts (500 * Z.of_nat n) (opener_loop E cfg n).
Proof.
  induction n as [|n IH]; cbn [opener_loop].
  - apply (lasts_weaken 0); [lia|instantly].
  - apply lasts_bind_l; [apply lasts_http_ok| |lia]. intros [|].
    + apply (lasts_weaken 0); [lia|instantly].
    + replace (500 * Z.of_nat (S n)) with (500 + 500 * Z.of_nat n) by lia.
      apply lasts_bind; [lia|apply lasts_sleep; lia|intros _; exact IH].
Qed.

Lemma returns_opener_loop (n : nat) : returns (opener_loop E cfg n).
Proof.
  induction n as [|n IH]; cbn [opener_loop].
  - apply returns_bind; [apply returns_log|intros _; apply returns_ret].
  - apply returns_bind; [apply returns_http_ok|intros [|]].
    + apply returns_bind; [never_raises|intros opened].
      destruct (negb opened); [|apply returns_ret].
      apply returns_bind; [never_raises|intros _].
      apply returns_bind; [apply returns_log|intros _; apply returns_ret].
    + apply returns_bind; [never_raises|intros _; exact IH].
Qed.

(** The flag and the result of the loop of [opener]. *)
Lemma opener_loop_flag (n : nat) (s : State) :
  let r := opener_loop E cfg n s in
  (_browser_opened s = true ->
   fst r = Returned false /\ _browser_opened (snd r) = true) /\
  (fst r = Returned true ->
   _browser_opened s = false /\ _browser_opened (snd r) = true).
Proof.
  revert s. induction n as [|n IH]; intros s; cbn [opener_loop]; cbv zeta.
  - rewrite bind_log. simpl. split; [auto|discriminate].
  - destruct (returns_http_ok (FRONTEND_URL cfg) 500 s) as [ok Hok].
    pose proof (flag_http_ok (FRONTEND_URL cfg) 500 s) as Hflag.
    destruct (_http_ok E (FRONTEND_URL cfg) 500 s) as [r1 s1] eqn:Hrun.
    simpl in Hok, Hflag. subst r1. rewrite (bind_returned _ _ _ _ _ Hrun).
    destruct ok.
    + rewrite bind_gets. destruct (_browser_opened s1) eqn:Hb1; simpl.
      * rewrite <- Hflag. split; [auto|discriminate].
      * rewrite <- Hflag. split; [discriminate|auto].
    + rewrite bind_sleep. set (s2 := with_now _ _).
      assert (H2 : _browser_opened s2 = _browser_opened s) by (rewrite <- Hflag; reflexivity).
      destruct (IH s2) as [Hset Hopen]. rewrite H2 in Hset, Hopen. split; assumption.
Qed.


(** What [fetch_openapi] returns: nothing, or the file [openapi.json]
    of the project root with the data read from [OPENAPI_URL]. *)
Lemma fetch_openapi_spec (s : State) :
  let r := fetch_openapi E cfg url_fetch file_write s in
  now (snd r) = now s /\
  (fst r = Returned None \/
   exists n data,
     url_fetch n (OPENAPI_URL cfg) = Returned data /\
     fst r = Returned
       (Some (path_join (IS_WINDOWS E) (PROJECT_ROOT cfg) "openapi.json", data))).
Proof.
  cbv zeta. unfold fetch_openapi. rewrite bind_log. set (s1 := with_trace _ _).
  assert (H1 : now s1 = now s) by reflexivity. clearbody s1.
  unfold catch. rewrite bind_ask. set (s2 := with_asked _ _).
  assert (H2 : now s2 = now s) by (rewrite <- H1; reflexivity).
  destruct (url_fetch (asked s1) (OPENAPI_URL cfg)) as [data|e] eqn:Hfetch.
  - clearbody s2. rewrite bind_ask. set (s3 := with_asked _ _).
    assert (H3 : now s3 = now s) by (rewrite <- H2; reflexivity). clearbody s3.
    destruct (file_write _ _ data) as [e|].
    + unfold raise. cbn [fst snd]. rewrite bind_log. cbn [fst snd ret].
      split; [rewrite <- H3; reflexivity|left; reflexivity].
    + rewrite bind_log. cbn [fst snd ret].
      split; [rewrite <- H3; reflexivity|right; eauto].
  - clearbody s2. unfold raise. cbn [fst snd]. rewrite bind_log. cbn [fst snd ret].
    split; [rewrite <- H2; reflexivity|left; reflexivity].
Qed.

Lemma waiter_loop_spec (n : nat) (s : State) :
  let r := waiter_loop E cfg url_fetch file_write n s in
  now s <= now (snd r) <= now s + 500 * Z.of_nat n /\
  (fst r = Returned None \/
   FETCH_OPENAPI cfg = true /\
   exists k data,
     url_fetch k (OPENAPI_URL cfg) = Returned data /\
     fst r = Returned
       (Some (path_join (IS_WINDOWS E) (PROJECT_ROOT cfg) "openapi.json", data))).
Proof.
  revert s. induction n as [|n IH]; intros s; cbn [waiter_loop]; cbv zeta.
  - rewrite bind_log. cbn [fst snd ret]. split; [simpl; lia|left; reflexivity].
  - unfold _tcp_open. rewrite bind_bind, bind_ask, bind_ret. set (s1 := with_asked _ _).
    assert (H1 : now s1 = now s) by reflexivity. clearbody s1.
    destruct (tcp_connect E (asked s) (DAPHNE_HOST cfg) (DAPHNE_PORT cfg)).
    + rewrite bind_log. set (s2 := with_trace _ _).
      assert (H2 : now s2 = now s) by (rewrite <- H1; reflexivity). clearbody s2.
      destruct (FETCH_OPENAPI cfg); cbn [andb].
      * destruct (negb (OPENAPI_URL cfg =? "")%string).
        -- destruct (fetch_openapi_spec s2) as [Hnow Hres]. rewrite Hnow, H2.
           split; [lia|]. destruct Hres as [Hres|Hres]; [left; exact Hres|right; auto].
        -- cbn [fst snd ret]. rewrite H2. split; [lia|left; reflexivity].
      * cbn [fst snd ret]. rewrite H2. split; [lia|left; reflexivity].
    + rewrite bind_sleep. set (s2 := with_now _ _).
      assert (H2 : now s2 = now s + 500) by (rewrite <- H1; reflexivity). clearbody s2.
      destruct (IH s2) as [Hnow Hres]. rewrite H2 in Hnow. split; [lia|exact Hres].
Qed.


End ThreadProps.

(** * Celery beat and its schedule file *)

Section Beat.

Variable E : Environment.
Variable cfg : Paths.
Variable status_callback : option (nat -> string -> ProcessStatus -> option Exn).
Variable notify_callback : option (nat -> string -> string -> option Exn).

(** X23. A schedule file that cannot be removed does not keep Celery
    beat from starting.  When the old schedule file exists and
    [os.remove] raises, [start_celery_beat] logs the warning and goes
    on: the process is launched, tracked under "celery_beat" and
    Running, with automatic restart. *)
Theorem celery_beat_starts_despite_stale_schedule (s : State) (e : Exn)
    (life : option Z) (code : Z) (td : option Z) :
  status_quiet status_callback ->
  notify_quiet notify_callback ->
  tbl_get "celery_beat" (procs s) = None ->
  path_exists E (asked s) (CELERY_BEAT_SCHEDULE_PATH (IS_WINDOWS E) cfg) = true ->
  os_remove E (S (asked s)) (CELERY_BEAT_SCHEDULE_PATH (IS_WINDOWS E) cfg) = Some e ->
  launch_succeeds_with E (asked s) (beat_proc E cfg) life code td ->
  let l := length (heap s) in
  let r := start_celery_beat E cfg status_callback notify_callback s in
  fst r = Returned tt /\
  tbl_get "celery_beat" (procs (snd r)) = Some l /\
  status (heap (snd r) !!! l) = RUNNING /\
  auto_restart (heap (snd r) !!! l) = true /\
  p (heap (snd r) !!! l) = Some (length (os s)) /\
  exists evs : list Event,
    trace (snd r)
    = (trace s
       ++ Removed (CELERY_BEAT_SCHEDULE_PATH (IS_WINDOWS E) cfg)
       :: UiLog (now s) ("WARNING: could not remove old beat schedule: " +:+ exn_str e)
            "INFO"
       :: evs)%list /\
    List.filter is_popen_call evs = [PopenCall (args (beat_proc E cfg)) (PROJECT_ROOT cfg)].
Proof.
  intros Hs Hn Ht Hex Hrm Hlaunch. cbv zeta.
  remember (start_celery_beat E cfg status_callback notify_callback s) as r eqn:Hr.
  unfold start_celery_beat in Hr.
  set (path := CELERY_BEAT_SCHEDULE_PATH (IS_WINDOWS E) cfg) in *.
  set (s1 := with_trace
               (trace s ++ [Removed path;
                            UiLog (now s)
                              ("WARNING: could not remove old beat schedule: " +:+ exn_str e)
                              "INFO"])
               (with_asked (S (S (asked s))) s)).
  match type of Hr with
  | r = bind (catch ?m ?h) ?k s =>
      assert (Hcatch : catch m h s = (Returned tt, s1))
  end.
  { unfold catch. rewrite bind_ask, Hex, bind_ask.
    cbn [asked with_asked]. rewrite bind_emit. cbn [asked with_asked with_trace].
    rewrite Hrm. unfold raise. cbn [fst snd]. unfold log. rewrite bind_gets.
    unfold emit, modify, s1. cbn. rewrite <- app_assoc. reflexivity. }
  rewrite (bind_returned _ _ _ _ _ Hcatch) in Hr. subst path.
  unfold make_proc, bind at 1, new_proc in Hr. cbv beta iota in Hr.
  fold (beat_proc E cfg) in Hr.
  assert (Hp1 : procs s1 = procs s) by reflexivity.
  assert (Hh1 : heap s1 = heap s) by reflexivity.
  assert (Ho1 : os s1 = os s) by reflexivity.
  assert (Ha1 : asked s1 = S (S (asked s))) by reflexivity.
  assert (Ht1 : trace s1
                = (trace s ++ [Removed (CELERY_BEAT_SCHEDULE_PATH (IS_WINDOWS E) cfg);
                               UiLog (now s)
                                 ("WARNING: could not remove old beat schedule: "
                                  +:+ exn_str e) "INFO"])%list) by reflexivity.
  clearbody s1.
  set (s2 := with_heap (heap s1 ++ [beat_proc E cfg]) s1) in *.
  assert (Hl2 : (length (heap s1) < length (heap s2))%nat).
  { unfold s2. simpl. rewrite length_app. simpl. lia. }
  assert (Hh2 : heap s2 !!! length (heap s1) = beat_proc E cfg).
  { unfold s2. simpl. rewrite lookup_total_app_r by lia. now rewrite Nat.sub_diag. }
  assert (Hlive : tracked_live "celery_beat" s2 = (Returned false, s2)).
  { apply tracked_live_absent. unfold s2. simpl. now rewrite Hp1. }
  assert (Hgo : launch_succeeds_with E (asked s2) (heap s2 !!! length (heap s1))
                  life code td).
  { rewrite Hh2. intros n Hle. apply Hlaunch. unfold s2 in Hle. simpl in Hle. lia. }
  destruct (spawn_launched_run E status_callback notify_callback
              "celery_beat" (length (heap s1)) s2 life code td Hs Hn Hl2 Hlive Hgo)
    as (Hr3 & Hp3 & Hh3 & Ho3 & Hn3 & _ & ev3 & Ht3 & Hf3).
  subst r. rewrite Hh1 in *.
  split; [exact Hr3|].
  rewrite Hp3, Hh3, Ht3, Hh2. unfold s2. cbn [procs heap os now trace with_heap].
  rewrite Hp1, Hh1, Ho1, Ht1.
  split; [apply tbl_get_set|].
  rewrite insert_app_r_alt by lia. rewrite Nat.sub_diag.
  rewrite lookup_total_app_r by lia. rewrite Nat.sub_diag.
  do 3 (split; [reflexivity|]).
  exists ev3. split.
  - now rewrite <- app_assoc.
  - rewrite Hf3, Hh2. reflexivity.
Qed.

End Beat.

(** * The properties at concrete inputs *)

Lemma quiet_none_status : status_quiet None.
Proof. intros f [=]. Defined.

Lemma quiet_none_notify : notify_quiet None.
Proof. intros f [=]. Defined.


Lemma ensure_redis_bounded_witness :
  let r := ensure_redis env_crashing cfg_default None None init_state in
  now (snd r) <= 10000 /\
  fst r = Returned tt /\ procs (snd r) = [] /\ heap (snd r) = [] /\ os (snd r) = [].
Proof.
  cbv zeta.
  destruct (ensure_redis_bounded env_crashing cfg_default None None init_state)
    as [Hnow [_ Hnodocker]].
  split; [apply Hnow|].
  destruct (Hnodocker eq_refl (or_intror eq_refl)) as (Hr & Hp & Hh & Ho & _).
  repeat split; assumption.
Defined.

Lemma start_frontend_aborts_on_busy_port_witness :
  launches_nothing init_state
    (snd (start_frontend (env_conflict NoRoot (Answer false)) cfg_default None None
            init_state)).
Proof.
  apply (start_frontend_aborts_on_busy_port (env_conflict NoRoot (Answer false))
           cfg_default None None init_state).
  intros n. reflexivity.
Defined.

Lemma spawn_tracks_launched_witness :
  let s := snd (new_proc frontend_proc init_state) in
  let r := _spawn env_steady None None "frontend" 0%nat s in
  fst r = Returned tt /\
  tbl_get "frontend" (procs (snd r)) = Some 0%nat /\
  status (heap (snd r) !!! 0%nat) = RUNNING /\
  p (heap (snd r) !!! 0%nat) = Some 0%nat.
Proof.
  cbv zeta.
  destruct (spawn_tracks_launched env_steady None None "frontend" 0%nat
              (snd (new_proc frontend_proc init_state)) None 0 (Some 100)
              quiet_none_status quiet_none_notify)
    as (Hr & Ht & _ & Hs & Hp & _).
  - simpl. lia.
  - reflexivity.
  - intros n _. reflexivity.
  - repeat split; assumption.
Defined.


Lemma start_daphne_ignores_port_conflict_witness :
  let E := env_conflict NoRoot (Answer false) in
  let r := start_daphne E cfg_default None None init_state in
  tcp_connect E 0 "127.0.0.1" (DAPHNE_PORT cfg_default) = true /\
  fst r = Returned tt /\
  tbl_get "daphne" (procs (snd r)) = Some 0%nat /\
  status (heap (snd r) !!! 0%nat) = RUNNING.
Proof.
  cbv zeta. split; [reflexivity|].
  destruct (start_daphne_ignores_port_conflict (env_conflict NoRoot (Answer false))
              cfg_default None None init_state None 0 (Some 100)
              quiet_none_status quiet_none_notify)
    as (Hr & Ht & Hs & _).
  - reflexivity.
  - intros n _. reflexivity.
  - repeat split; assumption.
Defined.

Lemma restart_timer_restarts_last_key_witness :
  let s := run_ops env_crashing cfg_default None None
             [DoStartBackend; DoFireTimer; DoFireTimer; DoFireTimer] init_state in
  let s' := snd (monitor_tick None None s) in
  map fst (procs s) = ["daphne"; "celery_beat"; "celery_worker"] /\
  monitor_key s' = Some "celery_worker" /\
  run_timer env_crashing cfg_default None None CallRestartKey s'
  = _restart_proc env_crashing cfg_default None None "celery_worker" s'.
Proof.
  cbv zeta. split; [reflexivity|].
  apply (restart_timer_restarts_last_key env_crashing cfg_default None None
           (run_ops env_crashing cfg_default None None
              [DoStartBackend; DoFireTimer; DoFireTimer; DoFireTimer] init_state)
           [("daphne", 0%nat); ("celery_beat", 1%nat)] "celery_worker" 2%nat
           quiet_none_status quiet_none_notify).
  reflexivity.
Defined.

Lemma crash_reported_once_witness :
  let s := snd (sleep 2000 frontend_exited) in
  let s1 := snd (check_proc None None "frontend" 0%nat s) in
  crashed s 0%nat /\
  only_status s1 (snd (check_proc None None "frontend" 0%nat s1)).
Proof.
  cbv zeta.
  assert (Hc : crashed (snd (sleep 2000 frontend_exited)) 0%nat).
  { exists 0%nat, 1. repeat split. }
  split; [exact Hc|].
  apply (proj2 (crash_reported_once None None "frontend" 0%nat
                  (snd (sleep 2000 frontend_exited)))).
  - simpl. lia.
  - exact Hc.
Defined.

Lemma start_all_schedules_stages_witness :
  let r := start_all env_steady cfg_default None None init_state in
  timers (snd r)
  = [(now (snd r) + 1000, CallStartDaphne);
     (now (snd r) + 1500, CallStartCeleryBeat);
     (now (snd r) + 2000, CallStartCeleryWorker);
     (now (snd r) + 3000, CallStartFrontend)] /\
  tbl_get "daphne" (procs (snd r)) = None.
Proof.
  cbv zeta.
  destruct (start_all_schedules_stages env_steady cfg_default None None init_state eq_refl)
    as (Ht & _ & Hk).
  split; [exact Ht|]. apply (Hk "daphne"). left; reflexivity.
Defined.

Lemma spawn_then_terminate_restores_table_witness :
  let s := snd (new_proc frontend_proc init_state) in
  let s1 := snd (_spawn env_steady None None "frontend" 0%nat s) in
  let r := _terminate None "frontend" s1 in
  tbl_get "frontend" (procs s1) = Some 0%nat /\
  fst r = Returned tt /\
  procs (snd r) = procs s /\
  status (heap (snd r) !!! 0%nat) = STOPPED /\
  _terminate None "frontend" (snd r) = (Returned tt, snd r).
Proof.
  apply (spawn_then_terminate_restores_table env_steady None None "frontend" 0%nat
           (snd (new_proc frontend_proc init_state)) None 0 (Some 100)
           quiet_none_status quiet_none_notify).
  - split; [constructor|constructor].
  - simpl. lia.
  - reflexivity.
  - intros n _. reflexivity.
Defined.

Lemma stop_all_leaves_timers_pending_witness :
  let s := run_ops env_crashing cfg_default None None
             [DoStartFrontend; DoMonitorTick] init_state in
  let s' := snd (worker env_crashing cfg_default None s) in
  timers s = [(4000, CallRestartKey)] /\
  timers s' = timers s /\
  _restart_proc env_crashing cfg_default None None "frontend" s' = (Returned tt, s').
Proof.
  cbv zeta. split; [reflexivity|].
  destruct (stop_all_leaves_timers_pending env_crashing cfg_default None None
              (run_ops env_crashing cfg_default None None
                 [DoStartFrontend; DoMonitorTick] init_state)) as [Ht Hr].
  split; [exact Ht|].
  apply Hr; [|exact quiet_none_status].
  apply (reachable_wf env_crashing cfg_default None None).
  apply reachable_run_ops. constructor.
Defined.

Lemma exit_without_auto_restart_witness :
  let s := snd (sleep 2000 migrate_exited) in
  let s' := snd (check_proc None None "migrate" 0%nat s) in
  status (heap s' !!! 0%nat) = FAILED /\
  last_error (heap s' !!! 0%nat) = Some "Exited with code 1" /\
  timers s' = [].
Proof.
  cbv zeta.
  destruct (exit_without_auto_restart None None "migrate" 0%nat
              (snd (sleep 2000 migrate_exited)) 0%nat 1)
    as (Hh & Ht & _).
  - simpl. lia.
  - reflexivity.
  - reflexivity.
  - reflexivity.
  - reflexivity.
  - rewrite Hh, Ht. repeat split.
Defined.

Lemma migrate_fixpoints_witness :
  schema false (DEFAULTS false) /\
  _migrate false decimal_int urlparse_sample
    (_migrate false decimal_int urlparse_sample legacy_config)
  = _migrate false decimal_int urlparse_sample legacy_config.
Proof.
  split.
  - apply (proj1 (migrate_fixpoints false decimal_int urlparse_sample (DEFAULTS false))).
    reflexivity.
  - apply (proj2 (migrate_fixpoints false decimal_int urlparse_sample legacy_config)).
Defined.

Lemma migrate_passes_values_on_witness :
  dict_get "DAPHNE_HOST" (_migrate false decimal_int urlparse_sample legacy_config)
  = Some (JStr "0.0.0.0") /\
  dict_get "REDIS_HOST" (_migrate false decimal_int urlparse_sample legacy_config)
  = Some (JStr "127.0.0.1").
Proof.
  split.
  - apply (proj2 (migrate_passes_values_on false decimal_int urlparse_sample legacy_config)
             "DAPHNE_HOST").
    + do 5 right. left. reflexivity.
    + intros H. simpl in H. intuition discriminate.
    + discriminate.
    + discriminate.
  - apply (proj2 (migrate_passes_values_on false decimal_int urlparse_sample legacy_config)
             "REDIS_HOST").
    + do 10 right. left. reflexivity.
    + intros H. simpl in H. intuition discriminate.
    + discriminate.
    + discriminate.
Defined.

Lemma save_default_form :
  _save env_steady repr_plain float_sample form_default 0 = Saved cfg_default.
Proof. reflexivity. Defined.

Lemma save_accepts_only_valid_witness :
  _save env_steady repr_plain float_sample form_default 0 = Saved cfg_default /\
  (1 <= DAPHNE_PORT cfg_default <= 65535 /\ 1 <= FRONTEND_PORT cfg_default <= 65535 /\
   1 <= REDIS_PORT cfg_default <= 65535) /\
  String.prefix "/" (OPENAPI_REL cfg_default) = true.
Proof.
  split; [exact save_default_form|].
  destruct (save_accepts_only_valid env_steady repr_plain float_sample form_default 0
              cfg_default save_default_form) as (Hports & _ & _ & [Hrel _] & _).
  split; [exact Hports|exact Hrel].
Defined.

Lemma saved_config_passes_sanity_check_witness :
  _sanity_check env_steady cfg_default true 7 = ("Sanity checks passed ✅", None).
Proof.
  apply (saved_config_passes_sanity_check env_steady repr_plain float_sample form_default
           0 7 cfg_default true).
  - intros n m path. reflexivity.
  - exact save_default_form.
Defined.

Lemma normalized_rel_starts_with_slash_witness :
  _normalized_rel "/api/schema/" = "/api/schema/" /\
  String.prefix "/" (_normalized_rel "api/schema/") = true.
Proof.
  split.
  - apply (proj1 (proj2 (proj2 (normalized_rel_starts_with_slash "/api/schema/")))).
    reflexivity.
  - apply (proj1 (proj2 (normalized_rel_starts_with_slash "api/schema/"))).
Defined.



Lemma celery_beat_starts_despite_stale_schedule_witness :
  let r := start_celery_beat env_stale cfg_default None None init_state in
  fst r = Returned tt /\
  tbl_get "celery_beat" (procs (snd r)) = Some 0%nat /\
  status (heap (snd r) !!! 0%nat) = RUNNING.
Proof.
  cbv zeta.
  destruct (celery_beat_starts_despite_stale_schedule env_stale cfg_default None None
              init_state
              (PermissionError "[Errno 13] Permission denied: 'celerybeat-schedule'")
              None 0 (Some 100) quiet_none_status quiet_none_notify)
    as (Hr & Ht & Hs & _).
  - reflexivity.
  - reflexivity.
  - reflexivity.
  - intros n _. reflexivity.
  - repeat split; assumption.
Defined.
